(** * Thinkbuddy proxy: token lifecycle and SSE stream transcoding

    A shallow embedding of the two deployments of the proxy,
    [worker.js] (Cloudflare Workers) and [main.ts] (Deno Deploy):

    - [JS]      the fragment of JavaScript both files rely on: strings as
                sequences of UTF-16 code units, JSON values, [JSON.parse],
                [JSON.stringify], property access with and without [?.];
    - [Payload] the statements both files run on the payload of a
                [data: ] line: sentinel test, normalisation, enqueues;
    - [Worker]  [transformStream] of [worker.js]: the [transform] and
                [flush] callbacks around the shared [buffer];
    - [Deno]    the [ReadableStream] reader loop of [main.ts];
    - [Token]   [registerUser], [refreshToken] and [getValidToken], which
                are the same code in both files;
    - [Faulty]  the same three functions with awaits that can reject;
    - [Proxy]   [handleModels] and [handleChatCompletions] of both files,
                [fetch] of [worker.js] and the callback of [serve] in
                [main.ts];
    - [Trace], [Lines], [Framing]  the vocabulary of the statements
                about whole invocations and whole streams.

    The transcoders are modelled from the decoded text of each upstream
    chunk to the texts they enqueue; the [TextDecoder] and [TextEncoder]
    stages around them are left out.  *)

From Stdlib Require Import NArith ZArith List String Ascii Bool Lia.
From stdpp Require Import base option list gmap.

Set Warnings "-register-all".
Local Open Scope N_scope.

(* ===================================================================== *)
(** ** JavaScript strings and JSON *)
(* ===================================================================== *)

Module JS.

(** A JavaScript string is a sequence of UTF-16 code units. *)
Abbreviation jstring := (list N).

(** [js "abc"] is the JavaScript string with the same (ASCII) characters. *)
Definition js (s : string) : jstring :=
  map N_of_ascii (list_ascii_of_string s).

(** [jsq] is [js] with every apostrophe standing for a double quote
    (code unit 34), so that JSON texts can be written down readably. *)
Definition jsq (s : string) : jstring :=
  map (fun c => if c =? 39 then 34 else c) (js s).

(** The line feed, as a string. *)
Definition LF : jstring := [10].

(** *** String methods used by the proxy *)

(** [s.startsWith(p)] *)
Fixpoint startsWith (p s : jstring) : bool :=
  match p, s with
  | [], _ => true
  | a :: p', b :: s' => (a =? b) && startsWith p' s'
  | _ :: _, [] => false
  end.

(** [s.includes(p)] *)
Fixpoint includes (p s : jstring) : bool :=
  startsWith p s ||
  match s with
  | [] => false
  | _ :: s' => includes p s'
  end.

(** [s.slice(n)] for [0 <= n] *)
Definition slice (n : nat) (s : jstring) : jstring := drop n s.

(** White space and line terminators, the code units [trim] strips. *)
Definition is_space (c : N) : bool :=
  ((9 <=? c) && (c <=? 13)) || (c =? 32) || (c =? 160) || (c =? 5760)
  || ((8192 <=? c) && (c <=? 8202)) || (c =? 8232) || (c =? 8233)
  || (c =? 8239) || (c =? 8287) || (c =? 12288) || (c =? 65279).

Fixpoint trimStart (s : jstring) : jstring :=
  match s with
  | c :: s' => if is_space c then trimStart s' else s
  | [] => []
  end.

(** [s.trim()] *)
Definition trim (s : jstring) : jstring :=
  rev (trimStart (rev (trimStart s))).

(** [s.split(LF)]: never empty; the empty string gives one empty piece. *)
Fixpoint split_lf (s : jstring) : list jstring :=
  match s with
  | [] => [[]]
  | c :: s' =>
      if c =? 10 then [] :: split_lf s'
      else match split_lf s' with
           | l :: ls => (c :: l) :: ls
           | [] => [[c]]
           end
  end.

(** Equality of strings, [a === b]. *)
Definition str_eqb (a b : jstring) : bool := bool_decide (a = b).

(** *** Values

    What [JSON.parse] can build, plus the one thing the transcoder can add
    to it: a named property on an array ([named], ignored by
    [JSON.stringify]).  [undefined] is not a JSON value; an absent property
    reads as [None].  A number is kept as the literal it was written with;
    what the code sees of it is the double the literal denotes
    ([to_double] below): the transcoder tests numbers for truthiness and
    prints them back. *)
Inductive value :=
| VNull
| VBool (b : bool)
| VNum (literal : jstring)
| VStr (s : jstring)
| VArr (elems : list value) (named : list (jstring * value))
| VObj (props : list (jstring * value)).

Inductive error := SyntaxError | TypeError.

Inductive result (A : Type) :=
| Ok (a : A)
| Throw (e : error).
Arguments Ok {A} a.
Arguments Throw {A} e.

(** Sequencing: a thrown error skips the rest ([x ← r; k] below). *)
#[global] Instance result_bind : MBind result := fun A B k r =>
  match r with
  | Ok a => k a
  | Throw e => Throw e
  end.

(** *** Property keys *)

Definition is_digit (c : N) : bool := (48 <=? c) && (c <=? 57).

Fixpoint decimal (acc : N) (s : jstring) : option N :=
  match s with
  | [] => Some acc
  | c :: s' => if is_digit c then decimal (10 * acc + (c - 48)) s' else None
  end.

(** An array index is the canonical decimal form of an integer below
    [2^32 - 1]; such keys address array elements and come first, in
    ascending order, among the keys of an object. *)
Definition array_index (k : jstring) : option N :=
  match k with
  | [] => None
  | [48] => Some 0
  | c :: _ =>
      if c =? 48 then None
      else if 10 <? N.of_nat (length k) then None
      else match decimal 0 k with
           | Some n => if n <? 4294967295 then Some n else None
           | None => None
           end
  end.

Fixpoint lookup_key (k : jstring) (ps : list (jstring * value)) : option value :=
  match ps with
  | [] => None
  | (k', v) :: ps' => if str_eqb k k' then Some v else lookup_key k ps'
  end.

Fixpoint replace_key (k : jstring) (x : value) (ps : list (jstring * value))
  : list (jstring * value) :=
  match ps with
  | [] => []
  | (k', v) :: ps' =>
      if str_eqb k k' then (k', x) :: ps' else (k', v) :: replace_key k x ps'
  end.

Fixpoint remove_key (k : jstring) (ps : list (jstring * value))
  : list (jstring * value) :=
  match ps with
  | [] => []
  | (k', v) :: ps' =>
      if str_eqb k k' then remove_key k ps' else (k', v) :: remove_key k ps'
  end.

Fixpoint insert_index (i : N) (k : jstring) (x : value)
    (ps : list (jstring * value)) : list (jstring * value) :=
  match ps with
  | [] => [(k, x)]
  | (k', v) :: ps' =>
      match array_index k' with
      | Some j => if j <? i then (k', v) :: insert_index i k x ps'
                  else (k, x) :: ps
      | None => (k, x) :: ps
      end
  end.

(** Defining property [k] on an object: an existing key keeps its place;
    a new index key goes among the index keys, any other new key last. *)
Definition obj_define (ps : list (jstring * value)) (k : jstring) (x : value)
  : list (jstring * value) :=
  match lookup_key k ps with
  | Some _ => replace_key k x ps
  | None =>
      match array_index k with
      | Some i => insert_index i k x ps
      | None => ps ++ [(k, x)]
      end
  end.

(** *** Numbers

    [JSON.parse] reads a number literal as the double nearest to its
    decimal value, and [JSON.stringify] prints a double in the shortest
    decimal form that reads back as the same double.  Both are modelled
    exactly, on the literal: rounding to nearest with ties to even, as
    the engine of both platforms does it for literals of any length. *)

(** A double: zero (of either sign: both are falsy and print as [0]),
    [m * 2^e] with a sign, or an infinity. *)
Inductive double :=
| DZero
| DFinite (negative : bool) (m : N) (e : Z)
| DInfinite (negative : bool).

(** The leading digits of a text, and what follows them. *)
Fixpoint span_digits (l : jstring) : jstring * jstring :=
  match l with
  | c :: r =>
      if is_digit c then let '(ds, rest) := span_digits r in (c :: ds, rest)
      else ([], l)
  | [] => ([], [])
  end.

(** The number a text of digits denotes. *)
Definition digits_value (ds : jstring) : N :=
  fold_left (fun acc c => 10 * acc + (c - 48)) ds 0.

(** A number literal as sign, coefficient and decimal exponent: its value
    is the coefficient times ten to the exponent. *)
Definition literal_decimal (l : jstring) : bool * N * Z :=
  let '(neg, l1) := match l with
                    | 45 :: r => (true, r)
                    | _ => (false, l)
                    end in
  let '(int, l2) := span_digits l1 in
  let '(frac, l3) := match l2 with
                     | 46 :: r => span_digits r
                     | _ => ([], l2)
                     end in
  let exp := match l3 with
             | _ :: 45 :: r => (- Z.of_N (digits_value (span_digits r).1))%Z
             | _ :: 43 :: r => Z.of_N (digits_value (span_digits r).1)
             | _ :: r => Z.of_N (digits_value (span_digits r).1)
             | [] => 0%Z
             end in
  (neg, digits_value (int ++ frac), (exp - Z.of_nat (length frac))%Z).

(** The integer nearest to [num / den], the even one of two. *)
Definition div_nearest_even (num den : N) : N :=
  let q := num / den in
  match 2 * (num mod den) ?= den with
  | Lt => q
  | Gt => q + 1
  | Eq => if N.even q then q else q + 1
  end.

(** [a / (b * 2^e)] as a fraction of naturals. *)
Definition scaled2 (a b : N) (e : Z) : N * N :=
  if (0 <=? e)%Z then (a, b * 2 ^ Z.to_N e) else (a * 2 ^ Z.to_N (- e), b).

(** The double nearest to [a / b], the one with the even significand of
    two: a significand of 53 bits with an exponent from -1074 to 971,
    fewer bits at the exponent -1074, zero below, infinity above. *)
Definition round_double (neg : bool) (a b : N) : double :=
  if a =? 0 then DZero
  else
    let e1 := (Z.of_N (N.log2 a) - Z.of_N (N.log2 b) - 52)%Z in
    let '(n1, d1) := scaled2 a b e1 in
    let e2 := if n1 / d1 <? 2 ^ 52 then (e1 - 1)%Z else e1 in
    let e := Z.max e2 (-1074) in
    let '(n, d) := scaled2 a b e in
    let m := div_nearest_even n d in
    if m =? 0 then DZero
    else if m =? 2 ^ 53
         then if (971 <? e + 1)%Z then DInfinite neg else DFinite neg (2 ^ 52) (e + 1)
         else if (971 <? e)%Z then DInfinite neg else DFinite neg m e.

(** [coefficient * 10^exponent] as a fraction of naturals. *)
Definition scaled10 (c : N) (x : Z) : N * N :=
  if (0 <=? x)%Z then (c * 10 ^ Z.to_N x, 1) else (c, 10 ^ Z.to_N (- x)).

(** The Number value of a literal. *)
Definition to_double (l : jstring) : double :=
  let '(neg, c, x) := literal_decimal l in
  let '(a, b) := scaled10 c x in
  round_double neg a b.

(** A number is truthy unless it is zero. *)
Definition number_nonzero (l : jstring) : bool :=
  match to_double l with
  | DZero => false
  | _ => true
  end.

(** Decimal digits of a natural number. *)
Fixpoint uint_digits (u : Decimal.uint) : jstring :=
  match u with
  | Decimal.Nil => []
  | Decimal.D0 u' => 48 :: uint_digits u'
  | Decimal.D1 u' => 49 :: uint_digits u'
  | Decimal.D2 u' => 50 :: uint_digits u'
  | Decimal.D3 u' => 51 :: uint_digits u'
  | Decimal.D4 u' => 52 :: uint_digits u'
  | Decimal.D5 u' => 53 :: uint_digits u'
  | Decimal.D6 u' => 54 :: uint_digits u'
  | Decimal.D7 u' => 55 :: uint_digits u'
  | Decimal.D8 u' => 56 :: uint_digits u'
  | Decimal.D9 u' => 57 :: uint_digits u'
  end.
Definition decimal_digits (n : N) : jstring := uint_digits (N.to_uint n).

(** [n] with [10^(n-1) <= a / b < 10^n]. *)
Definition magnitude (a b : N) : Z :=
  let n0 := (Z.of_nat (length (decimal_digits a))
             - Z.of_nat (length (decimal_digits b)))%Z in
  let '(p, q) := scaled10 1 n0 in
  if b * p <=? a * q then (n0 + 1)%Z else n0.

(** The shortest decimal that reads back as the double [m * 2^e]: its
    digits [s] and the [n] with value [0.s * 10^n]; of two decimals of that
    length the nearer one, the even one when both are as near. *)
Fixpoint shortest (fuel : nat) (k : Z) (m : N) (e : Z) (a b : N) (n : Z)
  : jstring * Z :=
  let '(c, d) := scaled10 a (k - n) in
  let num := c in
  let den := b * d in
  let lo := num / den in
  let hi := lo + 1 in
  let reads s := match round_double false (scaled10 s (n - k)).1 (scaled10 s (n - k)).2 with
                 | DFinite _ m' e' => (m' =? m) && (e' =? e)%Z
                 | _ => false
                 end in
  let pick s := if s =? 10 ^ Z.to_N k then (decimal_digits (10 ^ Z.to_N (k - 1)), (n + 1)%Z)
                else (decimal_digits s, n) in
  let nearest := div_nearest_even num den in
  match fuel with
  | O => pick nearest
  | S fuel' =>
      if reads lo && reads hi then pick nearest
      else if reads lo then pick lo
      else if reads hi then pick hi
      else shortest fuel' (k + 1)%Z m e a b n
  end.

Definition exponent_text (x : Z) : jstring :=
  (if (x <? 0)%Z then [45] else [43]) ++ decimal_digits (Z.abs_N x).

(** [Number::toString] on the digits [ds] of a decimal [0.ds * 10^n]. *)
Definition format_number (ds : jstring) (n : Z) : jstring :=
  let k := Z.of_nat (length ds) in
  if ((k <=? n) && (n <=? 21))%Z then ds ++ repeat 48 (Z.to_nat (n - k))
  else if ((0 <? n) && (n <=? 21))%Z
       then take (Z.to_nat n) ds ++ [46] ++ drop (Z.to_nat n) ds
  else if ((-6 <? n) && (n <=? 0))%Z
       then [48; 46] ++ repeat 48 (Z.to_nat (- n)) ++ ds
  else match ds with
       | [] => []
       | [d] => [d; 101] ++ exponent_text (n - 1)
       | d :: rest => [d; 46] ++ rest ++ [101] ++ exponent_text (n - 1)
       end.

(** What [JSON.stringify] prints for the number of a literal. *)
Definition number_text (l : jstring) : jstring :=
  match to_double l with
  | DZero => [48]
  | DInfinite _ => [110; 117; 108; 108]
  | DFinite neg m e =>
      let '(a, b) := scaled2 m 1 (- e) in
      let '(ds, n) := shortest 16 1 m e a b (magnitude a b) in
      (if neg then [45] else []) ++ format_number ds n
  end.

(** *** [JSON.parse]: tokens

    The text is cut into tokens by a machine that reads one code unit at a
    time.  A number or a word is collected greedily and checked when it
    ends; in a valid JSON text a number or word is always followed by
    white space, a separator or the end, so nothing valid is lost. *)

Inductive token :=
| TLBrace | TRBrace | TLBracket | TRBracket | TColon | TComma
| TString (s : jstring)
| TNumber (literal : jstring)
| TTrue | TFalse | TNull.

Inductive lex_state :=
| LIdle
| LString (acc : jstring)                  (* inside a string; [acc] reversed *)
| LEscape (acc : jstring)                  (* just after a backslash *)
| LUnicode (acc : jstring) (hex : list N)  (* after \u, digits read so far *)
| LNumber (acc : jstring)                  (* [acc] reversed *)
| LWord (acc : jstring).                   (* [acc] reversed *)

Definition is_json_space (c : N) : bool :=
  (c =? 32) || (c =? 9) || (c =? 10) || (c =? 13).

Definition is_number_char (c : N) : bool :=
  is_digit c || (c =? 43) || (c =? 45) || (c =? 46) || (c =? 101) || (c =? 69).

Definition is_lower (c : N) : bool := (97 <=? c) && (c <=? 122).

Definition hex_value (c : N) : option N :=
  if is_digit c then Some (c - 48)
  else if (97 <=? c) && (c <=? 102) then Some (c - 87)
  else if (65 <=? c) && (c <=? 70) then Some (c - 55)
  else None.

Fixpoint skip_digits (s : jstring) : jstring :=
  match s with
  | c :: s' => if is_digit c then skip_digits s' else s
  | [] => []
  end.

Definition digits1 (s : jstring) : option jstring :=
  match s with
  | c :: s' => if is_digit c then Some (skip_digits s') else None
  | [] => None
  end.

Definition num_int (s : jstring) : option jstring :=
  match s with
  | c :: s' => if c =? 48 then Some s' else digits1 s
  | [] => None
  end.

Definition num_frac (s : jstring) : option jstring :=
  match s with
  | c :: s' => if c =? 46 then digits1 s' else Some s
  | [] => Some s
  end.

Definition num_exp (s : jstring) : option jstring :=
  match s with
  | c :: s' =>
      if (c =? 101) || (c =? 69) then
        match s' with
        | d :: s'' => if (d =? 43) || (d =? 45) then digits1 s'' else digits1 s'
        | [] => None
        end
      else Some s
  | [] => Some s
  end.

(** The JSON number grammar: an optional minus sign; then a single zero,
    or a non-zero digit and any digits; then optionally a dot and one or
    more digits; then optionally e or E, an optional sign and one or more
    digits. *)
Definition valid_number (s : jstring) : bool :=
  let unsigned := match s with
                  | c :: s' => if c =? 45 then s' else s
                  | [] => s
                  end in
  match s1 ← num_int unsigned; s2 ← num_frac s1; num_exp s2 with
  | Some [] => true
  | _ => false
  end.

Definition close_number (acc : jstring) : option token :=
  let s := rev acc in
  if valid_number s then Some (TNumber s) else None.

Definition close_word (acc : jstring) : option token :=
  let s := rev acc in
  if str_eqb s (js "true") then Some TTrue
  else if str_eqb s (js "false") then Some TFalse
  else if str_eqb s (js "null") then Some TNull
  else None.

Definition lex_idle (c : N) : option (lex_state * list token) :=
  if is_json_space c then Some (LIdle, [])
  else if c =? 123 then Some (LIdle, [TLBrace])
  else if c =? 125 then Some (LIdle, [TRBrace])
  else if c =? 91 then Some (LIdle, [TLBracket])
  else if c =? 93 then Some (LIdle, [TRBracket])
  else if c =? 58 then Some (LIdle, [TColon])
  else if c =? 44 then Some (LIdle, [TComma])
  else if c =? 34 then Some (LString [], [])
  else if (c =? 45) || is_digit c then Some (LNumber [c], [])
  else if is_lower c then Some (LWord [c], [])
  else None.

Definition lex_escape (acc : jstring) (c : N) : option lex_state :=
  if c =? 34 then Some (LString (34 :: acc))          (* quote *)
  else if c =? 92 then Some (LString (92 :: acc))     (* \ *)
  else if c =? 47 then Some (LString (47 :: acc))     (* slash *)
  else if c =? 98 then Some (LString (8 :: acc))      (* b *)
  else if c =? 102 then Some (LString (12 :: acc))    (* f *)
  else if c =? 110 then Some (LString (10 :: acc))    (* n *)
  else if c =? 114 then Some (LString (13 :: acc))    (* r *)
  else if c =? 116 then Some (LString (9 :: acc))     (* t *)
  else if c =? 117 then Some (LUnicode acc [])        (* u *)
  else None.

Definition lex_step (st : lex_state) (c : N) : option (lex_state * list token) :=
  match st with
  | LIdle => lex_idle c
  | LString acc =>
      if c =? 34 then Some (LIdle, [TString (rev acc)])
      else if c =? 92 then Some (LEscape acc, [])
      else if c <? 32 then None
      else Some (LString (c :: acc), [])
  | LEscape acc => st' ← lex_escape acc c; Some (st', [])
  | LUnicode acc hex =>
      d ← hex_value c;
      match hex with
      | [a; b; e] => Some (LString (((a * 16 + b) * 16 + e) * 16 + d :: acc), [])
      | _ => Some (LUnicode acc (hex ++ [d]), [])
      end
  | LNumber acc =>
      if is_number_char c then Some (LNumber (c :: acc), [])
      else t ← close_number acc;
           '(st', ts) ← lex_idle c;
           Some (st', t :: ts)
  | LWord acc =>
      if is_lower c then Some (LWord (c :: acc), [])
      else t ← close_word acc;
           '(st', ts) ← lex_idle c;
           Some (st', t :: ts)
  end.

Definition lex_finish (st : lex_state) : option (list token) :=
  match st with
  | LIdle => Some []
  | LNumber acc => t ← close_number acc; Some [t]
  | LWord acc => t ← close_word acc; Some [t]
  | LString _ | LEscape _ | LUnicode _ _ => None
  end.

Fixpoint lex_from (st : lex_state) (s : jstring) : option (list token) :=
  match s with
  | [] => lex_finish st
  | c :: s' =>
      '(st', ts) ← lex_step st c;
      ts' ← lex_from st' s';
      Some (ts ++ ts')
  end.

Definition lex (s : jstring) : option (list token) := lex_from LIdle s.

(** *** [JSON.parse]: grammar

    A pushdown machine over the tokens.  The stack holds the containers
    that are still open; [expect] says what may come next. *)

Inductive frame :=
| FArr (acc : list value)                            (* elements, reversed *)
| FObj (acc : list (jstring * value))                (* members so far *)
| FMember (acc : list (jstring * value)) (key : jstring).  (* key read, value due *)

Inductive expect :=
| EValue          (* a value *)
| EValueOrClose   (* a value or the closing bracket: just after the opening one *)
| EKeyOrClose     (* a key or the closing brace: just after the opening one *)
| EKey            (* a key: after a comma in an object *)
| EColon          (* the colon after a key *)
| EAfter          (* a comma or the closing bracket or brace *)
| EDone (v : value).  (* the whole text has been read *)

Definition scalar (t : token) : option value :=
  match t with
  | TString s => Some (VStr s)
  | TNumber l => Some (VNum l)
  | TTrue => Some (VBool true)
  | TFalse => Some (VBool false)
  | TNull => Some VNull
  | _ => None
  end.

(** A value has been completed below the open containers [stk]. *)
Definition complete (v : value) (stk : list frame) : option (list frame * expect) :=
  match stk with
  | [] => Some ([], EDone v)
  | FArr acc :: stk' => Some (FArr (v :: acc) :: stk', EAfter)
  | FMember acc k :: stk' => Some (FObj (obj_define acc k v) :: stk', EAfter)
  | FObj _ :: _ => None
  end.

Definition parse_value (t : token) (stk : list frame) : option (list frame * expect) :=
  match t with
  | TLBracket => Some (FArr [] :: stk, EValueOrClose)
  | TLBrace => Some (FObj [] :: stk, EKeyOrClose)
  | _ => v ← scalar t; complete v stk
  end.

Definition parse_key (t : token) (stk : list frame) : option (list frame * expect) :=
  match t, stk with
  | TString k, FObj acc :: stk' => Some (FMember acc k :: stk', EColon)
  | _, _ => None
  end.

Definition parse_close (t : token) (stk : list frame) : option (list frame * expect) :=
  match t, stk with
  | TRBracket, FArr acc :: stk' => complete (VArr (rev acc) []) stk'
  | TRBrace, FObj acc :: stk' => complete (VObj acc) stk'
  | _, _ => None
  end.

Definition parse_step (st : list frame * expect) (t : token)
  : option (list frame * expect) :=
  let '(stk, e) := st in
  match e with
  | EValue => parse_value t stk
  | EValueOrClose =>
      match t with
      | TRBracket => parse_close t stk
      | _ => parse_value t stk
      end
  | EKeyOrClose =>
      match t with
      | TRBrace => parse_close t stk
      | _ => parse_key t stk
      end
  | EKey => parse_key t stk
  | EColon =>
      match t with
      | TColon => Some (stk, EValue)
      | _ => None
      end
  | EAfter =>
      match t, stk with
      | TComma, FArr _ :: _ => Some (stk, EValue)
      | TComma, FObj _ :: _ => Some (stk, EKey)
      | _, _ => parse_close t stk
      end
  | EDone _ => None
  end.

Fixpoint parse_tokens (st : list frame * expect) (ts : list token) : option value :=
  match ts with
  | [] => match st with
          | ([], EDone v) => Some v
          | _ => None
          end
  | t :: ts' => st' ← parse_step st t; parse_tokens st' ts'
  end.

(** [JSON.parse(text)]; [None] stands for the [SyntaxError] it throws. *)
Definition JSON_parse (text : jstring) : option value :=
  ts ← lex text; parse_tokens ([], EValue) ts.

(** *** [JSON.stringify] *)

Definition hex_digit (d : N) : N := if d <? 10 then 48 + d else 87 + d.

(** [\uXXXX], four lower-case hexadecimal digits. *)
Definition unicode_escape (c : N) : jstring :=
  [92; 117; hex_digit (c / 4096 mod 16); hex_digit (c / 256 mod 16);
   hex_digit (c / 16 mod 16); hex_digit (c mod 16)].

Definition is_high_surrogate (c : N) : bool := (55296 <=? c) && (c <=? 56319).
Definition is_low_surrogate (c : N) : bool := (56320 <=? c) && (c <=? 57343).

(** A code unit inside a quoted string; surrogates are handled by the caller. *)
Definition quote_unit (c : N) : jstring :=
  if c =? 8 then [92; 98]
  else if c =? 9 then [92; 116]
  else if c =? 10 then [92; 110]
  else if c =? 12 then [92; 102]
  else if c =? 13 then [92; 114]
  else if c =? 34 then [92; 34]
  else if c =? 92 then [92; 92]
  else if c <? 32 then unicode_escape c
  else [c].

(** The body of a quoted string: a surrogate pair is kept as it is, a
    surrogate on its own is escaped.  [after_high] holds while the second
    half of a pair is due. *)
Fixpoint quote_body (after_high : bool) (s : jstring) : jstring :=
  match s with
  | [] => []
  | c :: s' =>
      if after_high && is_low_surrogate c then c :: quote_body false s'
      else if is_high_surrogate c
              && match s' with
                 | d :: _ => is_low_surrogate d
                 | [] => false
                 end
      then c :: quote_body true s'
      else if is_high_surrogate c || is_low_surrogate c
      then unicode_escape c ++ quote_body false s'
      else quote_unit c ++ quote_body false s'
  end.

Definition quote (s : jstring) : jstring := [34] ++ quote_body false s ++ [34].

Definition join_comma (parts : list jstring) : jstring :=
  match parts with
  | [] => []
  | p :: ps => p ++ flat_map (fun q => 44 :: q) ps
  end.

(** [JSON.stringify(v)]: no white space, members in key order, named
    properties of arrays left out, a number as [Number::toString] prints
    the double it denotes ([null] for an infinity). *)
Fixpoint JSON_stringify (v : value) : jstring :=
  match v with
  | VNull => js "null"
  | VBool b => if b then js "true" else js "false"
  | VNum l => number_text l
  | VStr s => quote s
  | VArr es _ => [91] ++ join_comma (map JSON_stringify es) ++ [93]
  | VObj ps =>
      [123]
      ++ join_comma (map (fun p => let '(k, x) := p in
                                   quote k ++ [58] ++ JSON_stringify x) ps)
      ++ [125]
  end.

(** *** Reading and writing properties

    Only the members the transcoder names are ever read or written
    ([choices], [0], [delta], [content], [text], [finish_reason]); none of
    them is a built-in member of a string, an array or an object, so
    built-in members ([length], methods) are left out. *)

Definition k_choices : jstring := js "choices".
Definition k_0 : jstring := js "0".
Definition k_delta : jstring := js "delta".
Definition k_content : jstring := js "content".
Definition k_text : jstring := js "text".
Definition k_finish_reason : jstring := js "finish_reason".

(** The own property [k] of a value that is neither [null] nor
    [undefined]; [None] is [undefined]. *)
Definition prop (v : value) (k : jstring) : option value :=
  match v with
  | VObj ps => lookup_key k ps
  | VArr es named =>
      match array_index k with
      | Some i => es !! N.to_nat i
      | None => lookup_key k named
      end
  | VStr s =>
      match array_index k with
      | Some i => (fun c => VStr [c]) <$> s !! N.to_nat i
      | None => None
      end
  | VNull | VBool _ | VNum _ => None
  end.

(** [o?.k] and [o?.[k]]: [undefined] when [o] is [null] or [undefined]. *)
Definition opt (o : option value) (k : jstring) : option value :=
  match o with
  | None | Some VNull => None
  | Some v => prop v k
  end.

(** [o.k] and [o[k]]: a [TypeError] when [o] is [null] or [undefined]. *)
Definition member (o : option value) (k : jstring) : result (option value) :=
  match o with
  | None | Some VNull => Throw TypeError
  | Some v => Ok (prop v k)
  end.

(** [o.k = x] for a name [k] that is not an array index, in strict mode
    (both files are ES modules): a [TypeError] unless [o] is an object or
    an array. *)
Definition assign (o : option value) (k : jstring) (x : value) : result value :=
  match o with
  | Some (VObj ps) => Ok (VObj (obj_define ps k x))
  | Some (VArr es named) => Ok (VArr es (obj_define named k x))
  | _ => Throw TypeError
  end.

(** [delete v.k] for a name [k] that is not an array index. *)
Definition delete_prop (v : value) (k : jstring) : value :=
  match v with
  | VObj ps => VObj (remove_key k ps)
  | VArr es named => VArr es (remove_key k named)
  | _ => v
  end.

(** Values are trees here, while the code mutates objects in place: after
    a member [k] of [v] has been changed into [x], [put_back] gives [v]
    as the code then sees it. *)
Definition put_back (v : value) (k : jstring) (x : value) : value :=
  match v with
  | VObj ps => VObj (replace_key k x ps)
  | VArr es named =>
      match array_index k with
      | Some i => VArr (<[N.to_nat i := x]> es) named
      | None => VArr es (replace_key k x named)
      end
  | _ => v
  end.

(** Truthiness, as [if] and [&&] test it. *)
Definition truthy (o : option value) : bool :=
  match o with
  | None => false
  | Some VNull => false
  | Some (VBool b) => b
  | Some (VNum l) => number_nonzero l
  | Some (VStr s) => negb (str_eqb s [])
  | Some (VArr _ _) | Some (VObj _) => true
  end.

(** [o === undefined] *)
Definition is_undefined (o : option value) : bool :=
  match o with
  | None => true
  | Some _ => false
  end.

End JS.

(* ===================================================================== *)
(** ** Handling one [data: ] payload (the same statements in both files) *)
(* ===================================================================== *)

Module Payload.
Import JS.

Definition data_prefix : jstring := js "data: ".

(** The chunk [data: [DONE]] followed by two line feeds. *)
Definition DONE_EVENT : jstring := js "data: [DONE]" ++ LF ++ LF.

(** The template string that wraps [JSON.stringify(data)] between
    [data: ] and two line feeds. *)
Definition event (data : value) : jstring :=
  js "data: " ++ JSON_stringify data ++ LF ++ LF.

(** [data === "[DONE]"] *)
Definition is_sentinel (data : value) : bool :=
  match data with
  | VStr s => str_eqb s (js "[DONE]")
  | _ => false
  end.

(** A statement that changes [data.choices[0]] in place: [f] works on the
    value of [data.choices[0]]; reaching it throws a [TypeError] when
    [data] or [data.choices] is [null] or [undefined], and so does using
    it when it is [undefined]. *)
Definition on_choice0 (data : value) (f : value -> result value) : result value :=
  c ← member (Some data) k_choices;
  c0 ← member c k_0;
  match c, c0 with
  | Some cv, Some c0v =>
      c0' ← f c0v;
      Ok (put_back data k_choices (put_back cv k_0 c0'))
  | _, _ => Throw TypeError
  end.

(** [if (data.choices?.[0]?.delta === undefined) {
       data.choices[0].delta = {};
     }] *)
Definition ensure_delta (data : value) : result value :=
  c ← member (Some data) k_choices;
  if is_undefined (opt (opt c k_0) k_delta)
  then on_choice0 data (fun c0 => assign (Some c0) k_delta (VObj []))
  else Ok data.

(** [if (data.choices?.[0]?.delta?.content === undefined
         && data.choices?.[0]?.text) {
       data.choices[0].delta.content = data.choices[0].text;
       delete data.choices[0].text;
     }] *)
Definition text_to_content (data : value) : result value :=
  c ← member (Some data) k_choices;
  let c0 := opt c k_0 in
  match opt c0 k_text with
  | Some text =>
      if is_undefined (opt (opt c0 k_delta) k_content) && truthy (Some text)
      then
        data1 ← on_choice0 data (fun c0 =>
                  d ← member (Some c0) k_delta;
                  d' ← assign d k_content text;
                  Ok (put_back c0 k_delta d'));
        on_choice0 data1 (fun c0 => Ok (delete_prop c0 k_text))
      else Ok data
  | None => Ok data
  end.

(** The two normalisation statements, in order. *)
Definition normalize (data : value) : result value :=
  data1 ← ensure_delta data;
  text_to_content data1.

(** [data.choices?.[0]] and the members read off it, for a [data] that
    is not [null]. *)
Definition choice0 (data : value) : option value :=
  opt (opt (Some data) k_choices) k_0.
Definition delta_of (data : value) : option value := opt (choice0 data) k_delta.
Definition content_of (data : value) : option value := opt (delta_of data) k_content.
Definition text_of (data : value) : option value := opt (choice0 data) k_text.

(** [data.choices?.[0]?.finish_reason] *)
Definition finish_reason (data : value) : option value :=
  opt (choice0 data) k_finish_reason.

(** An object or an array: what a property can be set on. *)
Definition is_object (o : option value) : bool :=
  match o with
  | Some (VObj _) | Some (VArr _ _) => true
  | _ => false
  end.

(** [data.choices] is an array with at least one element. *)
Definition has_choices_array (data : value) : bool :=
  match opt (Some data) k_choices with
  | Some (VArr (_ :: _) _) => true
  | _ => false
  end.

(** The statements both files run on [line.slice(6)], from [JSON.parse] to
    the last [enqueue]: the chunks enqueued, and whether the handler then
    returns ([true]) or goes on to the next line ([false]); or the
    exception thrown before anything was enqueued. *)
Definition handle_payload (payload : jstring) : result (list jstring * bool) :=
  match JSON_parse payload with
  | None => Throw SyntaxError
  | Some data =>
      if is_sentinel data then Ok ([DONE_EVENT], true)
      else
        data' ← normalize data;
        if truthy (finish_reason data')
        then Ok ([event data'; DONE_EVENT], true)
        else Ok ([event data'], false)
  end.

End Payload.

(* ===================================================================== *)
(** ** [worker.js]: [transformStream] *)
(* ===================================================================== *)

Module Worker.
Import JS Payload.

(** The loop [for (const line of lines)] of [transform]: what it enqueues.
    An exception is caught per line and the loop continues; [return]
    leaves the loop and the callback. *)
Fixpoint process_lines (lines : list jstring) : list jstring :=
  match lines with
  | [] => []
  | line :: rest =>
      if str_eqb (trim line) [] then process_lines rest
      else if negb (startsWith data_prefix line) then process_lines rest
      else match handle_payload (slice 6 line) with
           | Throw _ => process_lines rest
           | Ok (out, true) => out
           | Ok (out, false) => out ++ process_lines rest
           end
  end.

(** [transform(chunk, controller)] on the shared [buffer]: the new buffer
    and the chunks enqueued.
    [buffer += chunk; lines = buffer.split(LF); buffer = lines.pop() || ""]. *)
Definition transform (buffer chunk : jstring) : jstring * list jstring :=
  let lines := split_lf (buffer ++ chunk) in
  (default [] (last lines), process_lines (removelast lines)).

(** [flush(controller)]: what it enqueues. *)
Definition flush (buffer : jstring) : list jstring :=
  (if negb (str_eqb (trim buffer) []) then
     let line := trim buffer in
     if startsWith data_prefix line then
       match JSON_parse (slice 6 line) with
       | Some data => if negb (is_sentinel data) then [line ++ LF ++ LF] else []
       | None => []
       end
     else []
   else [])
  ++ [DONE_EVENT].

(** The stream: [transform] on every chunk the decoder hands over, then
    [flush] when the upstream closes. *)
Fixpoint run (buffer : jstring) (chunks : list jstring) : list jstring :=
  match chunks with
  | [] => flush buffer
  | chunk :: rest =>
      let '(buffer', out) := transform buffer chunk in
      out ++ run buffer' rest
  end.

(** [let buffer = ""; const transformStream = new TransformStream(...)]:
    everything the stream enqueues for the decoded chunks of one response. *)
Definition transformStream (chunks : list jstring) : list jstring :=
  run [] chunks.

End Worker.

(* ===================================================================== *)
(** ** [main.ts]: the reader loop of the [ReadableStream] *)
(* ===================================================================== *)

Module Deno.
Import JS Payload.

(** How [start] leaves the stream: [controller.close()] or
    [controller.error(error)]. *)
Inductive ending :=
| Closed
| Errored (e : error).

(** The loop [for (const line of lines)]: the chunks enqueued and, when
    the loop does not run to its end, how the stream was left.  Nothing
    catches an exception here but the handler around the whole loop. *)
Fixpoint for_lines (lines : list jstring) : list jstring * option ending :=
  match lines with
  | [] => ([], None)
  | line :: rest =>
      if str_eqb (trim line) [] then for_lines rest
      else if negb (startsWith data_prefix line) then for_lines rest
      else match handle_payload (slice 6 line) with
           | Throw e => ([], Some (Errored e))
           | Ok (out, true) => (out, Some Closed)
           | Ok (out, false) =>
               let '(out', e) := for_lines rest in (out ++ out', e)
           end
  end.

(** The loop [while (true)] over [reader.read()]: the chunks enqueued
    and how the stream was left. *)
Fixpoint read_loop (chunks : list jstring) : list jstring * ending :=
  match chunks with
  | [] => ([DONE_EVENT], Closed)
  | chunk :: rest =>
      match for_lines (split_lf chunk) with
      | (out, Some e) => (out, e)
      | (out, None) => let '(out', e) := read_loop rest in (out ++ out', e)
      end
  end.

(** [start(controller)]; [None] is a response without a body. *)
Definition start (body : option (list jstring)) : list jstring * ending :=
  match body with
  | None => ([], Closed)
  | Some chunks => read_loop chunks
  end.

End Deno.

(* ===================================================================== *)
(** ** Token management ([registerUser], [refreshToken], [getValidToken]) *)
(* ===================================================================== *)

Module TokenInfo.
(** The record kept in the key-value store under the client's API key. *)
Record t := mk {
  token : JS.jstring;         (* the access token *)
  refreshToken : JS.jstring;  (* the token to renew it with *)
  expiresAt : Z               (* expiry, in milliseconds since the epoch *)
}.
End TokenInfo.

Module Token.
Import JS.

(** The two calls made to the identity provider. *)
Inductive request :=
| SignUp (apiKey : jstring)                   (* accounts:signUp?key=apiKey *)
| Refresh (apiKey refreshToken : jstring).    (* token?key=apiKey, grant_type=refresh_token *)

(** The provider's answer: [response.ok], [response.statusText], and the
    three fields read off [response.json()] ([idToken], [refreshToken],
    [expiresIn] for a sign-up; [id_token], [refresh_token], [expires_in]
    for a refresh; the lifetime in seconds, as an integer).  [elapsed] is
    the time the call took, in milliseconds. *)
Record response := {
  ok : bool;
  statusText : jstring;
  id_token : jstring;
  refresh_token : jstring;
  expires_in : Z;
  elapsed : Z
}.

(** What an invocation does to the outside, in order. *)
Inductive effect :=
| KVGet (key : jstring)
| KVPut (key : jstring) (value : TokenInfo.t)
| Fetch (req : request).

(** The outside world: the key-value store (one record per key; the JSON
    text stored under a key is taken as the record it encodes), the clock
    read by [Date.now()], the identity provider, which may answer
    according to everything that happened before, and the effects so far.
    The store and the network always answer: the only exceptions are the
    ones the code throws itself (module [Faulty] below is the same code
    with awaits that can reject). *)
Record world := {
  KV : gmap jstring TokenInfo.t;
  now : Z;
  provider : list effect -> request -> response;
  log : list effect
}.

(** An [async] function either returns or throws an [Error], of which
    only the [message] is ever looked at. *)
Inductive outcome (A : Type) :=
| Returns (a : A)
| Throws (message : jstring).
Arguments Returns {A} a.
Arguments Throws {A} message.

Definition M (A : Type) : Type := world -> outcome A * world.

#[global] Instance M_ret : MRet M := fun A a w => (Returns a, w).

#[global] Instance M_bind : MBind M := fun A B k m w =>
  match m w with
  | (Returns a, w') => k a w'
  | (Throws e, w') => (Throws e, w')
  end.

(** [throw new Error(message)] *)
Definition throw {A} (message : jstring) : M A := fun w => (Throws message, w).

(** [try { body } catch (error) { handler }] *)
Definition try_catch {A} (body : M A) (handler : jstring -> M A) : M A := fun w =>
  match body w with
  | (Returns a, w') => (Returns a, w')
  | (Throws e, w') => handler e w'
  end.

(** Changes of the world: an effect is recorded, time passes, a record
    is stored. *)
Definition record (e : effect) (w : world) : world :=
  {| KV := KV w; now := now w; provider := provider w; log := log w ++ [e] |}.
Definition tick (d : Z) (w : world) : world :=
  {| KV := KV w; now := (now w + d)%Z; provider := provider w; log := log w |}.
Definition store (key : jstring) (value : TokenInfo.t) (w : world) : world :=
  {| KV := <[key := value]> (KV w); now := now w; provider := provider w;
     log := log w |}.

(** The world once [value] has been put under [key]. *)
Definition put (key : jstring) (value : TokenInfo.t) (w : world) : world :=
  record (KVPut key value) (store key value w).

(** [Date.now()] *)
Definition Date_now : M Z := fun w => (Returns (now w), w).

(** [await KV.get(key, "json")]; [None] is [null]. *)
Definition KV_get (key : jstring) : M (option TokenInfo.t) := fun w =>
  (Returns (KV w !! key), record (KVGet key) w).

(** [await KV.put(key, JSON.stringify(value))] *)
Definition KV_put (key : jstring) (value : TokenInfo.t) : M unit := fun w =>
  (Returns (), put key value w).

(** The provider's answer to [req] in the world [w], and the world once
    it has arrived. *)
Definition answer (req : request) (w : world) : response :=
  provider w (log w) req.
Definition fetched (req : request) (w : world) : world :=
  record (Fetch req) (tick (elapsed (answer req w)) w).

(** [await fetch(...)] to the identity provider. *)
Definition fetch (req : request) : M response := fun w =>
  (Returns (answer req w), fetched req w).

(** The texts of the two errors, before the status text of the answer. *)
Definition register_failed : jstring := js "Failed to register user: ".
Definition refresh_failed : jstring := js "Failed to refresh token: ".

(** The text the handler of [getValidToken] looks for. *)
Definition refresh_marker : jstring := js "Failed to refresh token".

(** The record built from a successful answer at time [t]. *)
Definition token_info (r : response) (t : Z) : TokenInfo.t :=
  TokenInfo.mk (id_token r) (refresh_token r) (t + expires_in r * 1000).

Definition registerUser (apiKey : jstring) : M TokenInfo.t :=
  response ← fetch (SignUp apiKey);
  if negb (ok response)
  then throw (register_failed ++ statusText response)
  else t ← Date_now; mret (token_info response t).

Definition refreshToken (apiKey refreshToken : jstring) : M TokenInfo.t :=
  response ← fetch (Refresh apiKey refreshToken);
  if negb (ok response)
  then throw (refresh_failed ++ statusText response)
  else t ← Date_now; mret (token_info response t).

(** The block under [try]. *)
Definition renew_or_reuse (apiKey : jstring) (tokenInfo : option TokenInfo.t)
  : M jstring :=
  match tokenInfo with
  | None =>
      newTokenInfo ← registerUser apiKey;
      _ ← KV_put apiKey newTokenInfo;
      mret (TokenInfo.token newTokenInfo)
  | Some info =>
      t ← Date_now;
      if (TokenInfo.expiresAt info - 300000 <=? t)%Z then
        newTokenInfo ← refreshToken apiKey (TokenInfo.refreshToken info);
        _ ← KV_put apiKey newTokenInfo;
        mret (TokenInfo.token newTokenInfo)
      else mret (TokenInfo.token info)
  end.

(** The block under [catch (error)]. *)
Definition on_error (apiKey : jstring) (message : jstring) : M jstring :=
  if includes refresh_marker message then
    newTokenInfo ← registerUser apiKey;
    _ ← KV_put apiKey newTokenInfo;
    mret (TokenInfo.token newTokenInfo)
  else throw message.

Definition getValidToken (apiKey : jstring) : M jstring :=
  tokenInfo ← KV_get apiKey;
  try_catch (renew_or_reuse apiKey tokenInfo) (on_error apiKey).

(** What registering, storing the record and returning its token comes
    to in the world [w]: the three statements the [catch] block shares with
    a first use. *)
Definition register_and_store (apiKey : jstring) (w : world) : outcome jstring * world :=
  let w' := fetched (SignUp apiKey) w in
  let r := answer (SignUp apiKey) w in
  if ok r then (Returns (id_token r), put apiKey (token_info r (now w')) w')
  else (Throws (register_failed ++ statusText r), w').

(** Counting the effects of one kind. *)
Definition is_read (e : effect) : bool :=
  match e with KVGet _ => true | _ => false end.
Definition is_write (e : effect) : bool :=
  match e with KVPut _ _ => true | _ => false end.
Definition is_refresh (e : effect) : bool :=
  match e with Fetch (Refresh _ _) => true | _ => false end.
Definition is_signup (e : effect) : bool :=
  match e with Fetch (SignUp _) => true | _ => false end.

Definition count (p : effect -> bool) (es : list effect) : nat :=
  length (filter (fun e => p e = true) es).

End Token.

(* ===================================================================== *)
(** ** Sample upstream lines *)
(* ===================================================================== *)

Module Samples.
Import JS Token.

(** A line that carries a [finish_reason]. *)
Definition finish_line : jstring :=
  jsq "data: {'choices':[{'finish_reason':'stop'}]}".

(** The event made from [finish_line]. *)
Definition finish_event : jstring :=
  jsq "data: {'choices':[{'finish_reason':'stop','delta':{}}]}" ++ LF ++ LF.

(** The line that ends an upstream stream. *)
Definition sentinel_line : jstring := js "data: [DONE]".

(** Ordinary content lines, which pass unchanged. *)
Definition content_line (s : string) : jstring :=
  jsq "data: {'choices':[{'delta':{'content':'" ++ js s ++ jsq "'}}]}".

Definition content_event (s : string) : jstring :=
  content_line s ++ LF ++ LF.

(** A [data: ] line whose payload is not JSON. *)
Definition corrupt_line : jstring := jsq "data: {'choices':[{'delta'".

(** A legacy line and its two halves when a chunk boundary falls inside it. *)
Definition legacy_line : jstring := jsq "data: {'choices':[{'text':'hi'}]}".
Definition legacy_head : jstring := jsq "data: {'cho".
Definition legacy_tail : jstring := jsq "ices':[{'text':'hi'}]}".
Definition legacy_event : jstring :=
  jsq "data: {'choices':[{'delta':{'content':'hi'}}]}" ++ LF ++ LF.

(** A legacy payload, as text and as the value [JSON.parse] makes of it. *)
Definition legacy_payload : jstring := jsq "{'choices':[{'text':'hi'}]}".
Definition legacy_data : value :=
  VObj [(k_choices, VArr [VObj [(k_text, VStr (js "hi"))]] [])].

(** A legacy payload whose text is the empty string. *)
Definition empty_text_payload : jstring := jsq "{'choices':[{'text':''}]}".
Definition empty_text_data : value :=
  VObj [(k_choices, VArr [VObj [(k_text, VStr [])]] [])].

(** A legacy payload whose [delta] is [null]. *)
Definition null_delta_payload : jstring :=
  jsq "{'choices':[{'delta':null,'text':'hi'}]}".
Definition null_delta_data : value :=
  VObj [(k_choices, VArr [VObj [(k_delta, VNull); (k_text, VStr (js "hi"))]] [])].

(** A payload whose [choices] is an object with a member [0]. *)
Definition keyed_line : jstring := jsq "data: {'choices':{'0':{}}}".
Definition keyed_data : value := VObj [(k_choices, VObj [(k_0, VObj [])])].
Definition keyed_event : jstring :=
  jsq "data: {'choices':{'0':{'delta':{}}}}" ++ LF ++ LF.

(** A payload without [choices]. *)
Definition plain_line : jstring := jsq "data: {'id':1}".
Definition plain_data : value := VObj [(js "id", VNum (js "1"))].

(** *** Worlds for [getValidToken] *)

Definition sample_key : jstring := js "client-key".
Definition sample_info (exp : Z) : TokenInfo.t :=
  TokenInfo.mk (js "access-0") (js "refresh-0") exp.
Definition sample_answer (good : bool) (st : jstring) (tok : jstring) : response :=
  {| ok := good; statusText := st; id_token := tok;
     refresh_token := js "refresh-1"; expires_in := 3600; elapsed := 20 |}.

(** A cached record that is good for another ten minutes. *)
Definition fresh_world : world :=
  {| KV := {[ sample_key := sample_info 1600000 ]}; now := 1000000;
     provider := fun _ _ => sample_answer true [] (js "access-1"); log := [] |}.

(** A cached record within five minutes of its expiry; the provider
    refuses to refresh it and accepts a registration. *)
Definition stale_world : world :=
  {| KV := {[ sample_key := sample_info 1200000 ]}; now := 1000000;
     provider := fun _ req =>
       match req with
       | Refresh _ _ => sample_answer false (js "Bad Request") []
       | SignUp _ => sample_answer true (js "OK") (js "access-2")
       end;
     log := [] |}.

(** A first use, with a provider that refuses registrations with reason [st]. *)
Definition first_use_world (st : jstring) : world :=
  {| KV := ∅; now := 1000000;
     provider := fun _ _ => sample_answer false st [];
     log := [] |}.

End Samples.

(* ===================================================================== *)
(** ** The effects of one invocation of [getValidToken] *)
(* ===================================================================== *)

Module Trace.
Import JS Token.
(** The effects of one invocation after its store read: nothing, one call
    to the provider, or a refused call and the registration that follows
    it; a store write only as the last effect, after an accepted call. *)
Definition well_shaped (apiKey : jstring) (es : list effect) : Prop :=
  es = []
  \/ (exists req, es = [Fetch req])
  \/ (exists req info, es = [Fetch req; KVPut apiKey info])
  \/ (exists req, es = [Fetch req; Fetch (SignUp apiKey)])
  \/ (exists req info, es = [Fetch req; Fetch (SignUp apiKey); KVPut apiKey info]).
End Trace.

(* ===================================================================== *)
(** ** Lines of an upstream text *)
(* ===================================================================== *)

Module Lines.
Import JS Payload.
(** The complete lines of a text, and the piece after its last line feed. *)
Definition complete_lines (text : jstring) : list jstring :=
  removelast (split_lf text).
Definition partial_line (text : jstring) : jstring :=
  default [] (last (split_lf text)).

(** Lines, each followed by a line feed. *)
Definition join_lines (lines : list jstring) : jstring :=
  concat (map (fun l => l ++ LF) lines).

(** The line makes the handler return: it carries the quoted sentinel or a
    [finish_reason]. *)
Definition stops (line : jstring) : bool :=
  negb (str_eqb (trim line) [])
  && startsWith data_prefix line
  && match handle_payload (slice 6 line) with
     | Ok (_, true) => true
     | _ => false
     end.

(** The line is transcoded into the one event [e], and the handler goes
    on. *)
Definition plain (line e : jstring) : Prop :=
  startsWith data_prefix line = true
  /\ handle_payload (slice 6 line) = Ok ([e], false).

(** How often [data: [DONE]] was enqueued. *)
Definition DONE_count (out : list jstring) : nat :=
  length (filter (fun e => e = DONE_EVENT) out).
(** The line makes the payload handling throw. *)
Definition throws (line : jstring) : bool :=
  negb (str_eqb (trim line) [])
  && startsWith data_prefix line
  && match handle_payload (slice 6 line) with
     | Throw _ => true
     | Ok _ => false
     end.

(** The value [JSON.parse] gives for a whole text is no array with named
    properties. *)
Definition plain_top (v : value) : Prop :=
  match v with
  | VArr _ named => named = []
  | _ => True
  end.
End Lines.

(* ===================================================================== *)
(** ** Normalisation, seen from [data.choices[0]] *)
(* ===================================================================== *)

Module Choice.
Import JS Payload.

(** The two normalisation statements as they act on the value of
    [data.choices[0]]. *)
Definition ensure_delta (c0 : value) : result value :=
  if is_undefined (prop c0 k_delta) then assign (Some c0) k_delta (VObj [])
  else Ok c0.

Definition text_to_content (c0 : value) : result value :=
  match prop c0 k_text with
  | Some text =>
      if is_undefined (opt (prop c0 k_delta) k_content) && truthy (Some text)
      then
        c1 ← (d ← member (Some c0) k_delta;
              d' ← assign d k_content text;
              Ok (put_back c0 k_delta d'));
        Ok (delete_prop c1 k_text)
      else Ok c0
  | None => Ok c0
  end.

Definition normalize (c0 : value) : result value :=
  c1 ← ensure_delta c0;
  text_to_content c1.

(** A text has to be moved: [data.choices[0].text] is truthy and
    [data.choices[0].delta.content] is [undefined]. *)
Definition needs_move (data : value) : bool :=
  truthy (text_of data) && is_undefined (content_of data).

(** What normalisation needs in order not to throw: an object or an array
    at [data.choices[0]] and, when a text has to be moved, a [delta] that
    is absent, an object or an array. *)
Definition normalizable (data : value) : bool :=
  is_object (choice0 data)
  && (negb (needs_move data)
      || is_undefined (delta_of data)
      || is_object (delta_of data)).

End Choice.

(* ===================================================================== *)
(** ** Events without line feed *)
(* ===================================================================== *)

Module Framing.
Import JS Payload.
(** No line feed in a text. *)
Definition no_lf (s : jstring) : bool := forallb (fun c => negb (c =? 10)) s.

(** One server-sent event: [data: ], a text without line feed, two line
    feeds. *)
Definition framed (chunk : jstring) : Prop :=
  exists body, chunk = data_prefix ++ body ++ LF ++ LF /\ no_lf body = true.

End Framing.

(* ===================================================================== *)
(** ** The request handlers of both files *)
(* ===================================================================== *)

Module Proxy.
Import JS Payload Token.

(** The handlers are modelled from the request as they read it to the
    response they return.  As for the identity provider, the backend
    always answers: the only exceptions are the ones the code or the
    engine throws on what it was given.  The texts of the engine's own
    error messages and the number [Date.parse] gives for a date are left
    open (the variables of section [Backend]); nothing proved depends on
    them. *)

(** What the handlers read of a request: the [authorization] header
    ([None] when there is none), the path of the URL and the text of the
    body. *)
Record Request := {
  authorization : option jstring;
  pathname : jstring;
  request_body : jstring
}.

(** A response: status, headers (names in lower case, as [Headers] keeps
    them), the chunks of the body and how the body ends. *)
Record Response := {
  status : Z;
  headers : gmap jstring jstring;
  body_chunks : list jstring;
  body_end : Deno.ending
}.

(** What the chat backend answers; [None] is a response without body. *)
Record Reply := {
  reply_status : Z;
  reply_statusText : jstring;
  reply_headers : gmap jstring jstring;
  reply_body : option (list jstring)
}.

(** [response.ok]: a status from 200 to 299. *)
Definition reply_ok (r : Reply) : bool :=
  ((200 <=? reply_status r) && (reply_status r <=? 299))%Z.

(** The text [response.json()] parses. *)
Definition reply_text (r : Reply) : jstring := concat (default [] (reply_body r)).

Definition content_type : jstring := js "content-type".
Definition application_json : jstring := js "application/json".

(** [new Response(text, { status, headers: { "content-type":
    "application/json" } })] *)
Definition json_response (st : Z) (text : jstring) : Response :=
  {| status := st; headers := {[ content_type := application_json ]};
     body_chunks := [text]; body_end := Deno.Closed |}.

(** [JSON.stringify({ error: { message, type, code } })] *)
Definition error_body (message type code : jstring) : jstring :=
  JSON_stringify
    (VObj [(js "error", VObj [(js "message", VStr message);
                              (js "type", VStr type);
                              (js "code", VStr code)])]).

Definition unauthorized : Response :=
  json_response 401 (error_body (js "Missing or invalid authorization header")
                                (js "invalid_request_error") (js "invalid_api_key")).
Definition not_found : Response :=
  json_response 404 (error_body (js "Invalid API route")
                                (js "invalid_request_error") (js "route_not_found")).
Definition internal_error (message : jstring) : Response :=
  json_response 500 (error_body message (js "api_error") (js "internal_error")).

(** [url.pathname.replace(/^\/api\/v1/, "/api")] *)
Definition route (pathname : jstring) : jstring :=
  if startsWith (js "/api/v1") pathname then js "/api" ++ slice 7 pathname
  else pathname.

(** The headers of a transcoded stream. *)
Definition stream_headers : gmap jstring jstring :=
  <[ js "connection" := js "keep-alive" ]>
    (<[ js "cache-control" := js "no-cache" ]>
       {[ content_type := js "text/event-stream" ]}).

(** [body.stream === true] *)
Definition is_true (o : option value) : bool :=
  match o with
  | Some (VBool true) => true
  | _ => false
  end.

(** A property of the object literal that [JSON.stringify] leaves out when
    its value is [undefined]. *)
Definition optional (k : jstring) (o : option value) : list (jstring * value) :=
  match o with
  | Some x => [(k, x)]
  | None => []
  end.

(** The statuses that allow no body. *)
Definition null_body_status (st : Z) : bool :=
  ((st =? 101) || (st =? 103) || (st =? 204) || (st =? 205) || (st =? 304))%Z.

(** The statuses a client can be sent: the three of the error bodies, or
    a success status. *)
Definition client_status (st : Z) : Prop :=
  st = 401%Z \/ st = 404%Z \/ st = 500%Z \/ (200 <= st <= 299)%Z.

Section Backend.
(** The chat backend: the model list and the completion it answers to a
    token (and a request body). *)
Variable models_api : jstring -> Reply.
Variable chat_api : jstring -> jstring -> Reply.
(** The messages of the errors the engine raises itself: the
    [SyntaxError] of [JSON.parse] on a text, and the [TypeError] of
    reading or calling the member [k] of a value. *)
Variable syntax_message : jstring -> jstring.
Variable type_message : option value -> jstring -> jstring.
(** The message of the [TypeError] of [new Response(body, { status })]
    for a body with a status that allows none. *)
Variable body_message : jstring.
(** [Date.parse(releaseDate) / 1000], as [JSON.stringify] prints it. *)
Variable epoch_seconds : option value -> value.

(** The callback of [data.models.map]. *)
Definition model_entry (model : value) : M value :=
  match model with
  | VNull => throw (type_message (Some VNull) (js "model"))
  | _ =>
      mret (VObj (optional (js "id") (prop model (js "model"))
                  ++ [(js "created", epoch_seconds (prop model (js "releaseDate")));
                      (js "object", VStr (js "model"))]
                  ++ optional (js "owned_by") (prop model (js "creator"))
                  ++ [(js "permission", VArr [] [])]
                  ++ optional (js "root") (prop model (js "model"))
                  ++ [(js "parent", VNull)]))
  end.

Fixpoint model_entries (models : list value) : M (list value) :=
  match models with
  | [] => mret []
  | model :: rest =>
      entry ← model_entry model;
      entries ← model_entries rest;
      mret (entry :: entries)
  end.

(** [data.models.map(model => ({ ... }))] *)
Definition models_listing (data : value) : M (list value) :=
  match data with
  | VNull => throw (type_message (Some VNull) (js "models"))
  | _ =>
      match prop data (js "models") with
      | Some (VArr models _) => model_entries models
      | other => throw (type_message other (js "map"))
      end
  end.

(** [handleModels(token)] of [worker.js]. *)
Definition worker_handleModels (token : jstring) : M Response :=
  let response := models_api token in
  if negb (reply_ok response)
  then throw (js "Failed to fetch models: " ++ reply_statusText response)
  else match JSON_parse (reply_text response) with
       | None => throw (syntax_message (reply_text response))
       | Some data =>
           models ← models_listing data;
           mret (json_response 200
                   (JSON_stringify (VObj [(js "object", VStr (js "list"));
                                          (js "data", VArr models [])])))
       end.

(** [handleModels(apiKey)] of [main.ts]: the token first, then the same. *)
Definition deno_handleModels (apiKey : jstring) : M Response :=
  token ← getValidToken apiKey;
  let response := models_api token in
  if negb (reply_ok response)
  then throw (js "Failed to fetch models: " ++ reply_statusText response)
  else match JSON_parse (reply_text response) with
       | None => throw (syntax_message (reply_text response))
       | Some data =>
           models ← models_listing data;
           mret (json_response 200
                   (JSON_stringify (VObj [(js "object", VStr (js "list"));
                                          (js "data", VArr models [])])))
       end.

(** The response without streaming: status and body of the reply, its
    headers with [content-type] set. *)
Definition forwarded (response : Reply) : Response :=
  {| status := reply_status response;
     headers := <[ content_type := application_json ]> (reply_headers response);
     body_chunks := default [] (reply_body response);
     body_end := Deno.Closed |}.

(** [new Response(response.body, { status: response.status, headers })] *)
Definition forward (response : Reply) : M Response :=
  match reply_body response with
  | Some _ =>
      if null_body_status (reply_status response) then throw body_message
      else mret (forwarded response)
  | None => mret (forwarded response)
  end.

(** [handleChatCompletions(request, token)] of [worker.js]. *)
Definition worker_handleChatCompletions (request : Request) (token : jstring)
  : M Response :=
  match JSON_parse (request_body request) with
  | None => throw (syntax_message (request_body request))
  | Some VNull => throw (type_message (Some VNull) (js "stream"))
  | Some body =>
      let isStream := is_true (prop body (js "stream")) in
      let response := chat_api token (JSON_stringify body) in
      if negb (reply_ok response)
      then throw (js "Failed to get chat completion: " ++ reply_statusText response)
      else if negb isStream then forward response
      else match reply_body response with
           | None => throw (type_message (Some VNull) (js "pipeThrough"))
           | Some chunks =>
               mret {| status := 200; headers := stream_headers;
                       body_chunks := Worker.transformStream chunks;
                       body_end := Deno.Closed |}
           end
  end.

(** [handleChatCompletions(req, apiKey)] of [main.ts]. *)
Definition deno_handleChatCompletions (req : Request) (apiKey : jstring)
  : M Response :=
  token ← getValidToken apiKey;
  match JSON_parse (request_body req) with
  | None => throw (syntax_message (request_body req))
  | Some VNull => throw (type_message (Some VNull) (js "stream"))
  | Some body =>
      let isStream := is_true (prop body (js "stream")) in
      let response := chat_api token (JSON_stringify body) in
      if negb (reply_ok response)
      then throw (js "Failed to get chat completion: " ++ reply_statusText response)
      else if negb isStream then forward response
      else mret {| status := 200; headers := stream_headers;
                   body_chunks := (Deno.start (reply_body response)).1;
                   body_end := (Deno.start (reply_body response)).2 |}
  end.

(** [fetch(request, env)] of [worker.js]. *)
Definition worker_fetch (request : Request) : M Response :=
  try_catch
    (match authorization request with
     | Some authHeader =>
         if startsWith (js "Bearer ") authHeader then
           let apiKey := slice 7 authHeader in
           let path := route (pathname request) in
           token ← getValidToken apiKey;
           if str_eqb path (js "/api/models") then worker_handleModels token
           else if str_eqb path (js "/api/chat/completions")
                then worker_handleChatCompletions request token
                else mret not_found
         else mret unauthorized
     | None => mret unauthorized
     end)
    (fun message => mret (internal_error message)).

(** The callback of [serve] in [main.ts]. *)
Definition deno_serve (req : Request) : M Response :=
  try_catch
    (match authorization req with
     | Some authHeader =>
         if startsWith (js "Bearer ") authHeader then
           let apiKey := slice 7 authHeader in
           let path := route (pathname req) in
           if str_eqb path (js "/api/models") then deno_handleModels apiKey
           else if str_eqb path (js "/api/chat/completions")
                then deno_handleChatCompletions req apiKey
                else mret not_found
         else mret unauthorized
     | None => mret unauthorized
     end)
    (fun message => mret (internal_error message)).

End Backend.
(** The two kinds of response: an event stream, every chunk of which is
    one whole event, and a JSON response. *)
Definition event_stream (r : Response) : Prop :=
  status r = 200%Z
  /\ headers r !! content_type = Some (js "text/event-stream")
  /\ Forall Framing.framed (body_chunks r).

Definition json_kind (r : Response) : Prop :=
  headers r !! content_type = Some application_json.

End Proxy.

(* ===================================================================== *)
(** ** Token management when the store or the network fail *)
(* ===================================================================== *)

Module Faulty.
Import JS Token.

(** [getValidToken] where the store and the network can fail.  The
    awaits of [getValidToken], [registerUser] and [refreshToken] on the
    platform: each of them can reject, with an [Error] of which the
    [catch] block reads the [message].  Reading the members of the
    provider's answer, which throws when the answer is [null], goes with
    [response.json()]. *)
Inductive await :=
| KV_get_await (key : jstring)      (* KV.get(apiKey, "json"), kv.get([apiKey]) *)
| fetch_await (req : request)       (* fetch(...) *)
| json_await (req : request)        (* response.json() and data.idToken, ... *)
| KV_put_await (key : jstring).     (* KV.put(apiKey, ...), kv.set([apiKey], ...) *)

(** The world of module [Token], and which awaits reject: [rejection]
    gives the message of the error an await rejects with after the
    effects so far, if it does. *)
Record state := {
  base : world;
  rejection : list effect -> await -> option jstring
}.

Definition FM (A : Type) : Type := state -> outcome A * state.

#[global] Instance FM_ret : MRet FM := fun A a s => (Returns a, s).

#[global] Instance FM_bind : MBind FM := fun A B k m s =>
  match m s with
  | (Returns a, s') => k a s'
  | (Throws e, s') => (Throws e, s')
  end.

Definition throw {A} (message : jstring) : FM A := fun s => (Throws message, s).

Definition try_catch {A} (body : FM A) (handler : jstring -> FM A) : FM A := fun s =>
  match body s with
  | (Returns a, s') => (Returns a, s')
  | (Throws e, s') => handler e s'
  end.

(** A change of the world of [Token]. *)
Definition on (f : world -> world) (s : state) : state :=
  {| base := f (base s); rejection := rejection s |}.

(** The message an await rejects with now, if it does. *)
Definition rejected (a : await) (s : state) : option jstring :=
  rejection s (log (base s)) a.

(** An await that fulfils with [a] in the changed world [f], unless it
    rejects; the world is then changed by [g]. *)
Definition awaiting {A} (point : await) (a : world -> A) (f g : world -> world)
  : FM A := fun s =>
  match rejected point s with
  | Some message => (Throws message, on g s)
  | None => (Returns (a (base s)), on f s)
  end.

Definition Date_now : FM Z := fun s => (Returns (now (base s)), s).

(** A read is recorded whether it is answered or not. *)
Definition KV_get (key : jstring) : FM (option TokenInfo.t) :=
  awaiting (KV_get_await key) (fun w => KV w !! key)
           (record (KVGet key)) (record (KVGet key)).

(** A write that is rejected is taken to have stored nothing. *)
Definition KV_put (key : jstring) (value : TokenInfo.t) : FM unit :=
  awaiting (KV_put_await key) (fun _ => ()) (put key value) (fun w => w).

Definition fetch (req : request) : FM response :=
  awaiting (fetch_await req) (answer req) (fetched req) (fetched req).

Definition json (req : request) : FM unit :=
  awaiting (json_await req) (fun _ => ()) (fun w => w) (fun w => w).

Definition registerUser (apiKey : jstring) : FM TokenInfo.t :=
  response ← fetch (SignUp apiKey);
  if negb (ok response)
  then throw (register_failed ++ statusText response)
  else _ ← json (SignUp apiKey); t ← Date_now; mret (token_info response t).

Definition refreshToken (apiKey refreshToken : jstring) : FM TokenInfo.t :=
  response ← fetch (Refresh apiKey refreshToken);
  if negb (ok response)
  then throw (refresh_failed ++ statusText response)
  else _ ← json (Refresh apiKey refreshToken);
       t ← Date_now; mret (token_info response t).

Definition renew_or_reuse (apiKey : jstring) (tokenInfo : option TokenInfo.t)
  : FM jstring :=
  match tokenInfo with
  | None =>
      newTokenInfo ← registerUser apiKey;
      _ ← KV_put apiKey newTokenInfo;
      mret (TokenInfo.token newTokenInfo)
  | Some info =>
      t ← Date_now;
      if (TokenInfo.expiresAt info - 300000 <=? t)%Z then
        newTokenInfo ← refreshToken apiKey (TokenInfo.refreshToken info);
        _ ← KV_put apiKey newTokenInfo;
        mret (TokenInfo.token newTokenInfo)
      else mret (TokenInfo.token info)
  end.

Definition on_error (apiKey : jstring) (message : jstring) : FM jstring :=
  if includes refresh_marker message then
    newTokenInfo ← registerUser apiKey;
    _ ← KV_put apiKey newTokenInfo;
    mret (TokenInfo.token newTokenInfo)
  else throw message.

Definition getValidToken (apiKey : jstring) : FM jstring :=
  tokenInfo ← KV_get apiKey;
  try_catch (renew_or_reuse apiKey tokenInfo) (on_error apiKey).

(** The state in which nothing rejects. *)
Definition reliable (w : world) : state :=
  {| base := w; rejection := fun _ _ => None |}.

(** [message] is the message of an await that rejects at some point. *)
Definition rejects_with (r : list effect -> await -> option jstring)
    (message : jstring) : Prop :=
  exists l a, r l a = Some message.

(** What is thrown: nothing, or a message of the kind [kind]. *)
Definition thrown {A} (kind : jstring -> Prop) (o : outcome A) : Prop :=
  match o with
  | Returns _ => True
  | Throws message => kind message
  end.

End Faulty.

(* ===================================================================== *)
(** ** Sample worlds, backends and requests *)
(* ===================================================================== *)

Module Scenarios.
Import JS Payload Token Samples Proxy.

(** A first use, with a provider that accepts. *)
Definition new_client_world : world :=
  {| KV := ∅; now := 1000000;
     provider := fun _ _ => sample_answer true (js "OK") (js "access-1");
     log := [] |}.

(** The record a registration at [new_client_world] stores. *)
Definition new_client_info : TokenInfo.t :=
  TokenInfo.mk (js "access-1") (js "refresh-1") 4600020.

(** Another client. *)
Definition other_key : jstring := js "other-key".

(** A cached record within five minutes of its expiry, while the
    provider cannot be reached to refresh it. *)
Definition network_down : jstring := js "network down".
Definition offline_state : Faulty.state :=
  {| Faulty.base := stale_world;
     Faulty.rejection := fun _ a =>
       match a with
       | Faulty.fetch_await (Refresh _ _) => Some network_down
       | _ => None
       end |}.

(** A payload with two choices, the first one a legacy choice. *)
Definition legacy_choice : value := VObj [(k_text, VStr (js "hi"))].
Definition second_choice : value := VObj [(k_text, VStr (js "ho"))].
Definition two_choices (first : value) : list (jstring * value) :=
  [(js "id", VNum (js "7")); (k_choices, VArr [first; second_choice] [])].

(** The payload of [finish_line]; a legacy payload that closes the
    stream, and what normalisation makes of it. *)
Definition closing_upstream : value :=
  VObj [(k_choices, VArr [VObj [(k_finish_reason, VStr (js "stop"))]] [])].
Definition closing_data : value :=
  VObj [(k_choices,
         VArr [VObj [(k_text, VStr (js "hi"));
                     (k_finish_reason, VStr (js "stop"))]] [])].
Definition closing_normal : value :=
  VObj [(k_choices,
         VArr [VObj [(k_finish_reason, VStr (js "stop"));
                     (k_delta, VObj [(k_content, VStr (js "hi"))])]] [])].

(** A backend with one model, which answers every chat request with one
    line of content. *)
Definition models_text : jstring :=
  jsq "{'models':[{'model':'m1','creator':'acme','releaseDate':'2024-01-01'}]}".
Definition sample_model : value :=
  VObj [(js "model", VStr (js "m1")); (js "creator", VStr (js "acme"));
        (js "releaseDate", VStr (js "2024-01-01"))].
Definition sample_models_api (token : jstring) : Reply :=
  {| reply_status := 200; reply_statusText := js "OK";
     reply_headers := ∅; reply_body := Some [models_text] |}.
Definition sample_chat_api (token body : jstring) : Reply :=
  {| reply_status := 200; reply_statusText := js "OK";
     reply_headers := {[ js "x-request-id" := js "42" ]};
     reply_body := Some [content_line "a" ++ LF] |}.
Definition sample_syntax_message (text : jstring) : jstring :=
  js "Unexpected end of JSON input".
Definition sample_type_message (o : option value) (k : jstring) : jstring :=
  js "Cannot read properties of null (reading '" ++ k ++ js "')".
Definition sample_body_message : jstring :=
  js "Response with null body status cannot have body".
Definition sample_epoch_seconds (o : option value) : value :=
  match o with
  | Some (VStr s) =>
      if str_eqb s (js "2024-01-01") then VNum (js "1704067200") else VNull
  | _ => VNull
  end.

(** The two entry points on that backend. *)
Definition sample_worker : Request -> M Response :=
  worker_fetch sample_models_api sample_chat_api sample_syntax_message
    sample_type_message sample_body_message sample_epoch_seconds.
Definition sample_deno : Request -> M Response :=
  deno_serve sample_models_api sample_chat_api sample_syntax_message
    sample_type_message sample_body_message sample_epoch_seconds.

(** Requests: without credentials, for a path that is no route, and two
    chat requests, one of them streamed. *)
Definition bearer : jstring := js "Bearer client-key".
Definition anonymous_request : Request :=
  {| authorization := None; pathname := js "/api/models"; request_body := [] |}.
Definition stray_request : Request :=
  {| authorization := Some bearer; pathname := js "/api/v1/embeddings";
     request_body := [] |}.
Definition chat_request : Request :=
  {| authorization := Some bearer; pathname := js "/api/v1/chat/completions";
     request_body := jsq "{'model':'m1','stream':false}" |}.
Definition chat_body : value :=
  VObj [(js "model", VStr (js "m1")); (js "stream", VBool false)].
Definition stream_request : Request :=
  {| authorization := Some bearer; pathname := js "/api/chat/completions";
     request_body := jsq "{'model':'m1','stream':true}" |}.
Definition streamed_response : Response :=
  {| status := 200; headers := stream_headers;
     body_chunks := [content_event "a"; DONE_EVENT];
     body_end := Deno.Closed |}.

End Scenarios.

(* ===================================================================== *)
(** ** The stream transcoders *)
(* ===================================================================== *)

Section Transcoder.
Import JS Payload Samples.

(** *** [JSON.parse] and [JSON.stringify] on a few texts *)

Example parse_members_and_escapes :
  JSON_parse (jsq " { 'b' : [1, -2.5e+3, true, false, null, {}, []], 'a' : 'x\u0041\n' } ")
  = Some (VObj [(js "b", VArr [VNum (js "1"); VNum (js "-2.5e+3"); VBool true;
                               VBool false; VNull; VObj []; VArr [] []] []);
                (js "a", VStr [120; 65; 10])]).
Proof. vm_compute. reflexivity. Qed.

Example parse_index_keys_first :
  JSON_stringify <$> JSON_parse (jsq "{'b':1,'10':2,'9':3,'b':4}")
  = Some (jsq "{'9':3,'10':2,'b':4}").
Proof. vm_compute. reflexivity. Qed.

Example parse_rejects :
  Forall (fun text => JSON_parse text = None)
    [js ""; js "[DONE]"; js "[1,]"; jsq "{'a':1,}"; js "01"; js "1."; js "-";
     js "1 2"; jsq "{'a' 1}"; js "tru"; js "nulll"; jsq "'abc"; jsq "{'cho";
     js "{"; js "]"; js "[}"; jsq "{1:2}"; js ".5"; js "+1"; js "NaN"].
Proof. repeat constructor. Qed.

Example stringify_escapes :
  JSON_stringify (VStr [34; 92; 10; 1; 233; 55357; 56832; 55357])
  = [34; 92; 34; 92; 92; 92; 110] ++ js "\u0001" ++ [233; 55357; 56832]
    ++ js "\ud83d" ++ [34].
Proof. vm_compute. reflexivity. Qed.

(** Numbers are read as doubles and printed as [Number::toString]
    prints doubles. *)
Example numbers_as_doubles :
  map number_text
    [js "1.0"; js "1e-05"; js "1e-400"; js "-0"; js "1e400"; js "0.1e1";
     js "123456789012345678901234567890"; js "5e-324"; js "1e21";
     js "-2.5e+3"; js "0.30000000000000004"; js "9007199254740993";
     js "1e-7"; js "123456.789"]
  = [js "1"; js "0.00001"; js "0"; js "0"; js "null"; js "1";
     js "1.2345678901234568e+29"; js "5e-324"; js "1e+21";
     js "-2500"; js "0.30000000000000004"; js "9007199254740992";
     js "1e-7"; js "123456.789"].
Proof. vm_compute. reflexivity. Qed.

(** A literal is falsy exactly when it rounds to zero, which is below
    [2^-1075]. *)
Example numbers_that_round_to_zero :
  map number_nonzero
    [js "0"; js "-0.0"; js "0e5"; js "1e-400"; js "2.4703282292062327e-324";
     js "2.4703282292062328e-324"; js "5e-324"; js "1e400"; js "0.1"]
  = [false; false; false; false; false; true; true; true; true].
Proof. vm_compute. reflexivity. Qed.

(** A text that rounds to zero is not moved, and is printed as [0]. *)
Example tiny_text_is_not_moved :
  handle_payload (jsq "{'choices':[{'text':1e-400}]}")
  = Ok ([jsq "data: {'choices':[{'text':0,'delta':{}}]}" ++ LF ++ LF], false).
Proof. vm_compute. reflexivity. Qed.

(** *** [worker.js]: chunk boundaries *)

Lemma split_lf_no_newline (s : jstring) :
  Forall (fun c => c ≠ 10) s -> split_lf s = [s].
Proof.
  induction 1 as [|c s Hc _ IH]; [reflexivity|].
  simpl. rewrite IH. destruct (N.eqb_spec c 10); [contradiction|reflexivity].
Qed.

(** A chunk without a line feed only grows the buffer. *)
Lemma transform_no_newline (buffer chunk : jstring) :
  Forall (fun c => c ≠ 10) chunk ->
  Forall (fun c => c ≠ 10) buffer ->
  Worker.transform buffer chunk = (buffer ++ chunk, []).
Proof.
  intros Hc Hb. unfold Worker.transform.
  rewrite split_lf_no_newline by (apply Forall_app; auto).
  reflexivity.
Qed.

(** The buffer never holds a line feed. *)
Lemma split_lf_last (s : jstring) :
  Forall (fun c => c ≠ 10) (default [] (last (split_lf s))).
Proof.
  induction s as [|c s IH]; simpl; [constructor|].
  destruct (N.eqb_spec c 10) as [->|Hc].
  - destruct (split_lf s) as [|l ls] eqn:E; simpl in *; [constructor|exact IH].
  - destruct (split_lf s) as [|l [|l' ls]] eqn:E; simpl in *.
    + repeat constructor; assumption.
    + constructor; assumption.
    + exact IH.
Qed.

Lemma run_cons (buffer chunk : jstring) (rest : list jstring) :
  Worker.run buffer (chunk :: rest)
  = (Worker.transform buffer chunk).2
    ++ Worker.run (Worker.transform buffer chunk).1 rest.
Proof. reflexivity. Qed.

(** In [worker.js] a chunk boundary inside a line is not observable: the
    piece before the boundary waits in the buffer and is joined with what
    comes next. *)
Lemma worker_joins_split_line (buffer head chunk : jstring) (rest : list jstring) :
  Forall (fun c => c ≠ 10) buffer ->
  Forall (fun c => c ≠ 10) head ->
  Worker.run buffer (head :: chunk :: rest)
  = Worker.run buffer ((head ++ chunk) :: rest).
Proof.
  intros Hb Hh. rewrite (run_cons buffer head).
  rewrite transform_no_newline by assumption.
  rewrite (run_cons (buffer ++ head) chunk), (run_cons buffer (head ++ chunk)).
  unfold Worker.transform. rewrite <- (app_assoc buffer head chunk).
  reflexivity.
Qed.

(** What the chunks [pre] leave behind: their output and a buffer without
    a line feed. *)
Lemma run_prefix (pre : list jstring) (buffer : jstring) :
  Forall (fun c => c ≠ 10) buffer ->
  exists out buffer',
    Forall (fun c => c ≠ 10) buffer'
    /\ forall rest, Worker.run buffer (pre ++ rest) = out ++ Worker.run buffer' rest.
Proof.
  revert buffer. induction pre as [|chunk pre IH]; intros buffer Hb.
  - exists [], buffer. split; [assumption|reflexivity].
  - destruct (IH (Worker.transform buffer chunk).1) as (out & b' & Hb' & Hrun).
    { apply split_lf_last. }
    exists ((Worker.transform buffer chunk).2 ++ out), b'.
    split; [assumption|]. intros rest.
    rewrite <- app_comm_cons, run_cons, Hrun, app_assoc. reflexivity.
Qed.

(** Anywhere in the stream of [worker.js], a line cut in two by a chunk
    boundary gives what the whole line gives. *)
Lemma worker_split_line_one_event (pre rest : list jstring) (head chunk : jstring) :
  Forall (fun c => c ≠ 10) head ->
  Worker.transformStream (pre ++ head :: chunk :: rest)
  = Worker.transformStream (pre ++ (head ++ chunk) :: rest).
Proof.
  intros Hh. unfold Worker.transformStream.
  destruct (run_prefix pre []) as (out & b' & Hb' & Hrun); [constructor|].
  rewrite !Hrun. f_equal. apply worker_joins_split_line; assumption.
Qed.

Example worker_legacy_line_split :
  legacy_head ++ legacy_tail = legacy_line
  /\ Worker.transformStream [legacy_head; legacy_tail ++ LF]
     = [legacy_event; DONE_EVENT]
  /\ Worker.transformStream [legacy_line ++ LF] = [legacy_event; DONE_EVENT].
Proof. repeat split; vm_compute; reflexivity. Qed.

(** *** [worker.js]: one bad line *)

Lemma process_lines_cons (line : jstring) (rest : list jstring) :
  Worker.process_lines (line :: rest)
  = if str_eqb (trim line) [] then Worker.process_lines rest
    else if negb (startsWith data_prefix line) then Worker.process_lines rest
    else match handle_payload (slice 6 line) with
         | Throw _ => Worker.process_lines rest
         | Ok (out, true) => out
         | Ok (out, false) => out ++ Worker.process_lines rest
         end.
Proof. reflexivity. Qed.

(** In [worker.js] a [data: ] line whose payload is not JSON is skipped. *)
Lemma worker_skips_malformed (line : jstring) (rest : list jstring) :
  startsWith data_prefix line = true ->
  JSON_parse (slice 6 line) = None ->
  Worker.process_lines (line :: rest) = Worker.process_lines rest.
Proof.
  intros Hp Hj. rewrite process_lines_cons, Hp.
  unfold handle_payload. rewrite Hj.
  destruct (str_eqb (trim line) []); reflexivity.
Qed.

Example worker_corrupt_line_between :
  Worker.transformStream
    [content_line "a" ++ LF ++ corrupt_line ++ LF ++ content_line "b" ++ LF]
  = [content_event "a"; content_event "b"; DONE_EVENT].
Proof. vm_compute. reflexivity. Qed.

(** *** Claims about the end of the stream *)

(** C1 (fails on the code).  After a line with a [finish_reason] the
    stream of [worker.js] carries [data: [DONE]] twice: once from
    [transform], once more from [flush], which enqueues it whatever
    happened before. *)
Theorem worker_finish_then_flush_two_DONE :
  Worker.transformStream [finish_line ++ LF]
  = [finish_event; DONE_EVENT; DONE_EVENT]
  /\ length (filter (fun e => e = DONE_EVENT)
               (Worker.transformStream [finish_line ++ LF])) = 2%nat.
Proof. split; vm_compute; reflexivity. Qed.

(** In [main.ts] the stream made from the same input is closed after one
    [data: [DONE]]. *)
Example deno_finish_one_DONE :
  Deno.start (Some [finish_line ++ LF]) = ([finish_event; DONE_EVENT], Deno.Closed).
Proof. vm_compute. reflexivity. Qed.

(** In [main.ts] a response without a body is closed with nothing in it. *)
Example deno_no_body_no_DONE : Deno.start None = ([], Deno.Closed).
Proof. reflexivity. Qed.

(** C2 (fails on the code).  The payload [[DONE]] is not JSON, so
    [JSON.parse] throws before the comparison with the sentinel is
    reached: [worker.js] skips the line and goes on with the lines after
    it, [main.ts] puts the stream in error. *)
Theorem sentinel_line_is_not_recognised :
  JSON_parse (js "[DONE]") = None
  /\ Worker.transformStream [sentinel_line ++ LF ++ content_line "late" ++ LF]
     = [content_event "late"; DONE_EVENT]
  /\ Deno.start (Some [sentinel_line ++ LF]) = ([], Deno.Errored SyntaxError).
Proof. repeat split; vm_compute; reflexivity. Qed.

(** What the comparison does recognise is the JSON string with that text. *)
Example quoted_sentinel_is_recognised :
  handle_payload (jsq "'[DONE]'") = Ok ([DONE_EVENT], true).
Proof. vm_compute. reflexivity. Qed.

(** C3 (fails on the code).  In [worker.js] the [return] after a
    [finish_reason] ends the handling of that chunk only: the next chunk
    is transcoded as usual, and [flush] adds its own [data: [DONE]]. *)
Theorem worker_goes_on_after_finish :
  Worker.transformStream [finish_line ++ LF; content_line "late" ++ LF]
  = [finish_event; DONE_EVENT; content_event "late"; DONE_EVENT].
Proof. vm_compute. reflexivity. Qed.

(** Within one chunk the lines after the [finish_reason] are dropped. *)
Example worker_drops_rest_of_chunk :
  Worker.transformStream [finish_line ++ LF ++ content_line "late" ++ LF]
  = [finish_event; DONE_EVENT; DONE_EVENT].
Proof. vm_compute. reflexivity. Qed.

(** [main.ts] closes the stream there and reads no more. *)
Lemma deno_stops_after_finish :
  Deno.start (Some [finish_line ++ LF; content_line "late" ++ LF])
  = ([finish_event; DONE_EVENT], Deno.Closed).
Proof. vm_compute. reflexivity. Qed.

(** C4 (fails on the code).  In [main.ts] nothing catches the
    [SyntaxError] of a single line: the stream is put in error after the
    first event, the second valid line is never transcoded and no
    [data: [DONE]] follows. *)
Theorem deno_corrupt_line_aborts :
  Deno.start
    (Some [content_line "a" ++ LF ++ corrupt_line ++ LF ++ content_line "b" ++ LF])
  = ([content_event "a"], Deno.Errored SyntaxError).
Proof. vm_compute. reflexivity. Qed.

(** C5 (fails on the code).  [main.ts] keeps nothing between two reads:
    the first half of a split line is parsed on its own, and the stream is
    put in error. *)
Theorem deno_split_line_aborts :
  Deno.start (Some [legacy_head; legacy_tail ++ LF])
  = ([], Deno.Errored SyntaxError)
  /\ Deno.start (Some [legacy_head ++ legacy_tail ++ LF])
     = ([legacy_event; DONE_EVENT], Deno.Closed).
Proof. split; vm_compute; reflexivity. Qed.

(** *** Normalisation *)

Lemma str_eqb_refl (k : jstring) : str_eqb k k = true.
Proof. unfold str_eqb. apply bool_decide_eq_true. reflexivity. Qed.

Lemma str_eqb_ne (k k' : jstring) : k ≠ k' -> str_eqb k k' = false.
Proof. intros H. unfold str_eqb. apply bool_decide_eq_false. exact H. Qed.

Lemma lookup_key_app_new (k k' : jstring) (x : value) ps :
  lookup_key k ps = None ->
  lookup_key k (ps ++ [(k', x)]) = if str_eqb k k' then Some x else None.
Proof.
  induction ps as [|[k0 v0] ps IH]; simpl; [reflexivity|].
  destruct (str_eqb k k0); [discriminate|exact IH].
Qed.

Lemma lookup_key_app_old (k : jstring) (v : value) ps qs :
  lookup_key k ps = Some v -> lookup_key k (ps ++ qs) = Some v.
Proof.
  induction ps as [|[k0 v0] ps IH]; simpl; [discriminate|].
  destruct (str_eqb k k0); [trivial|exact IH].
Qed.

Lemma lookup_replace_eq (k : jstring) (x v : value) ps :
  lookup_key k ps = Some v -> lookup_key k (replace_key k x ps) = Some x.
Proof.
  induction ps as [|[k0 v0] ps IH]; simpl; [discriminate|].
  destruct (str_eqb k k0) eqn:E; simpl; rewrite E; [reflexivity|exact IH].
Qed.

Lemma lookup_replace_ne (k k' : jstring) (x : value) ps :
  k ≠ k' -> lookup_key k (replace_key k' x ps) = lookup_key k ps.
Proof.
  intros Hne. induction ps as [|[k0 v0] ps IH]; simpl; [reflexivity|].
  unfold str_eqb at 1. case_bool_decide as E'; simpl.
  - subst k0. rewrite (str_eqb_ne k k') by assumption. reflexivity.
  - rewrite IH. reflexivity.
Qed.

Lemma lookup_remove_eq (k : jstring) ps : lookup_key k (remove_key k ps) = None.
Proof.
  induction ps as [|[k0 v0] ps IH]; simpl; [reflexivity|].
  destruct (str_eqb k k0) eqn:E; simpl; [exact IH|]. rewrite E. exact IH.
Qed.

Lemma lookup_remove_ne (k k' : jstring) ps :
  k ≠ k' -> lookup_key k (remove_key k' ps) = lookup_key k ps.
Proof.
  intros Hne. induction ps as [|[k0 v0] ps IH]; simpl; [reflexivity|].
  unfold str_eqb at 1. case_bool_decide as E'; simpl.
  - subst k0. rewrite (str_eqb_ne k k') by assumption. exact IH.
  - rewrite IH. reflexivity.
Qed.

Ltac keys :=
  change (array_index k_0) with (Some 0) in *;
  change (array_index k_choices) with (@None N) in *;
  change (array_index k_delta) with (@None N) in *;
  change (array_index k_content) with (@None N) in *;
  change (array_index k_text) with (@None N) in *;
  change (N.to_nat 0) with 0%nat in *.

Ltac js_step :=
  repeat (progress
    (cbn [opt member prop put_back assign delete_prop is_undefined mbind result_bind] in *;
     keys)).

(** What [data.choices?.[0]] being an object says about [data]. *)
Lemma choice0_object_inv (data : value) ps :
  choice0 data = Some (VObj ps) ->
  exists c, member (Some data) k_choices = Ok (Some c)
            /\ member (Some c) k_0 = Ok (Some (VObj ps))
            /\ forall x, opt (Some (put_back data k_choices (put_back c k_0 x))) k_choices
                         = Some (put_back c k_0 x)
                      /\ opt (Some (put_back c k_0 x)) k_0 = Some x.
Proof.
  unfold choice0. intros H.
  destruct data as [| | | |es named|dps]; js_step; try discriminate H.
  - destruct (lookup_key k_choices named) as [c|] eqn:Ec; js_step; [|discriminate H].
    exists c. split; [reflexivity|].
    destruct c as [| | |s|ces cnamed|cps]; js_step; try discriminate H.
    + destruct (s !! 0%nat); discriminate H.
    + rewrite H. split; [reflexivity|]. intros x.
      rewrite (lookup_replace_eq _ _ _ _ Ec). js_step.
      split; [reflexivity|]. destruct ces; [discriminate H|reflexivity].
    + rewrite H. split; [reflexivity|]. intros x.
      rewrite (lookup_replace_eq _ _ _ _ Ec). js_step.
      split; [reflexivity|]. apply (lookup_replace_eq _ _ _ _ H).
  - destruct (lookup_key k_choices dps) as [c|] eqn:Ec; js_step; [|discriminate H].
    exists c. split; [reflexivity|].
    destruct c as [| | |s|ces cnamed|cps]; js_step; try discriminate H.
    + destruct (s !! 0%nat); discriminate H.
    + rewrite H. split; [reflexivity|]. intros x.
      rewrite (lookup_replace_eq _ _ _ _ Ec). js_step.
      split; [reflexivity|]. destruct ces; [discriminate H|reflexivity].
    + rewrite H. split; [reflexivity|]. intros x.
      rewrite (lookup_replace_eq _ _ _ _ Ec). js_step.
      split; [reflexivity|]. apply (lookup_replace_eq _ _ _ _ H).
Qed.

(** A statement on [data.choices[0]] that succeeds on an object leaves
    [data] with the changed object at [data.choices[0]]. *)
Lemma on_choice0_object (data : value) ps (f : value -> result value) (c0' : value) :
  choice0 data = Some (VObj ps) ->
  f (VObj ps) = Ok c0' ->
  exists data', on_choice0 data f = Ok data' /\ choice0 data' = Some c0'.
Proof.
  intros H Hf. destruct (choice0_object_inv data ps H) as (c & Hc & Hc0 & Hput).
  exists (put_back data k_choices (put_back c k_0 c0')). split.
  - unfold on_choice0. rewrite Hc. cbn [mbind result_bind]. rewrite Hc0.
    cbn [mbind result_bind]. rewrite Hf. reflexivity.
  - unfold choice0. destruct (Hput c0') as [-> ->]. reflexivity.
Qed.

Lemma choice0_member (data : value) c0 :
  choice0 data = Some c0 ->
  exists c, member (Some data) k_choices = Ok c /\ opt c k_0 = Some c0.
Proof.
  unfold choice0. intros H. destruct data; try discriminate H; eexists; (split; [reflexivity|exact H]).
Qed.

Lemma opt_object (ps : list (jstring * value)) (k : jstring) :
  opt (Some (VObj ps)) k = lookup_key k ps.
Proof. reflexivity. Qed.

Lemma obj_define_new ps (k : jstring) (x : value) :
  lookup_key k ps = None -> array_index k = None ->
  obj_define ps k x = ps ++ [(k, x)].
Proof. intros H1 H2. unfold obj_define. rewrite H1, H2. reflexivity. Qed.

Lemma ensure_delta_absent (data : value) ps :
  choice0 data = Some (VObj ps) ->
  lookup_key k_delta ps = None ->
  exists data1, ensure_delta data = Ok data1
                /\ choice0 data1 = Some (VObj (ps ++ [(k_delta, VObj [])])).
Proof.
  intros H Hd. destruct (choice0_member _ _ H) as (c & Hc & Hc0).
  unfold ensure_delta. rewrite Hc. cbn [mbind result_bind].
  rewrite Hc0, opt_object, Hd. cbn [is_undefined].
  apply on_choice0_object with ps; [assumption|].
  cbn [assign]. rewrite obj_define_new by (assumption || reflexivity).
  reflexivity.
Qed.

Lemma ensure_delta_present (data : value) ps (d : value) :
  choice0 data = Some (VObj ps) ->
  lookup_key k_delta ps = Some d ->
  ensure_delta data = Ok data.
Proof.
  intros H Hd. destruct (choice0_member _ _ H) as (c & Hc & Hc0).
  unfold ensure_delta. rewrite Hc. cbn [mbind result_bind].
  rewrite Hc0, opt_object, Hd. reflexivity.
Qed.

Lemma text_to_content_falsy (data : value) ps :
  choice0 data = Some (VObj ps) ->
  truthy (lookup_key k_text ps) = false ->
  text_to_content data = Ok data.
Proof.
  intros H Ht. destruct (choice0_member _ _ H) as (c & Hc & Hc0).
  unfold text_to_content. rewrite Hc. cbn [mbind result_bind].
  rewrite Hc0, !opt_object.
  destruct (lookup_key k_text ps) as [t|]; [|reflexivity].
  rewrite Ht, andb_false_r. reflexivity.
Qed.

Lemma text_to_content_has_content (data : value) ps (x : value) :
  choice0 data = Some (VObj ps) ->
  opt (lookup_key k_delta ps) k_content = Some x ->
  text_to_content data = Ok data.
Proof.
  intros H Hx. destruct (choice0_member _ _ H) as (c & Hc & Hc0).
  unfold text_to_content. rewrite Hc. cbn [mbind result_bind].
  rewrite Hc0, !opt_object, Hx.
  destruct (lookup_key k_text ps); reflexivity.
Qed.

Lemma text_to_content_moves (data : value) ps dps (t : value) :
  choice0 data = Some (VObj ps) ->
  lookup_key k_delta ps = Some (VObj dps) ->
  lookup_key k_content dps = None ->
  lookup_key k_text ps = Some t ->
  truthy (Some t) = true ->
  exists data2,
    text_to_content data = Ok data2
    /\ choice0 data2
       = Some (VObj (remove_key k_text
                       (replace_key k_delta (VObj (dps ++ [(k_content, t)])) ps))).
Proof.
  intros H Hd Hcont Ht Htruthy. destruct (choice0_member _ _ H) as (c & Hc & Hc0).
  unfold text_to_content. rewrite Hc. cbn [mbind result_bind].
  rewrite Hc0, !opt_object, Ht, Hd, opt_object, Hcont, Htruthy.
  cbn [is_undefined andb].
  destruct (on_choice0_object data ps
              (fun c0 => d ← member (Some c0) k_delta;
                         d' ← assign d k_content t;
                         Ok (put_back c0 k_delta d'))
              (VObj (replace_key k_delta (VObj (dps ++ [(k_content, t)])) ps)) H)
    as (data1 & E1 & H1).
  { cbn [member prop mbind result_bind]. rewrite Hd.
    cbn [assign mbind result_bind].
    rewrite obj_define_new by (assumption || reflexivity). reflexivity. }
  rewrite E1. cbn [mbind result_bind].
  eapply on_choice0_object; [exact H1|reflexivity].
Qed.

Lemma k_delta_ne_k_text : k_delta ≠ k_text.
Proof. discriminate. Qed.

Lemma lookup_text_app_delta ps (d : value) :
  lookup_key k_text (ps ++ [(k_delta, d)]) = lookup_key k_text ps.
Proof.
  destruct (lookup_key k_text ps) as [t|] eqn:E.
  - apply lookup_key_app_old. exact E.
  - rewrite lookup_key_app_new by exact E. reflexivity.
Qed.

(** Where the moved text ends up. *)
Lemma moved_result ps dps (t : value) :
  lookup_key k_delta ps = Some (VObj dps) ->
  lookup_key k_content dps = None ->
  let ps' := remove_key k_text
               (replace_key k_delta (VObj (dps ++ [(k_content, t)])) ps) in
  lookup_key k_delta ps' = Some (VObj (dps ++ [(k_content, t)]))
  /\ opt (lookup_key k_delta ps') k_content = Some t
  /\ lookup_key k_text ps' = None.
Proof.
  intros Hd Hc ps'. subst ps'.
  rewrite lookup_remove_ne by exact k_delta_ne_k_text.
  rewrite (lookup_replace_eq _ _ _ _ Hd).
  rewrite opt_object, lookup_key_app_new by exact Hc.
  rewrite str_eqb_refl, lookup_remove_eq. auto.
Qed.

(** C9, as amended.  When [data.choices[0]] is an object whose [delta]
    is absent or an object, normalisation succeeds and: an absent [delta]
    is created, empty unless a text is moved into it; when
    [delta.content] is absent and [text] is present and truthy, the value
    of [text] becomes [delta.content] and the key [text] is gone; a
    [text] that is not truthy (the empty string, [0], [false], [null])
    stays where it is. *)
Theorem normalize_object_choice (data : value) ps :
  choice0 data = Some (VObj ps) ->
  (delta_of data = None \/ exists dps, delta_of data = Some (VObj dps)) ->
  exists data',
    normalize data = Ok data'
    /\ (delta_of data = None -> truthy (text_of data) = false ->
        delta_of data' = Some (VObj []))
    /\ (forall t, content_of data = None -> text_of data = Some t ->
                  truthy (Some t) = true ->
          content_of data' = Some t /\ text_of data' = None
          /\ (delta_of data = None -> delta_of data' = Some (VObj [(k_content, t)])))
    /\ (truthy (text_of data) = false -> text_of data' = text_of data).
Proof.
  intros H Hdelta. unfold normalize, content_of, text_of, delta_of in *.
  rewrite H, !opt_object in *.
  destruct Hdelta as [Hd|[dps Hd]].
  - (* no delta: it is created *)
    destruct (ensure_delta_absent data ps H Hd) as (data1 & E1 & H1).
    rewrite E1. cbn [mbind result_bind].
    assert (Hd1 : lookup_key k_delta (ps ++ [(k_delta, VObj [])]) = Some (VObj [])).
    { rewrite lookup_key_app_new by exact Hd. rewrite str_eqb_refl. reflexivity. }
    destruct (truthy (lookup_key k_text ps)) eqn:Ht.
    + destruct (lookup_key k_text ps) as [t|] eqn:Et; [|discriminate Ht].
      destruct (text_to_content_moves data1 _ [] t H1 Hd1 eq_refl) as (data2 & E2 & H2).
      { rewrite lookup_text_app_delta. exact Et. }
      { exact Ht. }
      destruct (moved_result (ps ++ [(k_delta, VObj [])]) [] t Hd1 eq_refl)
        as (M1 & M2 & M3).
      exists data2. rewrite E2, H2, !opt_object.
      split; [reflexivity|]. split; [|split].
      * intros _ Hf. discriminate Hf.
      * intros t' _ [= <-] _. split; [exact M2|]. split; [exact M3|].
        intros _. exact M1.
      * intros Hf. discriminate Hf.
    + exists data1. rewrite H1, !opt_object.
      rewrite (text_to_content_falsy data1 _ H1)
        by (rewrite lookup_text_app_delta; exact Ht).
      split; [reflexivity|]. split; [|split].
      * intros _ _. exact Hd1.
      * intros t _ Et Htt. rewrite Et in Ht. congruence.
      * intros _. apply lookup_text_app_delta.
  - (* delta is an object already *)
    rewrite (ensure_delta_present data ps _ H Hd). cbn [mbind result_bind].
    rewrite Hd, opt_object.
    destruct (lookup_key k_content dps) as [x|] eqn:Ec.
    + exists data. rewrite H, !opt_object, Hd, opt_object, Ec.
      rewrite (text_to_content_has_content data ps x H)
        by (rewrite Hd, opt_object; exact Ec).
      split; [reflexivity|]. split; [|split].
      * intros Hf. discriminate Hf.
      * intros t Hf. discriminate Hf.
      * reflexivity.
    + destruct (truthy (lookup_key k_text ps)) eqn:Ht.
      * destruct (lookup_key k_text ps) as [t|] eqn:Et; [|discriminate Ht].
        destruct (text_to_content_moves data ps dps t H Hd Ec Et Ht) as (data2 & E2 & H2).
        destruct (moved_result ps dps t Hd Ec) as (M1 & M2 & M3).
        exists data2. rewrite E2, H2, !opt_object.
        split; [reflexivity|]. split; [|split].
        -- intros Hf. discriminate Hf.
        -- intros t' _ [= <-] _. split; [exact M2|]. split; [exact M3|].
           intros Hf. discriminate Hf.
        -- intros Hf. discriminate Hf.
      * exists data. rewrite H, !opt_object, Hd, opt_object.
        rewrite (text_to_content_falsy data ps H Ht).
        split; [reflexivity|]. split; [|split].
        -- intros Hf. discriminate Hf.
        -- intros t _ Et Htt. rewrite Et in Ht. congruence.
        -- reflexivity.
Qed.

Lemma opt_delta_not_object (o : option value) :
  is_object o = false -> opt o k_delta = None.
Proof. destruct o as [[]|]; intros H; try reflexivity; discriminate H. Qed.

(** Without an object or an array at [data.choices?.[0]] the first
    normalisation statement throws. *)
Lemma normalize_throws (data : value) :
  is_object (choice0 data) = false -> normalize data = Throw TypeError.
Proof.
  unfold choice0, normalize, ensure_delta. intros H.
  destruct data as [| | | |es named|ps]; try reflexivity.
  all: cbn [member mbind result_bind]; cbn [opt] in H |- *.
  all: try (rewrite (opt_delta_not_object _ H); cbn [is_undefined];
            unfold on_choice0; cbn [member mbind result_bind]).
  all: match goal with
       | |- context [member ?c k_0] =>
           destruct c as [[| | | | |]|]; try reflexivity;
           cbn [member opt mbind result_bind] in H |- *;
           match goal with
           | |- context [prop ?v k_0] =>
               destruct (prop v k_0) as [[| | | | |]|];
               try reflexivity; discriminate H
           end
       end.
Qed.

(** C10, as amended.  In [worker.js] a [data: ] line whose payload is
    JSON, is not the sentinel and has neither an object nor an array at
    [data.choices?.[0]] enqueues nothing, and the loop goes on with the
    lines after it: the [TypeError] of the first normalisation statement
    is caught by the handler of that line. *)
Theorem worker_drops_unusable_payload (line : jstring) (rest : list jstring)
    (data : value) :
  startsWith data_prefix line = true ->
  JSON_parse (slice 6 line) = Some data ->
  is_sentinel data = false ->
  is_object (choice0 data) = false ->
  Worker.process_lines (line :: rest) = Worker.process_lines rest.
Proof.
  intros Hp Hj Hs Ho. rewrite process_lines_cons, Hp.
  unfold handle_payload. rewrite Hj, Hs, (normalize_throws data Ho).
  destruct (str_eqb (trim line) []); reflexivity.
Qed.

Lemma normalize_object_choice_witness :
  exists data',
    normalize legacy_data = Ok data'
    /\ (delta_of legacy_data = None -> truthy (text_of legacy_data) = false ->
        delta_of data' = Some (VObj []))
    /\ (forall t, content_of legacy_data = None -> text_of legacy_data = Some t ->
                  truthy (Some t) = true ->
          content_of data' = Some t /\ text_of data' = None
          /\ (delta_of legacy_data = None ->
              delta_of data' = Some (VObj [(k_content, t)])))
    /\ (truthy (text_of legacy_data) = false -> text_of data' = text_of legacy_data).
Proof.
  apply (normalize_object_choice legacy_data [(k_text, VStr (js "hi"))]).
  - reflexivity.
  - left. reflexivity.
Defined.

(** The example of the specification, as texts. *)
Example legacy_text_becomes_content :
  JSON_parse legacy_payload = Some legacy_data
  /\ option_map (fun data => match normalize data with
                             | Ok data' => Some (JSON_stringify data')
                             | Throw _ => None
                             end) (JSON_parse legacy_payload)
     = Some (Some (jsq "{'choices':[{'delta':{'content':'hi'}}]}")).
Proof. split; vm_compute; reflexivity. Qed.

(** C9 (as stated, fails).  A [text] that is present but empty is not
    moved: the key stays and [delta] stays empty, because the code tests
    the text for truthiness, not for presence. *)
Lemma empty_text_is_not_moved :
  JSON_parse empty_text_payload = Some empty_text_data
  /\ is_sentinel empty_text_data = false
  /\ content_of empty_text_data = None
  /\ text_of empty_text_data = Some (VStr [])
  /\ exists data',
       normalize empty_text_data = Ok data'
       /\ content_of data' = None
       /\ text_of data' = Some (VStr [])
       /\ JSON_stringify data' = jsq "{'choices':[{'text':'','delta':{}}]}".
Proof.
  repeat (split; [vm_compute; reflexivity|]).
  eexists. split; [vm_compute; reflexivity|].
  repeat split; vm_compute; reflexivity.
Qed.

(** Left out of the amended C9: a [delta] that is there but is not an
    object.  With [null] the assignment of [content] throws, and the line
    is lost in [worker.js]. *)
Example null_delta_throws :
  JSON_parse null_delta_payload = Some null_delta_data
  /\ normalize null_delta_data = Throw TypeError.
Proof. split; vm_compute; reflexivity. Qed.

Lemma worker_drops_unusable_payload_witness :
  Worker.process_lines [plain_line] = Worker.process_lines [].
Proof.
  apply (worker_drops_unusable_payload plain_line [] plain_data);
    vm_compute; reflexivity.
Defined.

(** C10 (as stated, fails).  A payload whose [choices] is not an array
    but an object with a member [0] is transcoded like any other. *)
Lemma keyed_choices_not_dropped :
  startsWith data_prefix keyed_line = true
  /\ JSON_parse (slice 6 keyed_line) = Some keyed_data
  /\ is_sentinel keyed_data = false
  /\ has_choices_array keyed_data = false
  /\ Worker.process_lines [keyed_line] = [keyed_event]
  /\ Worker.process_lines [keyed_line] <> Worker.process_lines [].
Proof.
  repeat (split; [vm_compute; reflexivity|]).
  vm_compute. discriminate.
Qed.

End Transcoder.

(* ===================================================================== *)
(** ** Token management: the paths of [getValidToken] *)
(* ===================================================================== *)

Section TokenLifecycle.
Import JS Token Samples.

(** Every message of a failed refresh carries the text the handler looks
    for; the message of a failed registration carries it exactly when the
    status text does. *)
Lemma refresh_failure_has_marker (st : jstring) :
  includes refresh_marker (refresh_failed ++ st) = true.
Proof. reflexivity. Qed.

Lemma register_failure_marker (st : jstring) :
  includes refresh_marker (register_failed ++ st) = includes refresh_marker st.
Proof. reflexivity. Qed.

Lemma bind_run {A B} (m : M A) (k : A -> M B) (w : world) :
  (m ≫= k) w = match m w with
               | (Returns a, w') => k a w'
               | (Throws e, w') => (Throws e, w')
               end.
Proof. reflexivity. Qed.

Lemma registerUser_run (apiKey : jstring) (w : world) :
  registerUser apiKey w
  = let w' := fetched (SignUp apiKey) w in
    let r := answer (SignUp apiKey) w in
    (if ok r then Returns (token_info r (now w'))
     else Throws (register_failed ++ statusText r), w').
Proof.
  unfold registerUser. rewrite bind_run. unfold fetch. cbv zeta.
  destruct (ok (answer (SignUp apiKey) w)); reflexivity.
Qed.

Lemma refreshToken_run (apiKey rt : jstring) (w : world) :
  refreshToken apiKey rt w
  = let w' := fetched (Refresh apiKey rt) w in
    let r := answer (Refresh apiKey rt) w in
    (if ok r then Returns (token_info r (now w'))
     else Throws (refresh_failed ++ statusText r), w').
Proof.
  unfold refreshToken. rewrite bind_run. unfold fetch. cbv zeta.
  destruct (ok (answer (Refresh apiKey rt) w)); reflexivity.
Qed.

(** Storing and returning the new record, as all three paths do. *)
Lemma store_and_return (apiKey : jstring) (m : M TokenInfo.t) (w : world) :
  (newTokenInfo ← m; _ ← KV_put apiKey newTokenInfo;
   mret (TokenInfo.token newTokenInfo)) w
  = match m w with
    | (Returns info, w') => (Returns (TokenInfo.token info), put apiKey info w')
    | (Throws e, w') => (Throws e, w')
    end.
Proof. rewrite bind_run. destruct (m w) as [[info|e] w']; reflexivity. Qed.

Lemma register_and_store_run (apiKey : jstring) (w : world) :
  (newTokenInfo ← registerUser apiKey; _ ← KV_put apiKey newTokenInfo;
   mret (TokenInfo.token newTokenInfo)) w
  = register_and_store apiKey w.
Proof.
  rewrite store_and_return, registerUser_run. unfold register_and_store. cbv zeta.
  destruct (ok (answer (SignUp apiKey) w)); reflexivity.
Qed.

(** Every path of [getValidToken]. *)
Lemma getValidToken_run (apiKey : jstring) (w : world) :
  getValidToken apiKey w
  = let w0 := record (KVGet apiKey) w in
    match KV w !! apiKey with
    | None =>
        let w1 := fetched (SignUp apiKey) w0 in
        let r1 := answer (SignUp apiKey) w0 in
        if ok r1 then (Returns (id_token r1), put apiKey (token_info r1 (now w1)) w1)
        else if includes refresh_marker (statusText r1)
             then register_and_store apiKey w1
             else (Throws (register_failed ++ statusText r1), w1)
    | Some info =>
        if (TokenInfo.expiresAt info - 300000 <=? now w)%Z then
          let req := Refresh apiKey (TokenInfo.refreshToken info) in
          let w1 := fetched req w0 in
          let r1 := answer req w0 in
          if ok r1 then (Returns (id_token r1), put apiKey (token_info r1 (now w1)) w1)
          else register_and_store apiKey w1
        else (Returns (TokenInfo.token info), w0)
    end.
Proof.
  unfold getValidToken. rewrite bind_run. unfold KV_get, try_catch. cbv zeta.
  destruct (KV w !! apiKey) as [info|]; unfold renew_or_reuse.
  - rewrite bind_run. unfold Date_now.
    change (now (record (KVGet apiKey) w)) with (now w).
    destruct (TokenInfo.expiresAt info - 300000 <=? now w)%Z; [|reflexivity].
    rewrite store_and_return, refreshToken_run. cbv zeta.
    destruct (ok (answer (Refresh apiKey (TokenInfo.refreshToken info))
                    (record (KVGet apiKey) w))); [reflexivity|].
    unfold on_error. rewrite refresh_failure_has_marker.
    apply register_and_store_run.
  - rewrite store_and_return, registerUser_run. cbv zeta.
    destruct (ok (answer (SignUp apiKey) (record (KVGet apiKey) w))); [reflexivity|].
    unfold on_error. rewrite register_failure_marker.
    destruct (includes refresh_marker _); [|reflexivity].
    apply register_and_store_run.
Qed.


Ltac world_simpl :=
  cbn [log KV now provider record tick store put fetched fst snd] in *.

(** C8.  Every invocation reads the store once and writes it at most
    once.  When the cached record is good for more than 300000 ms, the
    read is all that happens: no call to the identity provider, no write,
    the store as it was, and the cached token returned. *)
Theorem getValidToken_store_accesses (w : world) (apiKey : jstring) :
  exists es,
    log (getValidToken apiKey w).2 = log w ++ es
    /\ count is_read es = 1%nat
    /\ (count is_write es <= 1)%nat
    /\ forall info,
         KV w !! apiKey = Some info ->
         (TokenInfo.expiresAt info - now w > 300000)%Z ->
         (getValidToken apiKey w).1 = Returns (TokenInfo.token info)
         /\ es = [KVGet apiKey]
         /\ KV (getValidToken apiKey w).2 = KV w.
Proof.
  rewrite getValidToken_run. cbv zeta.
  destruct (KV w !! apiKey) as [info|] eqn:Hkv.
  - destruct (Z.leb_spec (TokenInfo.expiresAt info - 300000) (now w)) as [Hs|Hf].
    + unfold register_and_store.
      destruct (ok (answer (Refresh apiKey _) _)); [|destruct (ok (answer (SignUp apiKey) _))];
        world_simpl; rewrite <- ?app_assoc;
        (eexists; split; [reflexivity|]); (split; [reflexivity|]);
        (split; [cbv; lia|]); intros info' [= <-] Hfresh; lia.
    + world_simpl. exists [KVGet apiKey].
      split; [reflexivity|]. split; [reflexivity|]. split; [cbv; lia|].
      intros info' [= <-] _. auto.
  - unfold register_and_store.
    destruct (ok (answer (SignUp apiKey) _));
      [|destruct (includes refresh_marker _); [destruct (ok (answer (SignUp apiKey) _))|]];
      world_simpl; rewrite <- ?app_assoc;
      (eexists; split; [reflexivity|]); (split; [reflexivity|]);
      (split; [cbv; lia|]); intros info' Hf; discriminate Hf.
Qed.


(** C6.  When the cached record expires within 300000 ms, exactly one
    refresh call is made.  If the provider refuses it, exactly one
    registration call follows; if that succeeds, the store holds the
    record made from its answer and the token of that record is returned;
    if it fails too, its failure is thrown to the caller and the store is
    as it was. *)
Theorem getValidToken_stale (w : world) (apiKey : jstring) (info : TokenInfo.t) :
  KV w !! apiKey = Some info ->
  (TokenInfo.expiresAt info - now w <= 300000)%Z ->
  let refresh := Refresh apiKey (TokenInfo.refreshToken info) in
  let w0 := record (KVGet apiKey) w in
  let r1 := answer refresh w0 in
  let w1 := fetched refresh w0 in
  let r2 := answer (SignUp apiKey) w1 in
  let w2 := fetched (SignUp apiKey) w1 in
  let registered := token_info r2 (now w2) in
  let result := (getValidToken apiKey w).1 in
  let w' := (getValidToken apiKey w).2 in
  exists es,
    log w' = log w ++ es
    /\ count is_refresh es = 1%nat
    /\ (ok r1 = true -> count is_signup es = 0%nat)
    /\ (ok r1 = false ->
        count is_signup es = 1%nat
        /\ (ok r2 = true ->
            es = [KVGet apiKey; Fetch refresh; Fetch (SignUp apiKey);
                  KVPut apiKey registered]
            /\ KV w' = <[apiKey := registered]> (KV w)
            /\ result = Returns (TokenInfo.token registered))
        /\ (ok r2 = false ->
            es = [KVGet apiKey; Fetch refresh; Fetch (SignUp apiKey)]
            /\ KV w' = KV w
            /\ result = Throws (register_failed ++ statusText r2))).
Proof.
  intros Hkv Hstale. cbv zeta. rewrite getValidToken_run, Hkv. cbv zeta.
  destruct (Z.leb_spec (TokenInfo.expiresAt info - 300000) (now w)) as [_|Hf]; [|lia].
  unfold register_and_store.
  destruct (ok (answer (Refresh apiKey _) _)) eqn:E1;
    [|destruct (ok (answer (SignUp apiKey) _)) eqn:E2];
    world_simpl; rewrite <- ?app_assoc;
    (eexists; split; [reflexivity|]); (split; [reflexivity|]).
  - split; [reflexivity|]. intros Hf. discriminate Hf.
  - split; [intros Hf; discriminate Hf|]. intros _. split; [reflexivity|].
    split; [|intros Hf; discriminate Hf]. intros _. auto.
  - split; [intros Hf; discriminate Hf|]. intros _. split; [reflexivity|].
    split; [intros Hf; discriminate Hf|]. intros _. auto.
Qed.

(** A refused registration on a first use is thrown to the caller as it
    is, after the one call, when its status text does not contain
    [Failed to refresh token]. *)
Lemma registration_refusal_propagates (w : world) (apiKey : jstring) :
  KV w !! apiKey = None ->
  let w0 := record (KVGet apiKey) w in
  let r1 := answer (SignUp apiKey) w0 in
  ok r1 = false ->
  includes refresh_marker (statusText r1) = false ->
  getValidToken apiKey w
  = (Throws (register_failed ++ statusText r1), fetched (SignUp apiKey) w0).
Proof.
  intros Hkv w0 r1 Hok Hm. rewrite getValidToken_run, Hkv. cbv zeta.
  fold w0. fold r1. rewrite Hok, Hm. reflexivity.
Qed.

(** C7 (fails on the code).  On a first use no refresh is
    attempted.  Yet when the provider refuses the registration with a
    status text that contains [Failed to refresh token], the handler
    takes the error for a failed refresh and registers a second time:
    the refusal does not reach the caller, and what the invocation
    returns or throws is the outcome of the second registration alone.
    The handler tells the errors apart by [error.message.includes], not
    by what was attempted. *)
Theorem registration_refusal_taken_for_refresh (w : world) (apiKey : jstring) :
  KV w !! apiKey = None ->
  let w0 := record (KVGet apiKey) w in
  let r1 := answer (SignUp apiKey) w0 in
  ok r1 = false ->
  includes refresh_marker (statusText r1) = true ->
  let w1 := fetched (SignUp apiKey) w0 in
  let r2 := answer (SignUp apiKey) w1 in
  let w2 := fetched (SignUp apiKey) w1 in
  let info := token_info r2 (now w2) in
  getValidToken apiKey w
  = (if ok r2 then (Returns (id_token r2), put apiKey info w2)
     else (Throws (register_failed ++ statusText r2), w2))
  /\ log (getValidToken apiKey w).2
     = log w ++ [KVGet apiKey; Fetch (SignUp apiKey); Fetch (SignUp apiKey)]
             ++ (if ok r2 then [KVPut apiKey info] else []).
Proof.
  intros Hkv w0 r1 Hok Hm w1 r2 w2 info. rewrite getValidToken_run, Hkv. cbv zeta.
  fold w0. fold r1. rewrite Hok, Hm. unfold register_and_store. cbv zeta.
  fold w1. fold r2. fold w2. fold info.
  destruct (ok r2); (split; [reflexivity|]); subst info w2 w1 w0; world_simpl;
    rewrite <- ?app_assoc; reflexivity.
Qed.


Lemma getValidToken_store_accesses_witness :
  (getValidToken sample_key fresh_world).1 = Returns (js "access-0")
  /\ log (getValidToken sample_key fresh_world).2 = [KVGet sample_key]
  /\ KV (getValidToken sample_key fresh_world).2 = KV fresh_world.
Proof.
  destruct (getValidToken_store_accesses fresh_world sample_key)
    as (es & Hlog & _ & _ & Hfresh).
  destruct (Hfresh (sample_info 1600000)) as (Hres & Hes & Hkv).
  - vm_compute. reflexivity.
  - vm_compute. reflexivity.
  - rewrite Hlog, Hes. auto.
Defined.

Lemma getValidToken_stale_witness :
  exists es,
    log (getValidToken sample_key stale_world).2 = log stale_world ++ es
    /\ count is_refresh es = 1%nat
    /\ count is_signup es = 1%nat
    /\ (getValidToken sample_key stale_world).1 = Returns (js "access-2").
Proof.
  destruct (getValidToken_stale stale_world sample_key (sample_info 1200000))
    as (es & Hlog & Hrefresh & _ & Hfail).
  - vm_compute. reflexivity.
  - vm_compute. discriminate.
  - destruct Hfail as (Hsign & Hok & _); [reflexivity|].
    destruct Hok as (_ & _ & Hres); [reflexivity|].
    exists es. auto.
Defined.

Lemma registration_refusal_taken_for_refresh_witness :
  getValidToken sample_key (first_use_world refresh_marker)
  = (Throws (js "Failed to register user: Failed to refresh token"),
     fetched (SignUp sample_key)
       (fetched (SignUp sample_key)
          (record (KVGet sample_key) (first_use_world refresh_marker))))
  /\ log (getValidToken sample_key (first_use_world refresh_marker)).2
     = [KVGet sample_key; Fetch (SignUp sample_key); Fetch (SignUp sample_key)].
Proof.
  apply (registration_refusal_taken_for_refresh (first_use_world refresh_marker)
           sample_key); vm_compute; reflexivity.
Defined.

(** The same on a sample world: no record, no refresh call, and two
    registration calls for one refusal. *)
Lemma registration_failure_triggers_fallback :
  KV (first_use_world refresh_marker) !! sample_key = None
  /\ ok (answer (SignUp sample_key)
           (record (KVGet sample_key) (first_use_world refresh_marker))) = false
  /\ log (getValidToken sample_key (first_use_world refresh_marker)).2
     = [KVGet sample_key; Fetch (SignUp sample_key); Fetch (SignUp sample_key)]
  /\ count is_refresh (log (getValidToken sample_key (first_use_world refresh_marker)).2)
     = 0%nat.
Proof. repeat split; vm_compute; reflexivity. Qed.

End TokenLifecycle.

(* ===================================================================== *)
(** ** Token management: what one invocation leaves behind *)
(* ===================================================================== *)

Section TokenPaths.
Import JS Token Samples Scenarios.

Ltac world_simpl :=
  cbn [log KV now provider record tick store put fetched fst snd] in *.

Ltac by_computation := vm_compute; reflexivity.

(** X1.  On a first use (no record under the key) with a provider that
    accepts the registration, [getValidToken] returns the token of the
    answer, after exactly one store read, one sign-up call and one store
    write; the record written expires [expiresIn] seconds after the
    answer arrived. *)
Theorem first_use_registers_once (w : world) (apiKey : jstring) :
  KV w !! apiKey = None ->
  let r := answer (SignUp apiKey) (record (KVGet apiKey) w) in
  ok r = true ->
  let info := token_info r (now w + elapsed r) in
  (getValidToken apiKey w).1 = Returns (id_token r)
  /\ log (getValidToken apiKey w).2
     = log w ++ [KVGet apiKey; Fetch (SignUp apiKey); KVPut apiKey info]
  /\ KV (getValidToken apiKey w).2 = <[apiKey := info]> (KV w).
Proof.
  intros Hkv r Hok info. rewrite getValidToken_run, Hkv. cbv zeta.
  fold r. rewrite Hok. world_simpl. subst info r.
  rewrite <- !app_assoc. repeat split; reflexivity.
Qed.

Lemma first_use_registers_once_witness :
  (getValidToken sample_key new_client_world).1 = Returns (js "access-1")
  /\ log (getValidToken sample_key new_client_world).2
     = [KVGet sample_key; Fetch (SignUp sample_key);
        KVPut sample_key new_client_info]
  /\ KV (getValidToken sample_key new_client_world).2
     = <[sample_key := new_client_info]> ∅.
Proof.
  apply (first_use_registers_once new_client_world sample_key); by_computation.
Defined.

(** The token returned is the token of the record under the key. *)
Lemma token_in_store (w w' : world) (apiKey t : jstring) :
  getValidToken apiKey w = (Returns t, w') ->
  exists info, KV w' !! apiKey = Some info /\ TokenInfo.token info = t.
Proof.
  rewrite getValidToken_run. cbv zeta. unfold register_and_store.
  destruct (KV w !! apiKey) as [info|] eqn:Hkv.
  - destruct (TokenInfo.expiresAt info - 300000 <=? now w)%Z.
    + destruct (ok (answer (Refresh apiKey _) _));
        [|destruct (ok (answer (SignUp apiKey) _))];
        intros [= <- <-]; world_simpl;
        (eexists; split; [apply lookup_insert_eq|reflexivity]).
    + intros [= <- <-]. world_simpl. eauto.
  - destruct (ok (answer (SignUp apiKey) _));
      [|destruct (includes refresh_marker _);
        [destruct (ok (answer (SignUp apiKey) _))|]];
      intros [= <- <-]; world_simpl;
      (eexists; split; [apply lookup_insert_eq|reflexivity]).
Qed.

(** X2.  Whenever [getValidToken] returns a token, the store holds a
    record under the key with that token: the record that was found
    there, after nothing but the read, or a record whose write is the
    last effect. *)
Theorem returned_token_is_stored (w w' : world) (apiKey t : jstring) :
  getValidToken apiKey w = (Returns t, w') ->
  exists info,
    KV w' !! apiKey = Some info
    /\ TokenInfo.token info = t
    /\ ((KV w !! apiKey = Some info /\ log w' = log w ++ [KVGet apiKey])
        \/ last (log w') = Some (KVPut apiKey info)).
Proof.
  rewrite getValidToken_run. cbv zeta. unfold register_and_store.
  destruct (KV w !! apiKey) as [info|] eqn:Hkv.
  - destruct (TokenInfo.expiresAt info - 300000 <=? now w)%Z.
    + destruct (ok (answer (Refresh apiKey _) _));
        [|destruct (ok (answer (SignUp apiKey) _))];
        intros [= <- <-]; world_simpl;
        (eexists; split; [apply lookup_insert_eq|]; split; [reflexivity|]);
        right; apply last_snoc.
    + intros [= <- <-]. world_simpl. exists info. auto.
  - destruct (ok (answer (SignUp apiKey) _));
      [|destruct (includes refresh_marker _);
        [destruct (ok (answer (SignUp apiKey) _))|]];
      intros [= <- <-]; world_simpl;
      (eexists; split; [apply lookup_insert_eq|]; split; [reflexivity|]);
      right; apply last_snoc.
Qed.

Lemma returned_token_is_stored_witness :
  exists info,
    KV (getValidToken sample_key stale_world).2 !! sample_key = Some info
    /\ TokenInfo.token info = js "access-2"
    /\ ((KV stale_world !! sample_key = Some info
         /\ log (getValidToken sample_key stale_world).2
            = log stale_world ++ [KVGet sample_key])
        \/ last (log (getValidToken sample_key stale_world).2)
           = Some (KVPut sample_key info)).
Proof.
  apply (returned_token_is_stored stale_world _ sample_key (js "access-2")).
  by_computation.
Defined.

(** X3.  One invocation leaves the records of all other keys alone. *)
Theorem other_keys_untouched (w : world) (apiKey other : jstring) :
  other ≠ apiKey ->
  KV (getValidToken apiKey w).2 !! other = KV w !! other.
Proof.
  intros Hne. rewrite getValidToken_run. cbv zeta. unfold register_and_store.
  destruct (KV w !! apiKey) as [info|] eqn:Hkv.
  - destruct (TokenInfo.expiresAt info - 300000 <=? now w)%Z.
    + destruct (ok (answer (Refresh apiKey _) _));
        [|destruct (ok (answer (SignUp apiKey) _))];
        world_simpl; rewrite ?lookup_insert_ne by congruence; reflexivity.
    + reflexivity.
  - destruct (ok (answer (SignUp apiKey) _));
      [|destruct (includes refresh_marker _);
        [destruct (ok (answer (SignUp apiKey) _))|]];
      world_simpl; rewrite ?lookup_insert_ne by congruence; reflexivity.
Qed.

Lemma other_keys_untouched_witness :
  KV (getValidToken other_key fresh_world).2 !! sample_key
  = KV fresh_world !! sample_key.
Proof.
  apply (other_keys_untouched fresh_world other_key sample_key).
  vm_compute. discriminate.
Defined.

(** X5.  A second call, made while the record the first call left has
    more than the margin of five minutes to live, calls nobody, writes
    nothing and returns the same token. *)
Theorem second_call_reuses_token (w w1 : world) (apiKey t : jstring) :
  getValidToken apiKey w = (Returns t, w1) ->
  (forall info, KV w1 !! apiKey = Some info ->
                (TokenInfo.expiresAt info - now w1 > 300000)%Z) ->
  getValidToken apiKey w1 = (Returns t, record (KVGet apiKey) w1).
Proof.
  intros H1 Hfresh.
  destruct (token_in_store _ _ _ _ H1) as (info & Hkv & Ht).
  specialize (Hfresh info Hkv).
  rewrite getValidToken_run, Hkv. cbv zeta.
  destruct (Z.leb_spec (TokenInfo.expiresAt info - 300000) (now w1)); [lia|].
  rewrite Ht. reflexivity.
Qed.

Lemma second_call_reuses_token_witness :
  getValidToken sample_key (getValidToken sample_key new_client_world).2
  = (Returns (js "access-1"),
     record (KVGet sample_key) (getValidToken sample_key new_client_world).2).
Proof.
  apply (second_call_reuses_token new_client_world _ sample_key (js "access-1")).
  - by_computation.
  - intros info H. vm_compute in H. injection H as <-. by_computation.
Defined.

(** The store read is the first effect of an invocation. *)
Lemma store_read_comes_first (w : world) (apiKey : jstring) :
  exists es, log (getValidToken apiKey w).2 = log w ++ KVGet apiKey :: es.
Proof.
  rewrite getValidToken_run. cbv zeta. unfold register_and_store.
  destruct (KV w !! apiKey) as [info|] eqn:Hkv.
  - destruct (TokenInfo.expiresAt info - 300000 <=? now w)%Z.
    + destruct (ok (answer (Refresh apiKey _) _));
        [|destruct (ok (answer (SignUp apiKey) _))];
        world_simpl; rewrite <- ?app_assoc; eexists; reflexivity.
    + world_simpl. exists []. reflexivity.
  - destruct (ok (answer (SignUp apiKey) _));
      [|destruct (includes refresh_marker _);
        [destruct (ok (answer (SignUp apiKey) _))|]];
      world_simpl; rewrite <- ?app_assoc; eexists; reflexivity.
Qed.

(** X6.  The effects of one invocation of [getValidToken], in order: the
    store read, then nothing, or one call to the provider, or a refused
    call and the registration that follows it; the store is written at
    most once, as the last effect, under the client's key. *)
Theorem effects_are_well_shaped (w : world) (apiKey : jstring) :
  exists es,
    log (getValidToken apiKey w).2 = log w ++ KVGet apiKey :: es
    /\ Trace.well_shaped apiKey es.
Proof.
  rewrite getValidToken_run. cbv zeta. unfold register_and_store, Trace.well_shaped.
  destruct (KV w !! apiKey) as [info|] eqn:Hkv.
  - destruct (TokenInfo.expiresAt info - 300000 <=? now w)%Z.
    + destruct (ok (answer (Refresh apiKey _) _));
        [|destruct (ok (answer (SignUp apiKey) _))];
        world_simpl; rewrite <- ?app_assoc; (eexists; split; [reflexivity|]);
        eauto 10.
    + world_simpl. exists []. auto.
  - destruct (ok (answer (SignUp apiKey) _));
      [|destruct (includes refresh_marker _);
        [destruct (ok (answer (SignUp apiKey) _))|]];
      world_simpl; rewrite <- ?app_assoc; (eexists; split; [reflexivity|]);
      eauto 10.
Qed.

End TokenPaths.

(* ===================================================================== *)
(** ** Token management: what reaches the caller as an error *)
(* ===================================================================== *)

Section Rejections.
Import JS Token Samples Scenarios.

Lemma fbind_run {A B} (m : Faulty.FM A) (k : A -> Faulty.FM B) (s : Faulty.state) :
  (x ← m; k x) s
  = match m s with
    | (Returns a, s') => k a s'
    | (Throws e, s') => (Throws e, s')
    end.
Proof. reflexivity. Qed.

(** An await throws nothing but its rejection, and leaves the store
    alone when it throws, provided the change [g] does. *)
Lemma awaiting_thrown {A} (point : Faulty.await) (a : world -> A)
    (f g : world -> world) (s s' : Faulty.state) (o : outcome A) :
  (forall w, KV (g w) = KV w) ->
  Faulty.awaiting point a f g s = (o, s') ->
  Faulty.rejection s' = Faulty.rejection s
  /\ Faulty.thrown (fun m => Faulty.rejects_with (Faulty.rejection s) m
                              /\ KV (Faulty.base s') = KV (Faulty.base s)) o
  /\ (forall x, o = Returns x -> s' = Faulty.on f s).
Proof.
  intros Hg. unfold Faulty.awaiting, Faulty.rejected.
  destruct (Faulty.rejection s _ point) as [m|] eqn:E; intros [= <- <-].
  - split; [reflexivity|]. split; [|intros x Hf; discriminate Hf].
    split; [exists (log (Faulty.base s)), point; exact E|apply Hg].
  - split; [reflexivity|]. split; [exact I|]. reflexivity.
Qed.

Lemma fetch_thrown (req : request) (s s' : Faulty.state) (o : outcome response) :
  Faulty.fetch req s = (o, s') ->
  Faulty.rejection s' = Faulty.rejection s
  /\ Faulty.thrown (fun m => Faulty.rejects_with (Faulty.rejection s) m
                              /\ KV (Faulty.base s') = KV (Faulty.base s)) o
  /\ (forall x, o = Returns x -> s' = Faulty.on (fetched req) s).
Proof.
  intros H.
  exact (awaiting_thrown (Faulty.fetch_await req) (answer req) (fetched req)
           (fetched req) s s' o (fun w => eq_refl) H).
Qed.

Lemma json_thrown (req : request) (s s' : Faulty.state) (o : outcome unit) :
  Faulty.json req s = (o, s') ->
  Faulty.rejection s' = Faulty.rejection s
  /\ Faulty.thrown (fun m => Faulty.rejects_with (Faulty.rejection s) m
                              /\ KV (Faulty.base s') = KV (Faulty.base s)) o
  /\ (forall x, o = Returns x -> s' = Faulty.on (fun w => w) s).
Proof.
  intros H.
  exact (awaiting_thrown (Faulty.json_await req) (fun _ => ()) (fun w => w)
           (fun w => w) s s' o (fun w => eq_refl) H).
Qed.

Lemma put_thrown (key : jstring) (value : TokenInfo.t) (s s' : Faulty.state)
    (o : outcome unit) :
  Faulty.KV_put key value s = (o, s') ->
  Faulty.rejection s' = Faulty.rejection s
  /\ Faulty.thrown (fun m => Faulty.rejects_with (Faulty.rejection s) m
                              /\ KV (Faulty.base s') = KV (Faulty.base s)) o
  /\ (forall x, o = Returns x -> s' = Faulty.on (put key value) s).
Proof.
  intros H.
  exact (awaiting_thrown (Faulty.KV_put_await key) (fun _ => ()) (put key value)
           (fun w => w) s s' o (fun w => eq_refl) H).
Qed.

Lemma get_thrown (key : jstring) (s s' : Faulty.state)
    (o : outcome (option TokenInfo.t)) :
  Faulty.KV_get key s = (o, s') ->
  Faulty.rejection s' = Faulty.rejection s
  /\ Faulty.thrown (fun m => Faulty.rejects_with (Faulty.rejection s) m
                              /\ KV (Faulty.base s') = KV (Faulty.base s)) o
  /\ (forall x, o = Returns x -> s' = Faulty.on (record (KVGet key)) s).
Proof.
  intros H.
  exact (awaiting_thrown (Faulty.KV_get_await key) (fun w => KV w !! key)
           (record (KVGet key)) (record (KVGet key)) s s' o (fun w => eq_refl) H).
Qed.

(** A call to the provider with the check of [response.ok] and
    [response.json()]: it throws the refusal, with the text [failed] in
    front of the status text, or a rejection; the store is left alone. *)
Lemma call_thrown (req : request) (failed : jstring) (s s' : Faulty.state)
    (o : outcome TokenInfo.t) :
  (response ← Faulty.fetch req;
   if negb (ok response)
   then Faulty.throw (failed ++ statusText response)
   else _ ← Faulty.json req; t ← Faulty.Date_now;
        mret (token_info response t)) s = (o, s') ->
  Faulty.rejection s' = Faulty.rejection s
  /\ KV (Faulty.base s') = KV (Faulty.base s)
  /\ Faulty.thrown (fun m => (exists st, m = failed ++ st)
                              \/ Faulty.rejects_with (Faulty.rejection s) m) o.
Proof.
  rewrite fbind_run.
  destruct (Faulty.fetch req s) as [[response|m] s1] eqn:E1.
  - destruct (fetch_thrown _ _ _ _ E1) as (R1 & _ & S1).
    rewrite (S1 _ eq_refl) in *. clear S1.
    destruct (ok response); cbn [negb].
    + rewrite fbind_run.
      destruct (Faulty.json req _) as [[[]|m] s2] eqn:E2.
      * destruct (json_thrown _ _ _ _ E2) as (R2 & _ & S2).
        rewrite (S2 _ eq_refl) in *. intros [= <- <-].
        split; [exact R1|]. split; [reflexivity|exact I].
      * destruct (json_thrown _ _ _ _ E2) as (R2 & [T2 K2] & _).
        intros [= <- <-]. split; [congruence|]. split; [exact K2|].
        right. rewrite R1 in T2. exact T2.
    + intros [= <- <-]. split; [reflexivity|]. split; [reflexivity|].
      left. eauto.
  - destruct (fetch_thrown _ _ _ _ E1) as (R1 & [T1 K1] & _).
    intros [= <- <-]. split; [exact R1|]. split; [exact K1|]. right. exact T1.
Qed.

(** Registering or refreshing, storing the record and returning its
    token: when this throws, the store is as it was. *)
Lemma store_thrown (apiKey failed : jstring) (m : Faulty.FM TokenInfo.t)
    (s s' : Faulty.state) (o : outcome jstring) :
  (forall s0 s1 o1, m s0 = (o1, s1) ->
     Faulty.rejection s1 = Faulty.rejection s0
     /\ KV (Faulty.base s1) = KV (Faulty.base s0)
     /\ Faulty.thrown (fun m => (exists st, m = failed ++ st)
                                 \/ Faulty.rejects_with (Faulty.rejection s0) m) o1) ->
  (newTokenInfo ← m; _ ← Faulty.KV_put apiKey newTokenInfo;
   mret (TokenInfo.token newTokenInfo)) s = (o, s') ->
  Faulty.rejection s' = Faulty.rejection s
  /\ Faulty.thrown (fun m => ((exists st, m = failed ++ st)
                               \/ Faulty.rejects_with (Faulty.rejection s) m)
                              /\ KV (Faulty.base s') = KV (Faulty.base s)) o.
Proof.
  intros Hm. rewrite fbind_run.
  destruct (m s) as [[info|e] s1] eqn:E1; destruct (Hm _ _ _ E1) as (R1 & K1 & T1).
  - rewrite fbind_run.
    destruct (Faulty.KV_put apiKey info s1) as [[[]|e] s2] eqn:E2;
      destruct (put_thrown _ _ _ _ _ E2) as (R2 & T2 & S2);
      intros [= <- <-].
    + split; [congruence|exact I].
    + split; [congruence|]. destruct T2 as [T2 K2]. split; [|congruence].
      right. rewrite R1 in T2. exact T2.
  - intros [= <- <-]. split; [exact R1|]. split; [exact T1|exact K1].
Qed.

Lemma register_and_store_thrown (apiKey : jstring) (s s' : Faulty.state)
    (o : outcome jstring) :
  (newTokenInfo ← Faulty.registerUser apiKey;
   _ ← Faulty.KV_put apiKey newTokenInfo;
   mret (TokenInfo.token newTokenInfo)) s = (o, s') ->
  Faulty.rejection s' = Faulty.rejection s
  /\ Faulty.thrown (fun m => ((exists st, m = register_failed ++ st)
                              \/ Faulty.rejects_with (Faulty.rejection s) m)
                             /\ KV (Faulty.base s') = KV (Faulty.base s)) o.
Proof.
  apply store_thrown. intros s0 s1 o1. apply call_thrown.
Qed.

(** X4.  What [getValidToken] throws at its caller is a refused
    registration ([Failed to register user: ...]), thrown with the store
    as it was, or else the failure of one of its awaits (the store, the
    provider, reading the provider's answer).  The error of a refused
    refresh is always answered by a registration and never reaches the
    caller. *)
Theorem thrown_error_is_registration_or_rejection (apiKey message : jstring)
    (s s' : Faulty.state) :
  Faulty.getValidToken apiKey s = (Throws message, s') ->
  ((exists st, message = register_failed ++ st)
   /\ KV (Faulty.base s') = KV (Faulty.base s))
  \/ Faulty.rejects_with (Faulty.rejection s) message.
Proof.
  unfold Faulty.getValidToken. rewrite fbind_run.
  destruct (Faulty.KV_get apiKey s) as [[tokenInfo|m] s0] eqn:E0;
    destruct (get_thrown _ _ _ _ E0) as (R0 & T0 & S0).
  2:{ intros [= <- <-]. destruct T0 as [T0 K0]. right. exact T0. }
  rewrite (S0 _ eq_refl) in *. clear S0 E0 R0 T0.
  set (s0' := Faulty.on (record (KVGet apiKey)) s).
  change (Faulty.rejection s) with (Faulty.rejection s0').
  change (KV (Faulty.base s)) with (KV (Faulty.base s0')).
  generalize s0'. clear s s0'. intros s.
  unfold Faulty.try_catch.
  assert (Hbody : forall o s1,
             Faulty.renew_or_reuse apiKey tokenInfo s = (o, s1) ->
             Faulty.rejection s1 = Faulty.rejection s
             /\ Faulty.thrown
                  (fun m => ((exists st, m = register_failed ++ st)
                             \/ (exists st, m = refresh_failed ++ st)
                             \/ Faulty.rejects_with (Faulty.rejection s) m)
                            /\ KV (Faulty.base s1) = KV (Faulty.base s)) o).
  { intros o s1. unfold Faulty.renew_or_reuse. destruct tokenInfo as [info|].
    - rewrite fbind_run. unfold Faulty.Date_now.
      destruct (_ <=? _)%Z.
      + intros H.
        destruct (store_thrown apiKey refresh_failed _ s s1 o
                    (fun s0 s1 o1 => call_thrown _ refresh_failed s0 s1 o1) H)
          as (R & T).
        split; [exact R|]. destruct o as [t|m]; [exact I|].
        cbn [Faulty.thrown] in *. destruct T as [[T|T] K]; auto.
      + intros [= <- <-]. split; [reflexivity|exact I].
    - intros H. destruct (register_and_store_thrown _ _ _ _ H) as (R & T).
      split; [exact R|]. destruct o as [t|m]; [exact I|].
      cbn [Faulty.thrown] in *. destruct T as [[T|T] K]; auto. }
  destruct (Faulty.renew_or_reuse apiKey tokenInfo s) as [[t|m] s1] eqn:E1;
    [discriminate|].
  destruct (Hbody _ _ eq_refl) as (R1 & T1 & K1). cbn [Faulty.thrown] in T1.
  unfold Faulty.on_error.
  destruct (includes refresh_marker m) eqn:Em.
  - intros H. destruct (register_and_store_thrown _ _ _ _ H) as (R & [T K]).
    rewrite R1 in T. destruct T as [T|T]; [left|right; exact T].
    split; [exact T|congruence].
  - intros [= <- <-]. destruct T1 as [T1|[[st ->]|T1]]; auto.
    rewrite refresh_failure_has_marker in Em. discriminate Em.
Qed.

(** Where nothing rejects, [Faulty.getValidToken] is [getValidToken]. *)
Lemma reliable_getValidToken (apiKey : jstring) (w : world) :
  Faulty.getValidToken apiKey (Faulty.reliable w)
  = ((getValidToken apiKey w).1, Faulty.reliable (getValidToken apiKey w).2).
Proof.
  assert (Hreg : forall w0,
             (newTokenInfo ← Faulty.registerUser apiKey;
              _ ← Faulty.KV_put apiKey newTokenInfo;
              mret (TokenInfo.token newTokenInfo)) (Faulty.reliable w0)
             = ((register_and_store apiKey w0).1,
                Faulty.reliable (register_and_store apiKey w0).2)).
  { intros w0. unfold register_and_store, Faulty.registerUser.
    rewrite !fbind_run.
    change (Faulty.fetch (SignUp apiKey) (Faulty.reliable w0))
      with (Returns (answer (SignUp apiKey) w0),
            Faulty.reliable (fetched (SignUp apiKey) w0)).
    cbv zeta. destruct (ok (answer (SignUp apiKey) w0)) eqn:E; rewrite ?E;
      reflexivity. }
  rewrite getValidToken_run. cbv zeta.
  unfold Faulty.getValidToken. rewrite fbind_run.
  change (Faulty.KV_get apiKey (Faulty.reliable w))
    with (Returns (KV w !! apiKey), Faulty.reliable (record (KVGet apiKey) w)).
  unfold Faulty.try_catch, Faulty.renew_or_reuse.
  destruct (KV w !! apiKey) as [info|].
  - rewrite fbind_run.
    change (Faulty.Date_now (Faulty.reliable (record (KVGet apiKey) w)))
      with (Returns (now w), Faulty.reliable (record (KVGet apiKey) w)).
    destruct (TokenInfo.expiresAt info - 300000 <=? now w)%Z eqn:Es;
      cbv beta; rewrite ?Es; [|reflexivity].
    unfold Faulty.refreshToken. rewrite !fbind_run.
    change (Faulty.fetch (Refresh apiKey (TokenInfo.refreshToken info))
              (Faulty.reliable (record (KVGet apiKey) w)))
      with (Returns (answer (Refresh apiKey (TokenInfo.refreshToken info))
                       (record (KVGet apiKey) w)),
            Faulty.reliable (fetched (Refresh apiKey (TokenInfo.refreshToken info))
                               (record (KVGet apiKey) w))).
    destruct (ok (answer (Refresh apiKey (TokenInfo.refreshToken info))
                    (record (KVGet apiKey) w))) eqn:E; rewrite ?E; [reflexivity|].
    cbn [negb]. unfold Faulty.throw, Faulty.on_error.
    rewrite refresh_failure_has_marker. apply Hreg.
  - rewrite Hreg. unfold register_and_store. cbv zeta.
    destruct (ok (answer (SignUp apiKey) (record (KVGet apiKey) w))) eqn:E;
      rewrite ?E; [reflexivity|].
    cbn [fst snd]. unfold Faulty.on_error. rewrite register_failure_marker.
    destruct (includes refresh_marker _); [|reflexivity].
    rewrite Hreg. reflexivity.
Qed.

Lemma thrown_error_is_registration_or_rejection_witness :
  ((exists st, network_down = register_failed ++ st)
   /\ KV (Faulty.base (Faulty.getValidToken sample_key offline_state).2)
      = KV (Faulty.base offline_state))
  \/ Faulty.rejects_with (Faulty.rejection offline_state) network_down.
Proof.
  apply (thrown_error_is_registration_or_rejection sample_key network_down
           offline_state).
  vm_compute. reflexivity.
Defined.

End Rejections.


(* ===================================================================== *)
(** ** The transcoders on whole streams *)
(* ===================================================================== *)

Section Rechunking.
Import JS Payload Samples Scenarios Lines.

Ltac by_computation := vm_compute; reflexivity.

(** A property of every element, checked by a boolean test. *)
Lemma Forall_by_test {A} (P : A -> Prop) (test : A -> bool) (l : list A) :
  (forall x, test x = true -> P x) -> forallb test l = true -> Forall P l.
Proof.
  intros H. induction l as [|x l IH]; [constructor|].
  simpl. intros Hl. apply andb_prop in Hl as [Hx Hl]. constructor; auto.
Qed.

Lemma no_stop_by_test (lines : list jstring) :
  forallb (fun l => negb (stops l)) lines = true ->
  Forall (fun l => stops l = false) lines.
Proof.
  apply Forall_by_test. intros l H. apply negb_true_iff. exact H.
Qed.

Lemma no_lf_by_test (lines : list jstring) :
  forallb (forallb (fun c => negb (c =? 10))) lines = true ->
  Forall (Forall (fun c => c ≠ 10)) lines.
Proof.
  apply Forall_by_test. intros l. apply Forall_by_test.
  intros c H. apply negb_true_iff, N.eqb_neq in H. exact H.
Qed.


Lemma split_lf_nonempty (s : jstring) : split_lf s ≠ [].
Proof.
  destruct s as [|c s]; simpl; [discriminate|].
  destruct (c =? 10); [discriminate|]. destruct (split_lf s); discriminate.
Qed.

Lemma removelast_cons_ne {A} (x : A) (l : list A) :
  l ≠ [] -> removelast (x :: l) = x :: removelast l.
Proof. destruct l; [congruence|reflexivity]. Qed.

Lemma last_cons_ne {A} (x : A) (l : list A) :
  l ≠ [] -> last (x :: l) = last l.
Proof. destruct l; [congruence|reflexivity]. Qed.

(** Splitting a text that comes in two pieces. *)
Lemma split_lf_app (s t : jstring) :
  split_lf (s ++ t)
  = complete_lines s ++ split_lf (partial_line s ++ t).
Proof.
  unfold complete_lines, partial_line.
  induction s as [|c s IH]; [reflexivity|].
  pose proof (split_lf_nonempty s) as Hs.
  simpl. destruct (c =? 10) eqn:Ec.
  - rewrite removelast_cons_ne, last_cons_ne by assumption.
    rewrite IH. reflexivity.
  - rewrite IH. destruct (split_lf s) as [|l [|l' ls]]; [congruence| |].
    + simpl. rewrite Ec. destruct (split_lf (l ++ t)) eqn:E; [|reflexivity].
      exfalso. exact (split_lf_nonempty _ E).
    + reflexivity.
Qed.

Lemma complete_lines_app (s t : jstring) :
  complete_lines (s ++ t) = complete_lines s ++ complete_lines (partial_line s ++ t).
Proof.
  unfold complete_lines at 1. rewrite split_lf_app.
  rewrite removelast_app by apply split_lf_nonempty. reflexivity.
Qed.

Lemma partial_line_app (s t : jstring) :
  partial_line (s ++ t) = partial_line (partial_line s ++ t).
Proof.
  unfold partial_line. rewrite split_lf_app. unfold partial_line.
  rewrite last_app.
  destruct (last (split_lf (default [] (last (split_lf s)) ++ t))) eqn:E;
    [reflexivity|].
  exfalso. apply last_None in E. exact (split_lf_nonempty _ E).
Qed.

Lemma process_lines_app (l1 l2 : list jstring) :
  Forall (fun l => stops l = false) l1 ->
  Worker.process_lines (l1 ++ l2)
  = Worker.process_lines l1 ++ Worker.process_lines l2.
Proof.
  induction 1 as [|line l1 Hl _ IH]; [reflexivity|].
  rewrite <- app_comm_cons, !process_lines_cons, IH.
  unfold stops in Hl.
  destruct (str_eqb (trim line) []) eqn:E1; [reflexivity|].
  destruct (startsWith data_prefix line) eqn:E2; [|reflexivity].
  cbn [negb andb] in Hl |- *.
  destruct (handle_payload (slice 6 line)) as [[out [|]]|e];
    [discriminate Hl| |reflexivity].
  rewrite app_assoc. reflexivity.
Qed.

(** Without a line that stops the handler, what [worker.js] enqueues
    depends on the upstream text alone, not on where it was cut. *)
Lemma run_text (chunks : list jstring) (buffer : jstring) :
  Forall (fun c => c ≠ 10) buffer ->
  Forall (fun l => stops l = false) (complete_lines (buffer ++ concat chunks)) ->
  Worker.run buffer chunks
  = Worker.process_lines (complete_lines (buffer ++ concat chunks))
    ++ Worker.flush (partial_line (buffer ++ concat chunks)).
Proof.
  revert buffer. induction chunks as [|chunk chunks IH]; intros buffer Hb Hstop.
  - simpl. rewrite app_nil_r. unfold complete_lines, partial_line.
    rewrite split_lf_no_newline by assumption. reflexivity.
  - rewrite run_cons. simpl concat in *. rewrite app_assoc in Hstop |- *.
    rewrite (complete_lines_app (buffer ++ chunk)) in Hstop |- *.
    rewrite (partial_line_app (buffer ++ chunk) (concat chunks)).
    apply Forall_app in Hstop as [H1 H2].
    rewrite process_lines_app by assumption.
    change (Worker.transform buffer chunk).1 with (partial_line (buffer ++ chunk)).
    change (Worker.transform buffer chunk).2
      with (Worker.process_lines (complete_lines (buffer ++ chunk))).
    rewrite IH; [rewrite app_assoc; reflexivity| |assumption].
    apply split_lf_last.
Qed.

Lemma transformStream_text (chunks : list jstring) :
  Forall (fun l => stops l = false) (complete_lines (concat chunks)) ->
  Worker.transformStream chunks
  = Worker.process_lines (complete_lines (concat chunks))
    ++ Worker.flush (partial_line (concat chunks)).
Proof.
  intros H. unfold Worker.transformStream.
  rewrite run_text; [reflexivity|constructor|assumption].
Qed.


(** X7.  [transformStream] of [worker.js] does not observe where the
    decoded text it is handed was cut: two sequences of decoded chunks
    with the same concatenation give the same stream, as long as no
    complete line of the text stops the handler (carries the quoted
    sentinel or a truthy [finish_reason]).  The decoder stage before it,
    which decodes chunk by chunk, is not part of the statement. *)
Theorem worker_rechunking (chunks1 chunks2 : list jstring) :
  concat chunks1 = concat chunks2 ->
  Forall (fun l => stops l = false) (complete_lines (concat chunks1)) ->
  Worker.transformStream chunks1 = Worker.transformStream chunks2.
Proof.
  intros Heq H. rewrite !transformStream_text; rewrite <- ?Heq; auto.
Qed.

Lemma worker_rechunking_witness :
  Worker.transformStream [legacy_line ++ LF]
  = Worker.transformStream [legacy_head; legacy_tail ++ LF].
Proof.
  apply (worker_rechunking [legacy_line ++ LF] [legacy_head; legacy_tail ++ LF]).
  - by_computation.
  - apply no_stop_by_test. by_computation.
Defined.

(** *** Whole lines *)

Lemma split_lf_line (l rest : jstring) :
  Forall (fun c => c ≠ 10) l ->
  split_lf (l ++ LF ++ rest) = l :: split_lf rest.
Proof.
  induction 1 as [|c l Hc _ IH]; [reflexivity|].
  simpl. destruct (N.eqb_spec c 10); [contradiction|].
  simpl in IH. rewrite IH. reflexivity.
Qed.

Lemma split_lf_join (lines : list jstring) :
  Forall (Forall (fun c => c ≠ 10)) lines ->
  split_lf (join_lines lines) = lines ++ [[]].
Proof.
  induction 1 as [|l lines Hl _ IH]; [reflexivity|].
  unfold join_lines in *. simpl. rewrite <- app_assoc.
  rewrite split_lf_line by assumption. rewrite IH. reflexivity.
Qed.

Lemma trimStart_keeps_last (xs : jstring) (c : N) :
  is_space c = false -> trimStart (xs ++ [c]) ≠ [].
Proof.
  intros Hc. induction xs as [|x xs IH]; simpl.
  - rewrite Hc. discriminate.
  - destruct (is_space x); [exact IH|discriminate].
Qed.

(** A line that starts with [data: ] is not blank. *)
Lemma data_line_not_blank (line : jstring) :
  startsWith data_prefix line = true -> str_eqb (trim line) [] = false.
Proof.
  intros H. destruct line as [|c line]; [discriminate H|].
  change (startsWith data_prefix (c :: line))
    with ((100 =? c) && startsWith (js "ata: ") line) in H.
  apply andb_prop in H as [Hc _]. apply N.eqb_eq in Hc. subst c.
  apply str_eqb_ne. unfold trim. change (trimStart (100 :: line)) with (100 :: line).
  intros E. apply (f_equal (@rev N)) in E. rewrite rev_involutive in E.
  simpl in E. exact (trimStart_keeps_last (rev line) 100 eq_refl E).
Qed.

Lemma plain_line_step (line e : jstring) (rest : list jstring) :
  plain line e ->
  Worker.process_lines (line :: rest) = e :: Worker.process_lines rest.
Proof.
  intros [Hp Hh]. rewrite process_lines_cons, (data_line_not_blank _ Hp), Hp, Hh.
  reflexivity.
Qed.

Lemma plain_line_no_stop (line e : jstring) : plain line e -> stops line = false.
Proof.
  intros [Hp Hh]. unfold stops. rewrite Hh, andb_false_r. reflexivity.
Qed.

(** X8.  However the upstream text of [n] lines, each a [data: ] line
    whose payload gives one event and does not stop the handler, is cut
    into chunks, [worker.js] enqueues their [n] events in order and then
    [data: [DONE]], and nothing else. *)
Theorem worker_plain_lines (chunks lines events : list jstring) :
  Forall2 plain lines events ->
  Forall (Forall (fun c => c ≠ 10)) lines ->
  concat chunks = join_lines lines ->
  Worker.transformStream chunks = events ++ [DONE_EVENT].
Proof.
  intros Hplain Hlf Htext.
  assert (Hc : complete_lines (concat chunks) = lines).
  { unfold complete_lines. rewrite Htext, split_lf_join by assumption.
    apply removelast_last. }
  assert (Hp : partial_line (concat chunks) = []).
  { unfold partial_line. rewrite Htext, split_lf_join by assumption.
    rewrite last_snoc. reflexivity. }
  rewrite transformStream_text.
  - rewrite Hc, Hp. f_equal. clear -Hplain.
    induction Hplain as [|l e ls es H _ IH]; [reflexivity|].
    rewrite (plain_line_step _ _ _ H), IH. reflexivity.
  - rewrite Hc. clear -Hplain.
    induction Hplain as [|l e ls es H _ IH]; constructor;
      [exact (plain_line_no_stop _ _ H)|exact IH].
Qed.


Lemma worker_plain_lines_witness :
  Worker.transformStream [content_line "a" ++ LF ++ legacy_head; legacy_tail ++ LF]
  = [content_event "a"; legacy_event] ++ [DONE_EVENT].
Proof.
  apply (worker_plain_lines _ [content_line "a"; legacy_line]).
  - repeat constructor; by_computation.
  - apply no_lf_by_test. by_computation.
  - by_computation.
Defined.

(** *** How often [data: [DONE]] is enqueued *)

Lemma parse_step_done (st : list frame * expect) (t : token) stk (v : value) :
  parse_step st t = Some (stk, EDone v) -> plain_top v.
Proof.
  assert (Hc : forall v0 stk0, complete v0 stk0 = Some (stk, EDone v) ->
                               plain_top v0 -> plain_top v).
  { intros v0 [|[| |] stk0]; simpl; intros [= <- <-] H; try discriminate; exact H. }
  assert (Hclose : forall stk0, parse_close t stk0 = Some (stk, EDone v) -> plain_top v).
  { intros stk0 H. unfold parse_close in H.
    destruct t; try discriminate H; destruct stk0 as [|[| |] stk0];
      try discriminate H; apply Hc in H; simpl; auto. }
  assert (Hvalue : forall stk0, parse_value t stk0 = Some (stk, EDone v) -> plain_top v).
  { intros stk0 H. unfold parse_value in H.
    destruct t; try discriminate H; simpl in H; apply Hc in H; simpl; auto. }
  assert (Hkey : forall stk0, parse_key t stk0 = Some (stk, EDone v) -> plain_top v).
  { intros stk0 H. unfold parse_key in H.
    destruct t; try discriminate H; destruct stk0 as [|[| |] stk0]; discriminate H. }
  destruct st as [stk0 e]. unfold parse_step. intros H.
  destruct e.
  - exact (Hvalue _ H).
  - destruct t; first [exact (Hclose _ H)|exact (Hvalue _ H)].
  - destruct t; first [exact (Hclose _ H)|exact (Hkey _ H)].
  - exact (Hkey _ H).
  - destruct t; discriminate H.
  - destruct t; try exact (Hclose _ H).
    destruct stk0 as [|[| |] stk0]; first [discriminate H|exact (Hclose _ H)].
  - discriminate H.
Qed.

Lemma parse_tokens_top (ts : list token) (st : list frame * expect) (v : value) :
  parse_tokens st ts = Some v ->
  st = ([], EDone v) \/ plain_top v.
Proof.
  revert st. induction ts as [|t ts IH]; intros st H; simpl in H.
  - destruct st as [[|f stk] e]; try discriminate H.
    destruct e; try discriminate H. injection H as <-. auto.
  - destruct (parse_step st t) as [st'|] eqn:E; [|discriminate H].
    simpl in H. destruct (IH _ H) as [->|Hv]; [|auto].
    right. exact (parse_step_done _ _ _ _ E).
Qed.

Lemma JSON_parse_top (text : jstring) (v : value) :
  JSON_parse text = Some v -> plain_top v.
Proof.
  unfold JSON_parse. destruct (lex text) as [ts|]; [|discriminate].
  simpl. intros H. destruct (parse_tokens_top _ _ _ H) as [E|Hv]; [discriminate E|exact Hv].
Qed.


Lemma on_choice0_object_shape ps (f : value -> result value) (d : value) :
  on_choice0 (VObj ps) f = Ok d -> exists ps', d = VObj ps'.
Proof.
  unfold on_choice0. cbn [member mbind result_bind].
  destruct (member (prop (VObj ps) k_choices) k_0) as [c0|e]; [|discriminate].
  cbn [mbind result_bind].
  destruct (prop (VObj ps) k_choices) as [cv|]; [|discriminate].
  destruct c0 as [c0v|]; [|discriminate].
  destruct (f c0v) as [c0'|e]; [|discriminate].
  cbn [mbind result_bind put_back]. intros [= <-]. eauto.
Qed.

Lemma normalize_object_shape ps (d : value) :
  normalize (VObj ps) = Ok d -> exists ps', d = VObj ps'.
Proof.
  unfold normalize.
  destruct (ensure_delta (VObj ps)) as [d1|e] eqn:E1; [|discriminate].
  cbn [mbind result_bind]. intros E2.
  assert (H1 : exists ps1, d1 = VObj ps1).
  { unfold ensure_delta in E1. cbn [member mbind result_bind] in E1.
    destruct (is_undefined _) in E1.
    - exact (on_choice0_object_shape _ _ _ E1).
    - injection E1 as <-. eauto. }
  destruct H1 as [ps1 ->].
  unfold text_to_content in E2. cbn [member mbind result_bind] in E2.
  destruct (opt (opt (prop (VObj ps1) k_choices) k_0) k_text) as [text|];
    [|injection E2 as <-; eauto].
  destruct (_ && _) in E2; [|injection E2 as <-; eauto].
  destruct (on_choice0 (VObj ps1) _) as [d2|e] eqn:E3; [|discriminate E2].
  cbn [mbind result_bind] in E2.
  destruct (on_choice0_object_shape _ _ _ E3) as [ps2 ->].
  exact (on_choice0_object_shape _ _ _ E2).
Qed.

(** What is made of a payload that [JSON.parse] accepted is an object. *)
Lemma normalized_payload_is_object (payload : jstring) (data data' : value) :
  JSON_parse payload = Some data ->
  normalize data = Ok data' ->
  exists ps', data' = VObj ps'.
Proof.
  intros Hp Hn. pose proof (JSON_parse_top _ _ Hp) as Htop.
  destruct data as [| | | |es named|ps];
    try (rewrite normalize_throws in Hn by reflexivity; discriminate Hn).
  - simpl in Htop. subst named.
    rewrite normalize_throws in Hn by reflexivity. discriminate Hn.
  - exact (normalize_object_shape _ _ Hn).
Qed.

Lemma object_event_not_DONE ps : event (VObj ps) ≠ DONE_EVENT.
Proof. discriminate. Qed.

(** The chunks one payload can give: the event of an object; that event
    and [data: [DONE]]; or [data: [DONE]] alone. *)
Lemma handle_payload_chunks (payload : jstring) (out : list jstring) (stop : bool) :
  handle_payload payload = Ok (out, stop) ->
  if stop
  then out = [DONE_EVENT] \/ exists e, out = [e; DONE_EVENT] /\ e ≠ DONE_EVENT
  else exists e, out = [e] /\ e ≠ DONE_EVENT.
Proof.
  unfold handle_payload.
  destruct (JSON_parse payload) as [data|] eqn:Hp; [|discriminate].
  destruct (is_sentinel data); [intros [= <- <-]; auto|].
  destruct (normalize data) as [data'|e] eqn:Hn; [|discriminate].
  cbn [mbind result_bind].
  destruct (normalized_payload_is_object _ _ _ Hp Hn) as [ps' ->].
  destruct (truthy _); intros [= <- <-].
  - right. eexists. split; [reflexivity|apply object_event_not_DONE].
  - eexists. split; [reflexivity|apply object_event_not_DONE].
Qed.


Lemma DONE_count_app (a b : list jstring) :
  DONE_count (a ++ b) = (DONE_count a + DONE_count b)%nat.
Proof. unfold DONE_count. rewrite filter_app, length_app. reflexivity. Qed.

Lemma DONE_count_other (e : jstring) : e ≠ DONE_EVENT -> DONE_count [e] = 0%nat.
Proof.
  intros H. unfold DONE_count. rewrite filter_cons.
  destruct (decide (e = DONE_EVENT)); [contradiction|reflexivity].
Qed.

Lemma DONE_count_DONE : DONE_count [DONE_EVENT] = 1%nat.
Proof. reflexivity. Qed.

Lemma process_lines_no_DONE (lines : list jstring) :
  Forall (fun l => stops l = false) lines ->
  DONE_count (Worker.process_lines lines) = 0%nat.
Proof.
  induction 1 as [|line lines Hl _ IH]; [reflexivity|].
  rewrite process_lines_cons. unfold stops in Hl.
  destruct (str_eqb (trim line) []); [exact IH|].
  destruct (startsWith data_prefix line); [|exact IH].
  cbn [negb andb] in Hl |- *.
  destruct (handle_payload (slice 6 line)) as [[out [|]]|e] eqn:E;
    [discriminate Hl| |exact IH].
  apply handle_payload_chunks in E as (e & -> & He).
  rewrite DONE_count_app, IH, DONE_count_other by assumption. reflexivity.
Qed.

Lemma flush_one_DONE (buffer : jstring) :
  DONE_count (Worker.flush buffer) = 1%nat
  /\ last (Worker.flush buffer) = Some DONE_EVENT.
Proof.
  unfold Worker.flush. rewrite DONE_count_app, last_snoc. split; [|reflexivity].
  replace (DONE_count _) with 0%nat; [reflexivity|]. symmetry.
  destruct (negb _); [|reflexivity].
  destruct (startsWith _ _); [|reflexivity].
  destruct (JSON_parse (slice 6 (trim buffer))) as [data|] eqn:Hp; [|reflexivity].
  destruct (negb _); [|reflexivity].
  apply DONE_count_other. intros E.
  change DONE_EVENT with (js "data: [DONE]" ++ LF ++ LF) in E.
  apply app_inv_tail in E. rewrite E in Hp. discriminate Hp.
Qed.

(** X9.  When the upstream closes, so that [flush] runs, the stream of
    [worker.js] ends with [data: [DONE]]; when no complete line of the
    upstream text stops the handler, that is the only [data: [DONE]] of
    the stream. *)
Theorem worker_DONE_last_and_once (chunks : list jstring) :
  last (Worker.transformStream chunks) = Some DONE_EVENT
  /\ (Forall (fun l => stops l = false) (complete_lines (concat chunks)) ->
      DONE_count (Worker.transformStream chunks) = 1%nat).
Proof.
  split.
  - unfold Worker.transformStream. generalize (@nil N) as buffer.
    induction chunks as [|chunk chunks IH]; intros buffer.
    + apply flush_one_DONE.
    + rewrite run_cons, last_app, IH. reflexivity.
  - intros H. rewrite transformStream_text by assumption.
    rewrite DONE_count_app, process_lines_no_DONE by assumption.
    apply flush_one_DONE.
Qed.

Lemma worker_DONE_last_and_once_witness :
  last (Worker.transformStream [content_line "a" ++ LF; legacy_line]) = Some DONE_EVENT
  /\ DONE_count (Worker.transformStream [content_line "a" ++ LF; legacy_line]) = 1%nat.
Proof.
  destruct (worker_DONE_last_and_once [content_line "a" ++ LF; legacy_line])
    as [Hlast Hcount].
  split; [exact Hlast|]. apply Hcount. apply no_stop_by_test. by_computation.
Defined.

Lemma for_lines_DONE (lines out : list jstring) (e : option Deno.ending) :
  Deno.for_lines lines = (out, e) ->
  match e with
  | Some Deno.Closed =>
      DONE_count out = 1%nat /\ last out = Some DONE_EVENT
  | _ => DONE_count out = 0%nat
  end.
Proof.
  revert out e. induction lines as [|line lines IH]; intros out e; simpl.
  - intros [= <- <-]. reflexivity.
  - destruct (str_eqb (trim line) []); [apply IH|].
    destruct (negb _); [apply IH|].
    destruct (handle_payload _) as [[o [|]]|err] eqn:E.
    + intros [= <- <-]. apply handle_payload_chunks in E as [->|(e' & -> & He)].
      * split; reflexivity.
      * change [e'; DONE_EVENT] with ([e'] ++ [DONE_EVENT]).
        rewrite DONE_count_app, DONE_count_other by assumption.
        split; reflexivity.
    + destruct (Deno.for_lines lines) as [out' e'] eqn:E'.
      intros [= <- <-]. apply handle_payload_chunks in E as (ev & -> & Hev).
      specialize (IH _ _ eq_refl).
      rewrite DONE_count_app, DONE_count_other by assumption.
      destruct e' as [[|]|]; try exact IH.
      destruct IH as [IH1 IH2]. split; [exact IH1|].
      rewrite last_app, IH2. reflexivity.
    + intros [= <- <-]. reflexivity.
Qed.

(** X10.  In [main.ts] a stream that is closed after reading a body
    carries [data: [DONE]] exactly once, as its last chunk; a stream that
    is put in error carries none. *)
Theorem deno_DONE_iff_closed (chunks out : list jstring) (e : Deno.ending) :
  Deno.start (Some chunks) = (out, e) ->
  match e with
  | Deno.Closed => DONE_count out = 1%nat /\ last out = Some DONE_EVENT
  | Deno.Errored _ => DONE_count out = 0%nat
  end.
Proof.
  simpl. revert out e. induction chunks as [|chunk chunks IH]; intros out e; simpl.
  - intros [= <- <-]. split; reflexivity.
  - destruct (Deno.for_lines (split_lf chunk)) as [o [e1|]] eqn:E.
    + intros [= <- <-]. apply for_lines_DONE in E. exact E.
    + destruct (Deno.read_loop chunks) as [o' e'].
      intros [= <- <-]. apply for_lines_DONE in E. specialize (IH _ _ eq_refl).
      rewrite DONE_count_app, E. destruct e'; [|exact IH].
      destruct IH as [IH1 IH2]. split; [exact IH1|].
      rewrite last_app, IH2. reflexivity.
Qed.


Lemma deno_DONE_iff_closed_witness :
  DONE_count [content_event "a"; finish_event; DONE_EVENT] = 1%nat
  /\ last [content_event "a"; finish_event; DONE_EVENT] = Some DONE_EVENT.
Proof.
  apply (deno_DONE_iff_closed [content_line "a" ++ LF; finish_line ++ LF;
                               content_line "b"]
           [content_event "a"; finish_event; DONE_EVENT] Deno.Closed).
  by_computation.
Defined.

(** *** Carriage returns *)

Lemma lex_from_CR (s : jstring) (st : lex_state) :
  lex_from st (s ++ [13]) = lex_from st s.
Proof.
  revert st. induction s as [|c s IH]; intros st.
  - destruct st as [|acc|acc|acc hex|acc|acc]; simpl; try reflexivity.
    + destruct (close_number acc); reflexivity.
    + destruct (close_word acc); reflexivity.
  - simpl. destruct (lex_step st c) as [[st' ts]|]; [|reflexivity].
    simpl. rewrite IH. reflexivity.
Qed.

Lemma JSON_parse_CR (text : jstring) : JSON_parse (text ++ [13]) = JSON_parse text.
Proof. unfold JSON_parse, lex. rewrite lex_from_CR. reflexivity. Qed.

Lemma startsWith_length (p s : jstring) :
  startsWith p s = true -> (length p <= length s)%nat.
Proof.
  revert s. induction p as [|a p IH]; intros s H; simpl; [lia|].
  destruct s as [|b s]; [discriminate H|]. simpl in *.
  apply andb_prop in H as [_ H2]. apply IH in H2. lia.
Qed.

(** A code unit that is not in the prefix, added at the end, does not
    change [startsWith]. *)
Lemma startsWith_snoc (p s : jstring) (c : N) :
  Forall (fun a => a ≠ c) p -> startsWith p (s ++ [c]) = startsWith p s.
Proof.
  intros Hp. revert s. induction Hp as [|a p Ha _ IH]; intros s; [reflexivity|].
  destruct s as [|b s]; simpl.
  - destruct (N.eqb_spec a c); [contradiction|reflexivity].
  - rewrite IH. reflexivity.
Qed.

Lemma trimStart_snoc (s : jstring) (c : N) :
  is_space c = true ->
  trimStart (s ++ [c]) = match trimStart s with [] => [] | t => t ++ [c] end.
Proof.
  intros Hc. induction s as [|a s IH]; simpl.
  - rewrite Hc. reflexivity.
  - destruct (is_space a); [exact IH|reflexivity].
Qed.

(** White space at the end of a line is trimmed away. *)
Lemma trim_snoc (s : jstring) (c : N) : is_space c = true -> trim (s ++ [c]) = trim s.
Proof.
  intros Hc. unfold trim. rewrite (trimStart_snoc _ _ Hc).
  destruct (trimStart s) as [|a t]; [reflexivity|].
  rewrite rev_app_distr. cbn [rev app trimStart]. rewrite Hc. reflexivity.
Qed.

(** X11.  Lines that end in a carriage return before the line feed are
    transcoded like lines that do not, by both files: the blank test
    trims it away, [startsWith] does not reach it and [JSON.parse] skips
    it. *)
Theorem CRLF_lines_like_LF_lines (lines : list jstring) :
  Worker.process_lines (map (fun line => line ++ [13]) lines)
  = Worker.process_lines lines
  /\ Deno.for_lines (map (fun line => line ++ [13]) lines)
     = Deno.for_lines lines.
Proof.
  assert (Hline : forall line,
             trim (line ++ [13]) = trim line
             /\ startsWith data_prefix (line ++ [13]) = startsWith data_prefix line
             /\ (startsWith data_prefix line = true ->
                 handle_payload (slice 6 (line ++ [13]))
                 = handle_payload (slice 6 line))).
  { intros line. split; [apply trim_snoc; reflexivity|]. split.
    - apply startsWith_snoc.
      apply (Forall_by_test _ (fun a => negb (a =? 13))); [|reflexivity].
      intros a H. apply negb_true_iff, N.eqb_neq in H. exact H.
    - intros H. apply startsWith_length in H. unfold slice.
      rewrite drop_app_le by exact H.
      unfold handle_payload. rewrite JSON_parse_CR. reflexivity. }
  split; induction lines as [|line lines IH]; try reflexivity;
    destruct (Hline line) as (Ht & Hs & Hh); cbn [map].
  - rewrite !process_lines_cons, Ht, Hs, IH.
    destruct (str_eqb (trim line) []); [reflexivity|].
    destruct (startsWith data_prefix line); [|reflexivity].
    rewrite (Hh eq_refl). reflexivity.
  - cbn [Deno.for_lines]. rewrite Ht, Hs, IH.
    destruct (str_eqb (trim line) []); [reflexivity|].
    destruct (startsWith data_prefix line); [|reflexivity].
    rewrite (Hh eq_refl). reflexivity.
Qed.


(** *** What normalisation leaves alone *)

Lemma replace_key_same (k : jstring) (v : value) ps :
  lookup_key k ps = Some v -> replace_key k v ps = ps.
Proof.
  induction ps as [|[k0 v0] ps IH]; simpl; [reflexivity|].
  destruct (str_eqb k k0); [intros [= ->]; reflexivity|].
  intros H. rewrite (IH H). reflexivity.
Qed.

Lemma replace_key_twice (k : jstring) (x y : value) ps :
  replace_key k x (replace_key k y ps) = replace_key k x ps.
Proof.
  induction ps as [|[k0 v0] ps IH]; simpl; [reflexivity|].
  destruct (str_eqb k k0) eqn:E; simpl; rewrite E; [reflexivity|].
  rewrite IH. reflexivity.
Qed.

Lemma on_choice0_first ps (c0 : value) others named
    (f : value -> result value) (d : value) :
  lookup_key k_choices ps = Some (VArr (c0 :: others) named) ->
  on_choice0 (VObj ps) f = Ok d ->
  exists c0', d = VObj (replace_key k_choices (VArr (c0' :: others) named) ps).
Proof.
  intros Hc. unfold on_choice0. cbn [member prop mbind result_bind].
  rewrite Hc. cbn [member mbind result_bind].
  change (prop (VArr (c0 :: others) named) k_0) with (Some c0).
  cbn [mbind result_bind].
  destruct (f c0) as [c0'|e]; [|discriminate].
  cbn [mbind result_bind]. intros [= <-]. exists c0'. reflexivity.
Qed.

(** X12.  Normalisation rewrites the first element of [choices] and
    nothing else: the other members of the payload, their order and the
    other choices stay as they were. *)
Theorem normalize_rewrites_first_choice_only ps (c0 : value) others named
    (data' : value) :
  lookup_key k_choices ps = Some (VArr (c0 :: others) named) ->
  normalize (VObj ps) = Ok data' ->
  exists c0',
    data' = VObj (replace_key k_choices (VArr (c0' :: others) named) ps).
Proof.
  intros Hc. unfold normalize.
  destruct (ensure_delta (VObj ps)) as [d1|e] eqn:E1; [|discriminate].
  cbn [mbind result_bind]. intros E2.
  assert (H1 : exists c1,
             d1 = VObj (replace_key k_choices (VArr (c1 :: others) named) ps)).
  { unfold ensure_delta in E1. cbn [member mbind result_bind] in E1.
    destruct (is_undefined _) in E1.
    - exact (on_choice0_first _ _ _ _ _ _ Hc E1).
    - injection E1 as <-. exists c0. rewrite (replace_key_same _ _ _ Hc). reflexivity. }
  destruct H1 as [c1 ->].
  set (ps1 := replace_key k_choices (VArr (c1 :: others) named) ps) in *.
  assert (Hc1 : lookup_key k_choices ps1 = Some (VArr (c1 :: others) named)).
  { apply (lookup_replace_eq _ _ _ _ Hc). }
  unfold text_to_content in E2. cbn [member mbind result_bind] in E2.
  destruct (opt (opt (prop (VObj ps1) k_choices) k_0) k_text) as [text|];
    [|injection E2 as <-; eauto].
  destruct (_ && _) in E2; [|injection E2 as <-; eauto].
  destruct (on_choice0 (VObj ps1) _) as [d2|e] eqn:E3; [|discriminate E2].
  cbn [mbind result_bind] in E2.
  destruct (on_choice0_first _ _ _ _ _ _ Hc1 E3) as [c2 ->].
  set (ps2 := replace_key k_choices (VArr (c2 :: others) named) ps1) in *.
  assert (Hc2 : lookup_key k_choices ps2 = Some (VArr (c2 :: others) named)).
  { apply (lookup_replace_eq _ _ _ _ Hc1). }
  destruct (on_choice0_first _ _ _ _ _ _ Hc2 E2) as [c3 ->].
  exists c3. unfold ps2, ps1. rewrite !replace_key_twice. reflexivity.
Qed.

Lemma normalize_rewrites_first_choice_only_witness :
  exists c0',
    VObj (two_choices (VObj [(k_delta, VObj [(k_content, VStr (js "hi"))])]))
    = VObj (replace_key k_choices (VArr [c0'; second_choice] [])
              (two_choices legacy_choice)).
Proof.
  apply (normalize_rewrites_first_choice_only (two_choices legacy_choice)
           legacy_choice [second_choice] []); by_computation.
Defined.

(** *** The two files side by side *)


Lemma for_lines_cons (line : jstring) (rest : list jstring) :
  Deno.for_lines (line :: rest)
  = if str_eqb (trim line) [] then Deno.for_lines rest
    else if negb (startsWith data_prefix line) then Deno.for_lines rest
    else match handle_payload (slice 6 line) with
         | Throw e => ([], Some (Deno.Errored e))
         | Ok (out, true) => (out, Some Deno.Closed)
         | Ok (out, false) =>
             let '(out', e) := Deno.for_lines rest in (out ++ out', e)
         end.
Proof. reflexivity. Qed.

Lemma for_lines_quiet (lines : list jstring) :
  Forall (fun l => stops l = false /\ throws l = false) lines ->
  Deno.for_lines (lines ++ [[]]) = (Worker.process_lines lines, None).
Proof.
  induction 1 as [|line lines [Hs Ht] _ IH]; [reflexivity|].
  rewrite <- app_comm_cons, for_lines_cons, process_lines_cons.
  unfold stops in Hs. unfold throws in Ht.
  destruct (str_eqb (trim line) []); [exact IH|].
  destruct (startsWith data_prefix line); [|exact IH].
  cbn [negb andb] in Hs, Ht |- *.
  destruct (handle_payload (slice 6 line)) as [[out [|]]|e];
    try discriminate Hs; try discriminate Ht.
  rewrite IH. reflexivity.
Qed.

Lemma split_lf_parts (s : jstring) :
  split_lf s = complete_lines s ++ [partial_line s].
Proof.
  unfold complete_lines, partial_line.
  destruct (split_lf s) as [|l ls] eqn:E using rev_ind.
  - destruct (split_lf_nonempty s E).
  - rewrite removelast_last, last_snoc. reflexivity.
Qed.

(** X13.  When every chunk of the upstream ends with a line feed (or is
    empty), and no line stops the handler or makes the handling of its
    payload throw, [main.ts] enqueues what [worker.js] enqueues, and
    closes the stream. *)
Theorem deno_agrees_on_whole_lines (chunks : list jstring) :
  Forall (fun chunk => partial_line chunk = []) chunks ->
  Forall (fun l => stops l = false /\ throws l = false)
         (complete_lines (concat chunks)) ->
  Deno.start (Some chunks) = (Worker.transformStream chunks, Deno.Closed).
Proof.
  unfold Deno.start, Worker.transformStream.
  induction 1 as [|chunk chunks Hc _ IH]; intros Hl; [reflexivity|].
  cbn [concat] in Hl. rewrite complete_lines_app, Hc in Hl.
  apply Forall_app in Hl as [Hl1 Hl2].
  cbn [Deno.read_loop]. rewrite run_cons. unfold Worker.transform.
  cbn [app fst snd]. rewrite (split_lf_parts chunk), Hc.
  rewrite (for_lines_quiet _ Hl1), (IH Hl2).
  rewrite removelast_last, last_snoc. reflexivity.
Qed.

Lemma deno_agrees_on_whole_lines_witness :
  Deno.start (Some [content_line "a" ++ LF; legacy_line ++ LF ++ content_line "b" ++ LF])
  = (Worker.transformStream
       [content_line "a" ++ LF; legacy_line ++ LF ++ content_line "b" ++ LF],
     Deno.Closed).
Proof.
  apply (deno_agrees_on_whole_lines
           [content_line "a" ++ LF; legacy_line ++ LF ++ content_line "b" ++ LF]).
  - repeat constructor; by_computation.
  - apply (Forall_by_test _ (fun l => negb (stops l) && negb (throws l))).
    + intros l H. apply andb_prop in H as [H1 H2].
      apply negb_true_iff in H1, H2. split; assumption.
    + by_computation.
Defined.

End Rechunking.


(* ===================================================================== *)
(** ** Every chunk enqueued is one event *)
(* ===================================================================== *)

Section FramingProofs.
Import JS Payload Lines Framing.

(** Induction on values that reaches into arrays and objects. *)
Lemma value_nested_ind (P : value -> Prop) :
  P VNull -> (forall b, P (VBool b)) -> (forall l, P (VNum l)) ->
  (forall s, P (VStr s)) ->
  (forall es named, Forall P es -> Forall (fun p => P p.2) named -> P (VArr es named)) ->
  (forall ps, Forall (fun p => P p.2) ps -> P (VObj ps)) ->
  forall v, P v.
Proof.
  intros Hnull Hbool Hnum Hstr Harr Hobj.
  fix IH 1. intros [| b | l | s | es named | ps].
  - exact Hnull.
  - apply Hbool.
  - apply Hnum.
  - apply Hstr.
  - apply Harr.
    + induction es as [|e es IHes]; constructor; [apply IH|exact IHes].
    + induction named as [|[k x] named IHn]; constructor; [apply IH|exact IHn].
  - apply Hobj.
    induction ps as [|[k x] ps IHps]; constructor; [apply IH|exact IHps].
Qed.

Lemma no_lf_app (a b : jstring) : no_lf (a ++ b) = no_lf a && no_lf b.
Proof. apply forallb_app. Qed.

Lemma no_lf_rev (a : jstring) : no_lf (rev a) = no_lf a.
Proof.
  induction a as [|c a IH]; [reflexivity|].
  simpl. rewrite no_lf_app, IH. simpl. rewrite andb_true_r. apply andb_comm.
Qed.

Lemma hex_digit_no_lf (d : N) : (hex_digit d =? 10) = false.
Proof. unfold hex_digit. destruct (d <? 10); apply N.eqb_neq; lia. Qed.

Lemma unicode_escape_no_lf (c : N) : no_lf (unicode_escape c) = true.
Proof. unfold unicode_escape, no_lf. simpl. rewrite !hex_digit_no_lf. reflexivity. Qed.

Lemma quote_unit_no_lf (c : N) : no_lf (quote_unit c) = true.
Proof.
  unfold quote_unit.
  repeat match goal with
         | |- context [if ?b then _ else _] => destruct b eqn:?; try reflexivity
         end.
  - apply unicode_escape_no_lf.
  - simpl. rewrite Heqb1. reflexivity.
Qed.

Lemma quote_body_no_lf (s : jstring) (after_high : bool) :
  no_lf (quote_body after_high s) = true.
Proof.
  revert after_high. induction s as [|c s IH]; intros after_high; [reflexivity|].
  cbn [quote_body].
  destruct (after_high && is_low_surrogate c) eqn:E1.
  - apply andb_prop in E1 as [_ E1]. simpl. rewrite IH, andb_true_r.
    unfold is_low_surrogate in E1. apply andb_prop in E1 as [E1 _].
    apply N.leb_le in E1. apply negb_true_iff, N.eqb_neq. lia.
  - destruct (is_high_surrogate c && _) eqn:E2.
    + apply andb_prop in E2 as [E2 _]. simpl. rewrite IH, andb_true_r.
      unfold is_high_surrogate in E2. apply andb_prop in E2 as [E2 _].
      apply N.leb_le in E2. apply negb_true_iff, N.eqb_neq. lia.
    + destruct (is_high_surrogate c || is_low_surrogate c);
        rewrite no_lf_app, IH, andb_true_r;
        [apply unicode_escape_no_lf|apply quote_unit_no_lf].
Qed.

Lemma quote_no_lf (s : jstring) : no_lf (quote s) = true.
Proof.
  unfold quote. rewrite !no_lf_app, quote_body_no_lf. reflexivity.
Qed.

Lemma join_comma_no_lf (parts : list jstring) :
  Forall (fun p => no_lf p = true) parts -> no_lf (join_comma parts) = true.
Proof.
  destruct 1 as [|p parts Hp Hparts]; [reflexivity|].
  simpl. rewrite no_lf_app, Hp. simpl.
  induction Hparts as [|q parts Hq _ IH]; [reflexivity|].
  simpl. rewrite no_lf_app, Hq, IH. reflexivity.
Qed.

(** *** Numbers are printed without line feed *)

Lemma no_lf_repeat (n : nat) : no_lf (repeat 48 n) = true.
Proof. induction n as [|n IH]; [reflexivity|exact IH]. Qed.

Lemma no_lf_take (n : nat) (s : jstring) : no_lf s = true -> no_lf (take n s) = true.
Proof.
  revert s. induction n as [|n IH]; intros s H; [reflexivity|].
  destruct s as [|c s]; [reflexivity|]. simpl in H |- *.
  apply andb_prop in H as [H1 H2]. rewrite H1. exact (IH _ H2).
Qed.

Lemma no_lf_drop (n : nat) (s : jstring) : no_lf s = true -> no_lf (drop n s) = true.
Proof.
  revert s. induction n as [|n IH]; intros s H; [exact H|].
  destruct s as [|c s]; [reflexivity|]. simpl in H |- *.
  apply andb_prop in H as [_ H]. exact (IH _ H).
Qed.

Lemma decimal_digits_no_lf (n : N) : no_lf (decimal_digits n) = true.
Proof.
  unfold decimal_digits. induction (N.to_uint n) as [|u IH|u IH|u IH|u IH|u IH|u IH|u IH|u IH|u IH|u IH];
    [reflexivity|exact IH..].
Qed.

Lemma exponent_text_no_lf (x : Z) : no_lf (exponent_text x) = true.
Proof.
  unfold exponent_text. rewrite no_lf_app, decimal_digits_no_lf.
  destruct (x <? 0)%Z; reflexivity.
Qed.

Lemma format_number_no_lf (ds : jstring) (n : Z) :
  no_lf ds = true -> no_lf (format_number ds n) = true.
Proof.
  intros H. unfold format_number.
  destruct (_ && _); [rewrite no_lf_app, H, no_lf_repeat; reflexivity|].
  destruct (_ && _).
  { rewrite !no_lf_app, no_lf_take, no_lf_drop by exact H. reflexivity. }
  destruct (_ && _).
  { rewrite !no_lf_app, no_lf_repeat, H. reflexivity. }
  destruct ds as [|d [|d' rest]]; [reflexivity| |].
  - change (no_lf (([d] ++ [101]) ++ exponent_text (n - 1)) = true).
    rewrite !no_lf_app, exponent_text_no_lf, H. reflexivity.
  - change (no_lf ([d] ++ [46] ++ (d' :: rest) ++ [101] ++ exponent_text (n - 1)) = true).
    change (no_lf ([d] ++ d' :: rest) = true) in H.
    rewrite no_lf_app in H. apply andb_prop in H as [H1 H2].
    rewrite !no_lf_app, exponent_text_no_lf, H1, H2. reflexivity.
Qed.

Lemma shortest_no_lf (fuel : nat) (k : Z) (m : N) (e : Z) (a b : N) (n : Z) :
  no_lf (shortest fuel k m e a b n).1 = true.
Proof.
  revert k. induction fuel as [|fuel IH]; intros k; cbn [shortest];
    destruct (scaled10 a (k - n)) as [c d];
    repeat match goal with
           | |- context [if ?t then _ else _] => destruct t
           end;
    try apply decimal_digits_no_lf; apply IH.
Qed.

Lemma number_text_no_lf (l : jstring) : no_lf (number_text l) = true.
Proof.
  unfold number_text. destruct (to_double l) as [|neg m e|neg]; [reflexivity| |reflexivity].
  destruct (scaled2 m 1 (- e)) as [a b].
  pose proof (shortest_no_lf 16 1 m e a b (magnitude a b)) as H.
  destruct (shortest 16 1 m e a b (magnitude a b)) as [ds n].
  rewrite no_lf_app, (format_number_no_lf _ _ H). destruct neg; reflexivity.
Qed.

(** [JSON.stringify] never prints a line feed. *)
Lemma JSON_stringify_no_lf (v : value) : no_lf (JSON_stringify v) = true.
Proof.
  induction v as [| b | l | s | es named IHes _ | ps IHps] using value_nested_ind;
    simpl; try reflexivity.
  - destruct b; reflexivity.
  - apply number_text_no_lf.
  - apply quote_no_lf.
  - rewrite no_lf_app, andb_true_r. apply join_comma_no_lf.
    apply Forall_map. exact IHes.
  - rewrite no_lf_app, andb_true_r. apply join_comma_no_lf.
    apply Forall_map. induction IHps as [|[k x] ps Hx _ IH]; constructor.
    + change (no_lf (quote k ++ [58] ++ JSON_stringify x) = true).
      simpl in Hx. rewrite !no_lf_app, quote_no_lf, Hx. reflexivity.
    + exact IH.
Qed.


(** *** Every chunk is one event *)

Lemma no_lf_Forall (s : jstring) :
  no_lf s = true <-> Forall (fun c => c ≠ 10) s.
Proof.
  unfold no_lf. induction s as [|c s IH]; simpl.
  - split; [constructor|reflexivity].
  - rewrite andb_true_iff, IH, negb_true_iff, N.eqb_neq. split.
    + intros [H1 H2]. constructor; assumption.
    + intros H. inversion H. auto.
Qed.

Lemma no_lf_trimStart (s : jstring) : no_lf s = true -> no_lf (trimStart s) = true.
Proof.
  induction s as [|c s IH]; [reflexivity|]. intros H. simpl.
  destruct (is_space c); [|exact H].
  simpl in H. apply andb_prop in H as [_ H]. exact (IH H).
Qed.

Lemma no_lf_trim (s : jstring) : no_lf s = true -> no_lf (trim s) = true.
Proof.
  intros H. unfold trim. rewrite no_lf_rev. apply no_lf_trimStart.
  rewrite no_lf_rev. apply no_lf_trimStart. exact H.
Qed.

Lemma startsWith_split (p s : jstring) :
  startsWith p s = true -> s = p ++ drop (length p) s.
Proof.
  revert s. induction p as [|a p IH]; intros s H; [reflexivity|].
  destruct s as [|b s]; [discriminate H|]. simpl in H |- *.
  apply andb_prop in H as [H1 H2]. apply N.eqb_eq in H1. subst b.
  rewrite <- (IH _ H2). reflexivity.
Qed.

Lemma DONE_framed : framed DONE_EVENT.
Proof. exists (js "[DONE]"). split; reflexivity. Qed.

Lemma handle_payload_framed (payload : jstring) (out : list jstring) (stop : bool) :
  handle_payload payload = Ok (out, stop) -> Forall framed out.
Proof.
  unfold handle_payload.
  destruct (JSON_parse payload) as [data|] eqn:Hp; [|discriminate].
  destruct (is_sentinel data).
  { intros [= <- <-]. repeat constructor. apply DONE_framed. }
  destruct (normalize data) as [data'|e] eqn:Hn; [|discriminate].
  cbn [mbind result_bind].
  assert (He : framed (event data')).
  { exists (JSON_stringify data'). split; [reflexivity|].
    apply JSON_stringify_no_lf. }
  destruct (truthy _); intros [= <- <-]; repeat constructor;
    first [exact He|apply DONE_framed].
Qed.

Lemma process_lines_framed (lines : list jstring) :
  Forall framed (Worker.process_lines lines).
Proof.
  induction lines as [|line lines IH]; [constructor|].
  rewrite process_lines_cons.
  destruct (str_eqb _ _); [exact IH|]. destruct (negb _); [exact IH|].
  destruct (handle_payload _) as [[out [|]]|e] eqn:E; [| |exact IH].
  - exact (handle_payload_framed _ _ _ E).
  - apply Forall_app. split; [exact (handle_payload_framed _ _ _ E)|exact IH].
Qed.

Lemma flush_framed (buffer : jstring) :
  Forall (fun c => c ≠ 10) buffer -> Forall framed (Worker.flush buffer).
Proof.
  intros Hb. apply no_lf_Forall in Hb. unfold Worker.flush.
  apply Forall_app. split; [|repeat constructor; apply DONE_framed].
  destruct (negb _); [|constructor].
  destruct (startsWith data_prefix (trim buffer)) eqn:Hs; [|constructor].
  destruct (JSON_parse _); [|constructor]. destruct (negb _); [|constructor].
  repeat constructor. exists (drop 6 (trim buffer)). split.
  - rewrite (startsWith_split _ _ Hs) at 1. rewrite <- app_assoc. reflexivity.
  - apply no_lf_drop, no_lf_trim, Hb.
Qed.

Lemma for_lines_framed (lines : list jstring) :
  Forall framed (Deno.for_lines lines).1.
Proof.
  induction lines as [|line lines IH]; [constructor|].
  cbn [Deno.for_lines].
  destruct (str_eqb _ _); [exact IH|]. destruct (negb _); [exact IH|].
  destruct (handle_payload _) as [[out [|]]|e] eqn:E; [| |constructor].
  - exact (handle_payload_framed _ _ _ E).
  - destruct (Deno.for_lines lines) as [out' e']. simpl in IH |- *.
    apply Forall_app. split; [exact (handle_payload_framed _ _ _ E)|exact IH].
Qed.

Lemma run_framed (chunks : list jstring) (buffer : jstring) :
  Forall (fun c => c ≠ 10) buffer -> Forall framed (Worker.run buffer chunks).
Proof.
  revert buffer. induction chunks as [|chunk chunks IH]; intros buffer Hb.
  - exact (flush_framed _ Hb).
  - rewrite run_cons. apply Forall_app. split.
    + apply process_lines_framed.
    + apply IH, split_lf_last.
Qed.

Lemma start_framed (body : option (list jstring)) :
  Forall framed (Deno.start body).1.
Proof.
  destruct body as [chunks|]; [|constructor].
  simpl. induction chunks as [|chunk chunks IH]; simpl.
  - repeat constructor. apply DONE_framed.
  - pose proof (for_lines_framed (split_lf chunk)) as Hf.
    destruct (Deno.for_lines (split_lf chunk)) as [out [e|]]; [exact Hf|].
    destruct (Deno.read_loop chunks) as [out' e']. simpl in *.
    apply Forall_app. auto.
Qed.

(** X14.  Every chunk either file enqueues is one whole event: [data: ],
    a text without line feed, and two line feeds; no chunk carries half
    an event or two of them. *)
Theorem every_chunk_is_one_event (chunks : list jstring) :
  Forall framed (Worker.transformStream chunks)
  /\ Forall framed (Deno.start (Some chunks)).1.
Proof.
  split.
  - apply run_framed. constructor.
  - apply start_framed.
Qed.

End FramingProofs.

(* ===================================================================== *)
(** ** The request handlers *)
(* ===================================================================== *)

Section Routing.
Import JS Payload Token Lines Framing Proxy.

Variable models_api : jstring -> Reply.
Variable chat_api : jstring -> jstring -> Reply.
Variable syntax_message : jstring -> jstring.
Variable type_message : option value -> jstring -> jstring.
Variable body_message : jstring.
Variable epoch_seconds : option value -> value.

(** The entry points of the two files on that backend. *)
Local Abbreviation worker :=
  (worker_fetch models_api chat_api syntax_message type_message body_message
     epoch_seconds).
Local Abbreviation deno :=
  (deno_serve models_api chat_api syntax_message type_message body_message
     epoch_seconds).

(** X15.  Without an [authorization] header that starts with [Bearer ],
    both files answer 401 and touch neither the store nor the network. *)
Theorem unauthorized_touches_nothing (req : Request) (w : world) :
  (forall h, authorization req = Some h -> startsWith (js "Bearer ") h = false) ->
  worker req w = (Returns unauthorized, w)
  /\ deno req w = (Returns unauthorized, w).
Proof.
  intros H. unfold worker_fetch, deno_serve, try_catch.
  destruct (authorization req) as [h|]; [|split; reflexivity].
  rewrite (H h eq_refl). split; reflexivity.
Qed.

(** X16.  Each of the two routes is reached by exactly two paths, with
    and without [/v1] after [/api]. *)
Theorem route_spellings (p : jstring) :
  (route p = js "/api/models" <-> p = js "/api/models" \/ p = js "/api/v1/models")
  /\ (route p = js "/api/chat/completions"
      <-> p = js "/api/chat/completions" \/ p = js "/api/v1/chat/completions").
Proof.
  unfold route.
  destruct (startsWith (js "/api/v1") p) eqn:E.
  - pose proof (startsWith_split _ _ E) as Hp.
    change (length (js "/api/v1")) with 7%nat in Hp. unfold slice.
    split; split.
    + intros H. right. rewrite Hp.
      change (js "/api/models") with (js "/api" ++ js "/models") in H.
      apply app_inv_head in H. rewrite H. reflexivity.
    + intros [->| ->]; [discriminate E|reflexivity].
    + intros H. right. rewrite Hp.
      change (js "/api/chat/completions") with (js "/api" ++ js "/chat/completions") in H.
      apply app_inv_head in H. rewrite H. reflexivity.
    + intros [->| ->]; [discriminate E|reflexivity].
  - split; split.
    + auto.
    + intros [->| ->]; [reflexivity|discriminate E].
    + auto.
    + intros [->| ->]; [reflexivity|discriminate E].
Qed.


(** *** Statuses *)

Lemma reply_ok_range (r : Reply) :
  reply_ok r = true -> (200 <= reply_status r <= 299)%Z.
Proof. unfold reply_ok. intros H. apply andb_prop in H as [H1 H2]. lia. Qed.

Lemma forward_status (reply : Reply) (w w' : world) (r : Response) :
  forward body_message reply w = (Returns r, w') ->
  r = forwarded reply /\ w' = w.
Proof.
  unfold forward. destruct (reply_body reply); [destruct (null_body_status _)|].
  - discriminate.
  - intros [= <- <-]. split; reflexivity.
  - intros [= <- <-]. split; reflexivity.
Qed.

Lemma models_status (token : jstring) (w w' : world) (r : Response) :
  worker_handleModels models_api syntax_message type_message epoch_seconds token w
  = (Returns r, w') ->
  status r = 200%Z.
Proof.
  unfold worker_handleModels.
  destruct (negb _); [discriminate|].
  destruct (JSON_parse _) as [data|]; [|discriminate].
  rewrite bind_run.
  destruct (models_listing _ _ _ w) as [[ms|e] w1]; [|discriminate].
  intros [= <- <-]. reflexivity.
Qed.

Lemma worker_chat_status (req : Request) (token : jstring) (w w' : world)
    (r : Response) :
  worker_handleChatCompletions chat_api syntax_message type_message body_message req token w
  = (Returns r, w') ->
  (200 <= status r <= 299)%Z.
Proof.
  unfold worker_handleChatCompletions.
  destruct (JSON_parse _) as [body|]; [|discriminate].
  set (reply := chat_api token (JSON_stringify body)).
  assert (H : (if negb (reply_ok reply)
               then throw (js "Failed to get chat completion: " ++ reply_statusText reply)
               else if negb (is_true (prop body (js "stream")))
                    then forward body_message reply
                    else match reply_body reply with
                         | None => throw (type_message (Some VNull) (js "pipeThrough"))
                         | Some chunks =>
                             mret {| status := 200; headers := stream_headers;
                                     body_chunks := Worker.transformStream chunks;
                                     body_end := Deno.Closed |}
                         end) w = (Returns r, w') -> (200 <= status r <= 299)%Z).
  { destruct (reply_ok reply) eqn:Eok; [|discriminate]. cbn [negb].
    destruct (negb _).
    - intros Hf. apply forward_status in Hf as [-> _]. exact (reply_ok_range _ Eok).
    - destruct (reply_body reply); [|discriminate]. intros [= <- <-]. simpl. lia. }
  destruct body; try exact H. discriminate.
Qed.

Lemma deno_chat_status (req : Request) (apiKey : jstring) (w w' : world)
    (r : Response) :
  deno_handleChatCompletions chat_api syntax_message type_message body_message req apiKey w
  = (Returns r, w') ->
  (200 <= status r <= 299)%Z.
Proof.
  unfold deno_handleChatCompletions. rewrite bind_run.
  destruct (getValidToken apiKey w) as [[token|e] w1]; [|discriminate].
  destruct (JSON_parse _) as [body|]; [|discriminate].
  set (reply := chat_api token (JSON_stringify body)).
  assert (H : (if negb (reply_ok reply)
               then throw (js "Failed to get chat completion: " ++ reply_statusText reply)
               else if negb (is_true (prop body (js "stream")))
                    then forward body_message reply
                    else mret {| status := 200; headers := stream_headers;
                                 body_chunks := (Deno.start (reply_body reply)).1;
                                 body_end := (Deno.start (reply_body reply)).2 |}) w1
              = (Returns r, w') -> (200 <= status r <= 299)%Z).
  { destruct (reply_ok reply) eqn:Eok; [|discriminate]. cbn [negb].
    destruct (negb _).
    - intros Hf. apply forward_status in Hf as [-> _]. exact (reply_ok_range _ Eok).
    - intros [= <- <-]. simpl. lia. }
  destruct body; try exact H. discriminate.
Qed.

Lemma deno_models_status (apiKey : jstring) (w w' : world) (r : Response) :
  deno_handleModels models_api syntax_message type_message epoch_seconds apiKey w
  = (Returns r, w') ->
  status r = 200%Z.
Proof.
  unfold deno_handleModels. rewrite bind_run.
  destruct (getValidToken apiKey w) as [[token|e] w1]; [|discriminate].
  exact (models_status token w1 w' r).
Qed.

Lemma caught (m : M Response) (w : world) :
  (forall r w', m w = (Returns r, w') -> client_status (status r)) ->
  exists r w',
    try_catch m (fun message => mret (internal_error message)) w = (Returns r, w')
    /\ client_status (status r).
Proof.
  intros H. unfold try_catch. destruct (m w) as [[r|e] w'] eqn:E.
  - exists r, w'. split; [reflexivity|exact (H _ _ eq_refl)].
  - eexists _, w'. split; [reflexivity|]. unfold client_status. simpl. auto.
Qed.

(** X17.  Neither file ever throws at its caller, and the status of what
    it answers is 401, 404, 500 or a success status: a status of the
    backend outside 200 to 299 is never passed on. *)
Theorem always_a_response (req : Request) (w : world) :
  (exists r w', worker req w = (Returns r, w') /\ client_status (status r))
  /\ (exists r w', deno req w = (Returns r, w') /\ client_status (status r)).
Proof.
  split.
  - apply caught. intros r w'.
    destruct (authorization req) as [h|]; [|intros [= <- <-]; unfold client_status, unauthorized, not_found, json_response; simpl; lia].
    destruct (startsWith _ h); [|intros [= <- <-]; unfold client_status, unauthorized, not_found, json_response; simpl; lia].
    cbv zeta. rewrite bind_run.
    destruct (getValidToken _ w) as [[token|e] w1]; [|discriminate].
    destruct (str_eqb _ _).
    { intros H. apply models_status in H. unfold client_status. lia. }
    destruct (str_eqb _ _).
    { intros H. apply worker_chat_status in H. unfold client_status. lia. }
    intros [= <- <-]. unfold client_status, unauthorized, not_found, json_response; simpl; lia.
  - apply caught. intros r w'.
    destruct (authorization req) as [h|]; [|intros [= <- <-]; unfold client_status, unauthorized, not_found, json_response; simpl; lia].
    destruct (startsWith _ h); [|intros [= <- <-]; unfold client_status, unauthorized, not_found, json_response; simpl; lia].
    cbv zeta.
    destruct (str_eqb _ _).
    { intros H. apply deno_models_status in H. unfold client_status. lia. }
    destruct (str_eqb _ _).
    { intros H. apply deno_chat_status in H. unfold client_status. lia. }
    intros [= <- <-]. unfold client_status, unauthorized, not_found, json_response; simpl; lia.
Qed.


(** *** The token and the route *)

(** X18.  In [worker.js] the token is asked for before the route is
    looked at: when it cannot be had, every request with credentials is
    answered 500 with the message of the error, whatever its path. *)
Theorem worker_token_failure_is_500 (req : Request) (h message : jstring)
    (w w' : world) :
  authorization req = Some h ->
  startsWith (js "Bearer ") h = true ->
  getValidToken (slice 7 h) w = (Throws message, w') ->
  worker req w = (Returns (internal_error message), w').
Proof.
  intros Ha Hb Ht. unfold worker_fetch, try_catch.
  rewrite Ha, Hb. cbv zeta. rewrite bind_run, Ht. reflexivity.
Qed.

(** X19.  A path that is no route: [main.ts] answers 404 and touches
    nothing, whether or not a token could be had; [worker.js] asks for
    the token first, so it answers after a store read at least, 404 when
    [getValidToken] returns and 500 when it throws. *)
Theorem unknown_route (req : Request) (h : jstring) (w : world) :
  authorization req = Some h ->
  startsWith (js "Bearer ") h = true ->
  route (pathname req) ≠ js "/api/models" ->
  route (pathname req) ≠ js "/api/chat/completions" ->
  deno req w = (Returns not_found, w)
  /\ worker req w
     = match getValidToken (slice 7 h) w with
       | (Returns _, w') => (Returns not_found, w')
       | (Throws message, w') => (Returns (internal_error message), w')
       end
  /\ exists es, log (worker req w).2 = log w ++ KVGet (slice 7 h) :: es.
Proof.
  intros Ha Hb Hm Hc.
  assert (Hw : worker req w
               = match getValidToken (slice 7 h) w with
                 | (Returns _, w') => (Returns not_found, w')
                 | (Throws message, w') => (Returns (internal_error message), w')
                 end).
  { unfold worker_fetch, try_catch. rewrite Ha, Hb. cbv zeta. rewrite bind_run.
    destruct (getValidToken (slice 7 h) w) as [[token|message] w']; [|reflexivity].
    rewrite !str_eqb_ne by assumption. reflexivity. }
  split; [|split; [exact Hw|]].
  - unfold deno_serve, try_catch. rewrite Ha, Hb. cbv zeta.
    rewrite !str_eqb_ne by assumption. reflexivity.
  - rewrite Hw. destruct (store_read_comes_first w (slice 7 h)) as (es & Hlog).
    exists es. destruct (getValidToken (slice 7 h) w) as [[token|message] w'];
      exact Hlog.
Qed.

(** *** Chat completions without streaming *)

(** X20.  Unless [stream] is the boolean [true] in the request body, a
    successful reply of the backend is passed on as it is: its status,
    its body, and its headers but for [content-type], which is set to
    [application/json]. *)
Theorem chat_forwarded_unless_stream_true (req : Request) (token : jstring)
    (body : value) (w : world) :
  JSON_parse (request_body req) = Some body ->
  body ≠ VNull ->
  prop body (js "stream") ≠ Some (VBool true) ->
  let reply := chat_api token (JSON_stringify body) in
  reply_ok reply = true ->
  (null_body_status (reply_status reply) = true -> reply_body reply = None) ->
  exists r,
    worker_handleChatCompletions chat_api syntax_message type_message body_message req token w
    = (Returns r, w)
    /\ status r = reply_status reply
    /\ body_chunks r = default [] (reply_body reply)
    /\ headers r !! content_type = Some application_json
    /\ forall name, name ≠ content_type ->
                    headers r !! name = reply_headers reply !! name.
Proof.
  intros Hp Hn Hs reply Hok Hnb. exists (forwarded reply).
  split; [|split; [reflexivity|split; [reflexivity|split]]].
  - unfold worker_handleChatCompletions. rewrite Hp. fold reply.
    assert (Hf : is_true (prop body (js "stream")) = false).
    { destruct (prop body (js "stream")) as [[| [|] | | | |]|]; try reflexivity.
      congruence. }
    assert (Hw : forward body_message reply w = (Returns (forwarded reply), w)).
    { unfold forward. destruct (reply_body reply); [|reflexivity].
      destruct (null_body_status _); [|reflexivity].
      discriminate (Hnb eq_refl). }
    rewrite Hok, Hf. cbn [negb]. destruct body; try exact Hw. congruence.
  - apply lookup_insert_eq.
  - intros name Hname. apply lookup_insert_ne. congruence.
Qed.

(** *** The model list *)

Lemma model_entry_fields (model : value) (w : world) :
  model ≠ VNull ->
  exists entry,
    model_entry type_message epoch_seconds model w = (Returns entry, w)
    /\ prop entry (js "id") = prop model (js "model")
    /\ prop entry (js "root") = prop model (js "model")
    /\ prop entry (js "owned_by") = prop model (js "creator").
Proof.
  intros Hn. eexists. split.
  - destruct model; try reflexivity. congruence.
  - destruct (prop model (js "model")), (prop model (js "creator")); repeat split.
Qed.

Lemma model_entries_fields (models : list value) (w : world) :
  Forall (fun m => m ≠ VNull) models ->
  exists entries,
    model_entries type_message epoch_seconds models w = (Returns entries, w)
    /\ Forall2 (fun model entry =>
                  prop entry (js "id") = prop model (js "model")
                  /\ prop entry (js "root") = prop model (js "model")
                  /\ prop entry (js "owned_by") = prop model (js "creator"))
               models entries.
Proof.
  induction 1 as [|model models Hm _ (entries & IH1 & IH2)].
  - exists []. split; [reflexivity|constructor].
  - destruct (model_entry_fields model w Hm) as (entry & E1 & E2).
    exists (entry :: entries). split; [|constructor; assumption].
    cbn [model_entries]. rewrite bind_run, E1, bind_run, IH1. reflexivity.
Qed.

Lemma model_entries_null (models : list value) (w : world) :
  VNull ∈ models ->
  model_entries type_message epoch_seconds models w
  = (Throws (type_message (Some VNull) (js "model")), w).
Proof.
  induction models as [|model models IH]; intros Hin.
  - apply elem_of_nil in Hin. contradiction.
  - cbn [model_entries]. rewrite bind_run.
    assert (Hd : model = VNull \/ model ≠ VNull)
      by (destruct model; [left; reflexivity|right; discriminate..]).
    destruct Hd as [->|Hm].
    + reflexivity.
    + apply elem_of_cons in Hin as [Hin|Hin]; [congruence|].
      destruct (model_entry_fields model w Hm) as (entry & E1 & _).
      rewrite E1, bind_run, (IH Hin). reflexivity.
Qed.

(** X21.  The list [handleModels] answers has one entry for each model
    of the backend, in the same order, with [id] and [root] taken from
    [model] and [owned_by] from [creator] (a member the model lacks is
    left out); a single [null] among the models makes the whole call
    throw. *)
Theorem models_listed_in_order (token : jstring) (data : value)
    (models : list value) named (w : world) :
  reply_ok (models_api token) = true ->
  JSON_parse (reply_text (models_api token)) = Some data ->
  prop data (js "models") = Some (VArr models named) ->
  let answer := worker_handleModels models_api syntax_message type_message
                  epoch_seconds token w in
  (VNull ∈ models ->
   answer = (Throws (type_message (Some VNull) (js "model")), w))
  /\ (Forall (fun m => m ≠ VNull) models ->
      exists entries,
        answer = (Returns (json_response 200
                            (JSON_stringify
                               (VObj [(js "object", VStr (js "list"));
                                      (js "data", VArr entries [])]))), w)
        /\ Forall2 (fun model entry =>
                      prop entry (js "id") = prop model (js "model")
                      /\ prop entry (js "root") = prop model (js "model")
                      /\ prop entry (js "owned_by") = prop model (js "creator"))
                   models entries).
Proof.
  intros Hok Hp Hm answer. subst answer. unfold worker_handleModels.
  rewrite Hok, Hp. cbn [negb]. rewrite bind_run.
  assert (Hl : models_listing type_message epoch_seconds data w
               = model_entries type_message epoch_seconds models w).
  { unfold models_listing. rewrite Hm. destruct data; try reflexivity.
    discriminate Hm. }
  rewrite Hl. split.
  - intros Hin. rewrite (model_entries_null _ _ Hin). reflexivity.
  - intros Hall. destruct (model_entries_fields models w Hall) as (entries & E1 & E2).
    exists entries. rewrite E1. split; [reflexivity|exact E2].
Qed.


(** *** The two kinds of response *)

Lemma json_response_kind (st : Z) (text : jstring) : json_kind (json_response st text).
Proof. apply lookup_singleton_eq. Qed.

Lemma forward_kind (reply : Reply) (w w' : world) (r : Response) :
  forward body_message reply w = (Returns r, w') -> json_kind r.
Proof.
  intros H. apply forward_status in H as [-> _]. apply lookup_insert_eq.
Qed.

Lemma models_kind (token : jstring) (w w' : world) (r : Response) :
  worker_handleModels models_api syntax_message type_message epoch_seconds token w
  = (Returns r, w') ->
  json_kind r.
Proof.
  unfold worker_handleModels.
  destruct (negb _); [discriminate|].
  destruct (JSON_parse _) as [data|]; [|discriminate].
  rewrite bind_run.
  destruct (models_listing _ _ _ w) as [[ms|e] w1]; [|discriminate].
  intros [= <- <-]. apply json_response_kind.
Qed.

Lemma worker_chat_kind (req : Request) (token : jstring) (w w' : world)
    (r : Response) :
  worker_handleChatCompletions chat_api syntax_message type_message body_message
    req token w = (Returns r, w') ->
  event_stream r \/ json_kind r.
Proof.
  unfold worker_handleChatCompletions.
  destruct (JSON_parse _) as [body|]; [|discriminate].
  set (reply := chat_api token (JSON_stringify body)).
  assert (H : (if negb (reply_ok reply)
               then throw (js "Failed to get chat completion: " ++ reply_statusText reply)
               else if negb (is_true (prop body (js "stream")))
                    then forward body_message reply
                    else match reply_body reply with
                         | None => throw (type_message (Some VNull) (js "pipeThrough"))
                         | Some chunks =>
                             mret {| status := 200; headers := stream_headers;
                                     body_chunks := Worker.transformStream chunks;
                                     body_end := Deno.Closed |}
                         end) w = (Returns r, w') -> event_stream r \/ json_kind r).
  { destruct (negb (reply_ok reply)); [discriminate|].
    destruct (negb _).
    - intros Hf. right. exact (forward_kind _ _ _ _ Hf).
    - destruct (reply_body reply) as [chunks|]; [|discriminate].
      intros [= <- <-]. left. split; [reflexivity|]. split; [reflexivity|].
      apply run_framed. constructor. }
  destruct body; try exact H. discriminate.
Qed.

Lemma deno_chat_kind (req : Request) (apiKey : jstring) (w w' : world)
    (r : Response) :
  deno_handleChatCompletions chat_api syntax_message type_message body_message
    req apiKey w = (Returns r, w') ->
  event_stream r \/ json_kind r.
Proof.
  unfold deno_handleChatCompletions. rewrite bind_run.
  destruct (getValidToken apiKey w) as [[token|e] w1]; [|discriminate].
  destruct (JSON_parse _) as [body|]; [|discriminate].
  set (reply := chat_api token (JSON_stringify body)).
  assert (H : (if negb (reply_ok reply)
               then throw (js "Failed to get chat completion: " ++ reply_statusText reply)
               else if negb (is_true (prop body (js "stream")))
                    then forward body_message reply
                    else mret {| status := 200; headers := stream_headers;
                                 body_chunks := (Deno.start (reply_body reply)).1;
                                 body_end := (Deno.start (reply_body reply)).2 |}) w1
              = (Returns r, w') -> event_stream r \/ json_kind r).
  { destruct (negb (reply_ok reply)); [discriminate|].
    destruct (negb _).
    - intros Hf. right. exact (forward_kind _ _ _ _ Hf).
    - intros [= <- <-]. left. split; [reflexivity|]. split; [reflexivity|].
      apply start_framed. }
  destruct body; try exact H. discriminate.
Qed.

(** X22.  Whatever either file answers is of one of two kinds: an event
    stream (status 200, [content-type: text/event-stream], every chunk
    of the body one whole event), or a response with
    [content-type: application/json]. *)
Theorem response_is_event_stream_or_json (req : Request) (w w' : world)
    (r : Response) :
  worker req w = (Returns r, w') \/ deno req w = (Returns r, w') ->
  event_stream r \/ json_kind r.
Proof.
  assert (Hc : forall m : M Response,
             (forall r w', m w = (Returns r, w') -> event_stream r \/ json_kind r) ->
             try_catch m (fun message => mret (internal_error message)) w
             = (Returns r, w') ->
             event_stream r \/ json_kind r).
  { intros m Hm. unfold try_catch. destruct (m w) as [[r0|e] w0] eqn:E.
    - intros [= <- <-]. exact (Hm _ _ eq_refl).
    - intros [= <- <-]. right. apply json_response_kind. }
  intros [H|H]; revert H; apply Hc; intros r0 w0.
  - destruct (authorization req) as [h|];
      [|intros [= <- <-]; right; apply json_response_kind].
    destruct (startsWith _ h); [|intros [= <- <-]; right; apply json_response_kind].
    cbv zeta. rewrite bind_run.
    destruct (getValidToken _ w) as [[token|e] w1]; [|discriminate].
    destruct (str_eqb _ _).
    { intros H. right. exact (models_kind _ _ _ _ H). }
    destruct (str_eqb _ _).
    { exact (worker_chat_kind _ _ _ _ _). }
    intros [= <- <-]. right. apply json_response_kind.
  - destruct (authorization req) as [h|];
      [|intros [= <- <-]; right; apply json_response_kind].
    destruct (startsWith _ h); [|intros [= <- <-]; right; apply json_response_kind].
    cbv zeta.
    destruct (str_eqb _ _).
    { unfold deno_handleModels. rewrite bind_run.
      destruct (getValidToken _ w) as [[token|e] w1]; [|discriminate].
      intros H. right. exact (models_kind _ _ _ _ H). }
    destruct (str_eqb _ _).
    { exact (deno_chat_kind _ _ _ _ _). }
    intros [= <- <-]. right. apply json_response_kind.
Qed.

End Routing.

Section RoutingSamples.
Import JS Payload Token Samples Proxy Scenarios.

Ltac by_computation := vm_compute; reflexivity.

Lemma unauthorized_touches_nothing_witness :
  sample_worker anonymous_request fresh_world = (Returns unauthorized, fresh_world)
  /\ sample_deno anonymous_request fresh_world = (Returns unauthorized, fresh_world).
Proof.
  apply (unauthorized_touches_nothing sample_models_api sample_chat_api
           sample_syntax_message sample_type_message sample_body_message
           sample_epoch_seconds anonymous_request fresh_world).
  intros h H. discriminate H.
Defined.

Lemma worker_token_failure_is_500_witness :
  sample_worker stray_request (first_use_world (js "Too Many Requests"))
  = (Returns (internal_error (js "Failed to register user: Too Many Requests")),
     (getValidToken sample_key (first_use_world (js "Too Many Requests"))).2).
Proof.
  apply (worker_token_failure_is_500 sample_models_api sample_chat_api
           sample_syntax_message sample_type_message sample_body_message
           sample_epoch_seconds stray_request bearer); by_computation.
Defined.

Lemma unknown_route_witness :
  sample_deno stray_request (first_use_world (js "Too Many Requests"))
  = (Returns not_found, first_use_world (js "Too Many Requests"))
  /\ sample_worker stray_request (first_use_world (js "Too Many Requests"))
     = match getValidToken (slice 7 bearer) (first_use_world (js "Too Many Requests")) with
       | (Returns _, w') => (Returns not_found, w')
       | (Throws message, w') => (Returns (internal_error message), w')
       end
  /\ exists es,
       log (sample_worker stray_request (first_use_world (js "Too Many Requests"))).2
       = log (first_use_world (js "Too Many Requests")) ++ KVGet (slice 7 bearer) :: es.
Proof.
  apply (unknown_route sample_models_api sample_chat_api
           sample_syntax_message sample_type_message sample_body_message
           sample_epoch_seconds stray_request bearer).
  - reflexivity.
  - reflexivity.
  - vm_compute. discriminate.
  - vm_compute. discriminate.
Defined.

Lemma chat_forwarded_unless_stream_true_witness :
  exists r,
    worker_handleChatCompletions sample_chat_api sample_syntax_message
      sample_type_message sample_body_message chat_request (js "access-0") fresh_world
    = (Returns r, fresh_world)
    /\ status r = 200%Z
    /\ body_chunks r = [content_line "a" ++ LF]
    /\ headers r !! content_type = Some application_json
    /\ forall name, name ≠ content_type ->
                    headers r !! name
                    = ({[ js "x-request-id" := js "42" ]} : gmap jstring jstring) !! name.
Proof.
  apply (chat_forwarded_unless_stream_true sample_chat_api sample_syntax_message
           sample_type_message sample_body_message chat_request (js "access-0")
           chat_body fresh_world).
  - by_computation.
  - discriminate.
  - vm_compute. discriminate.
  - by_computation.
  - intros H. vm_compute in H. discriminate H.
Defined.

Lemma models_listed_in_order_witness :
  exists entries,
    worker_handleModels sample_models_api sample_syntax_message
      sample_type_message sample_epoch_seconds (js "access-0") fresh_world
    = (Returns (json_response 200
                  (JSON_stringify
                     (VObj [(js "object", VStr (js "list"));
                            (js "data", VArr entries [])]))), fresh_world)
    /\ Forall2 (fun model entry =>
                  prop entry (js "id") = prop model (js "model")
                  /\ prop entry (js "root") = prop model (js "model")
                  /\ prop entry (js "owned_by") = prop model (js "creator"))
               [sample_model] entries.
Proof.
  destruct (models_listed_in_order sample_models_api sample_syntax_message
              sample_type_message sample_epoch_seconds (js "access-0")
              (VObj [(js "models", VArr [sample_model] [])]) [sample_model] []
              fresh_world) as [_ H].
  - by_computation.
  - by_computation.
  - by_computation.
  - apply H. repeat constructor. discriminate.
Defined.

Lemma response_is_event_stream_or_json_witness :
  event_stream streamed_response \/ json_kind streamed_response.
Proof.
  apply (response_is_event_stream_or_json sample_models_api sample_chat_api
           sample_syntax_message sample_type_message sample_body_message
           sample_epoch_seconds stream_request fresh_world
           (record (KVGet sample_key) fresh_world) streamed_response).
  left. by_computation.
Defined.

End RoutingSamples.

(* ===================================================================== *)
(** ** The normalisation statements on any payload *)
(* ===================================================================== *)

Section Normalisation.
Import JS Payload Samples Scenarios.

Ltac by_computation := vm_compute; reflexivity.

Ltac keys :=
  change (array_index k_0) with (Some 0) in *;
  change (array_index k_choices) with (@None N) in *;
  change (array_index k_delta) with (@None N) in *;
  change (array_index k_content) with (@None N) in *;
  change (array_index k_text) with (@None N) in *;
  change (N.to_nat 0) with 0%nat in *.

Ltac js_step :=
  repeat (progress
    (cbn [opt member prop put_back assign delete_prop is_undefined is_object
          mbind result_bind] in *;
     keys)).

(** *** Members of objects and arrays *)

Lemma lookup_define_eq (k : jstring) (x : value) ps :
  array_index k = None -> lookup_key k (obj_define ps k x) = Some x.
Proof.
  intros Hk. unfold obj_define. destruct (lookup_key k ps) as [v|] eqn:E.
  - exact (lookup_replace_eq _ _ _ _ E).
  - rewrite Hk, lookup_key_app_new by exact E. rewrite str_eqb_refl. reflexivity.
Qed.

Lemma lookup_define_ne (k k' : jstring) (x : value) ps :
  array_index k = None -> k' ≠ k ->
  lookup_key k' (obj_define ps k x) = lookup_key k' ps.
Proof.
  intros Hk Hne. unfold obj_define. destruct (lookup_key k ps) as [v|] eqn:E.
  - apply lookup_replace_ne. exact Hne.
  - rewrite Hk. destruct (lookup_key k' ps) as [v'|] eqn:E'.
    + apply lookup_key_app_old. exact E'.
    + rewrite lookup_key_app_new by exact E'. rewrite str_eqb_ne by exact Hne.
      reflexivity.
Qed.

(** [o.k = x] for a name [k]: afterwards [o.k] is [x], the other
    members are as before, and [o] is still an object or an array. *)
Lemma assign_spec (c : value) (k : jstring) (x c' : value) :
  array_index k = None ->
  assign (Some c) k x = Ok c' ->
  prop c' k = Some x
  /\ (forall k', k' ≠ k -> prop c' k' = prop c k')
  /\ is_object (Some c') = true.
Proof.
  intros Hk H. destruct c as [| | | |es named|ps]; try discriminate H;
    injection H as <-; cbn [prop is_object]; rewrite ?Hk.
  - split; [apply lookup_define_eq, Hk|]. split; [|reflexivity].
    intros k' Hne. destruct (array_index k'); [reflexivity|].
    apply lookup_define_ne; assumption.
  - split; [apply lookup_define_eq, Hk|]. split; [|reflexivity].
    intros k' Hne. apply lookup_define_ne; assumption.
Qed.

Lemma assign_object (o : option value) (k : jstring) (x : value) :
  is_object o = true -> exists c', assign o k x = Ok c'.
Proof. destruct o as [[]|]; intros H; try discriminate H; eexists; reflexivity. Qed.

Lemma assign_throws (o : option value) (k : jstring) (x : value) :
  is_object o = false -> assign o k x = Throw TypeError.
Proof. destruct o as [[]|]; intros H; try discriminate H; reflexivity. Qed.

(** The object as the code sees it once its member [k] has become [x]. *)
Lemma put_back_spec (c : value) (k : jstring) (x v : value) :
  array_index k = None ->
  prop c k = Some v ->
  prop (put_back c k x) k = Some x
  /\ (forall k', k' ≠ k -> prop (put_back c k x) k' = prop c k')
  /\ is_object (Some (put_back c k x)) = is_object (Some c).
Proof.
  intros Hk H. destruct c as [| | |s|es named|ps]; cbn [prop put_back is_object] in *;
    rewrite ?Hk in *; try discriminate H; cbn [prop]; rewrite ?Hk.
  - split; [exact (lookup_replace_eq _ _ _ _ H)|]. split; [|reflexivity].
    intros k' Hne. destruct (array_index k'); [reflexivity|].
    apply lookup_replace_ne; assumption.
  - split; [exact (lookup_replace_eq _ _ _ _ H)|]. split; [|reflexivity].
    intros k' Hne. apply lookup_replace_ne; assumption.
Qed.

(** [delete o.k] *)
Lemma delete_spec (c : value) (k : jstring) :
  array_index k = None ->
  prop (delete_prop c k) k = None
  /\ (forall k', k' ≠ k -> prop (delete_prop c k) k' = prop c k')
  /\ is_object (Some (delete_prop c k)) = is_object (Some c).
Proof.
  intros Hk. destruct c as [| | |s|es named|ps]; cbn [prop delete_prop is_object];
    rewrite ?Hk; auto; cbn [prop]; rewrite ?Hk.
  - split; [apply lookup_remove_eq|]. split; [|reflexivity].
    intros k' Hne. destruct (array_index k'); [reflexivity|].
    apply lookup_remove_ne; assumption.
  - split; [apply lookup_remove_eq|]. split; [|reflexivity].
    intros k' Hne. apply lookup_remove_ne; assumption.
Qed.

Lemma opt_some (c : value) (k : jstring) :
  is_object (Some c) = true -> opt (Some c) k = prop c k.
Proof. destruct c; intros H; try discriminate H; reflexivity. Qed.

Lemma member_some (c : value) (k : jstring) :
  is_object (Some c) = true -> member (Some c) k = Ok (prop c k).
Proof. destruct c; intros H; try discriminate H; reflexivity. Qed.

(** *** From [data] to [data.choices[0]] *)

(** What [data.choices?.[0]] being an object or an array says about
    [data]. *)
Lemma choice0_inv (data c0 : value) :
  choice0 data = Some c0 ->
  is_object (Some c0) = true ->
  exists c, member (Some data) k_choices = Ok (Some c)
            /\ member (Some c) k_0 = Ok (Some c0)
            /\ forall x, opt (Some (put_back data k_choices (put_back c k_0 x))) k_choices
                         = Some (put_back c k_0 x)
                      /\ opt (Some (put_back c k_0 x)) k_0 = Some x.
Proof.
  unfold choice0. intros H Hobj.
  destruct data as [| | | |es named|dps]; js_step; try discriminate H.
  - destruct (lookup_key k_choices named) as [c|] eqn:Ec; js_step; [|discriminate H].
    exists c. split; [reflexivity|].
    destruct c as [| | |s|ces cnamed|cps]; js_step; try discriminate H.
    + destruct (s !! 0%nat); [|discriminate H]. injection H as <-. discriminate Hobj.
    + rewrite H. split; [reflexivity|]. intros x.
      rewrite (lookup_replace_eq _ _ _ _ Ec). js_step.
      split; [reflexivity|]. destruct ces; [discriminate H|reflexivity].
    + rewrite H. split; [reflexivity|]. intros x.
      rewrite (lookup_replace_eq _ _ _ _ Ec). js_step.
      split; [reflexivity|]. apply (lookup_replace_eq _ _ _ _ H).
  - destruct (lookup_key k_choices dps) as [c|] eqn:Ec; js_step; [|discriminate H].
    exists c. split; [reflexivity|].
    destruct c as [| | |s|ces cnamed|cps]; js_step; try discriminate H.
    + destruct (s !! 0%nat); [|discriminate H]. injection H as <-. discriminate Hobj.
    + rewrite H. split; [reflexivity|]. intros x.
      rewrite (lookup_replace_eq _ _ _ _ Ec). js_step.
      split; [reflexivity|]. destruct ces; [discriminate H|reflexivity].
    + rewrite H. split; [reflexivity|]. intros x.
      rewrite (lookup_replace_eq _ _ _ _ Ec). js_step.
      split; [reflexivity|]. apply (lookup_replace_eq _ _ _ _ H).
Qed.

(** A statement on [data.choices[0]], seen from [data]. *)
Lemma on_choice0_run (data c0 : value) (f : value -> result value) :
  choice0 data = Some c0 ->
  is_object (Some c0) = true ->
  match f c0 with
  | Ok c0' => exists data', on_choice0 data f = Ok data' /\ choice0 data' = Some c0'
  | Throw e => on_choice0 data f = Throw e
  end.
Proof.
  intros H Hobj. destruct (choice0_inv data c0 H Hobj) as (c & Hc & Hc0 & Hput).
  unfold on_choice0. rewrite Hc. cbn [mbind result_bind]. rewrite Hc0.
  cbn [mbind result_bind]. destruct (f c0) as [c0'|e]; [|reflexivity].
  cbn [mbind result_bind]. eexists. split; [reflexivity|].
  unfold choice0. destruct (Hput c0') as [-> ->]. reflexivity.
Qed.

Lemma ensure_delta_run (data c0 : value) :
  choice0 data = Some c0 ->
  is_object (Some c0) = true ->
  exists data1 c1,
    Payload.ensure_delta data = Ok data1
    /\ Choice.ensure_delta c0 = Ok c1
    /\ choice0 data1 = Some c1
    /\ is_object (Some c1) = true.
Proof.
  intros H Hobj. destruct (choice0_member _ _ H) as (c & Hc & Hc0).
  unfold Payload.ensure_delta, Choice.ensure_delta.
  rewrite Hc. cbn [mbind result_bind]. rewrite Hc0, (opt_some _ _ Hobj).
  destruct (is_undefined (prop c0 k_delta)).
  - destruct (assign_object (Some c0) k_delta (VObj []) Hobj) as [c1 E].
    pose proof (on_choice0_run data c0
                  (fun c0 => assign (Some c0) k_delta (VObj [])) H Hobj) as Hrun.
    cbv beta in Hrun. rewrite E in Hrun. destruct Hrun as (data1 & E1 & H1).
    exists data1, c1. rewrite E1.
    destruct (assign_spec c0 k_delta _ _ eq_refl E) as (_ & _ & Hobj1). auto.
  - exists data, c0. auto.
Qed.

Lemma text_to_content_run (data c0 : value) :
  choice0 data = Some c0 ->
  is_object (Some c0) = true ->
  match Choice.text_to_content c0 with
  | Ok c2 => exists data2, Payload.text_to_content data = Ok data2
                           /\ choice0 data2 = Some c2
  | Throw e => Payload.text_to_content data = Throw e
  end.
Proof.
  intros H Hobj. destruct (choice0_member _ _ H) as (c & Hc & Hc0).
  unfold Payload.text_to_content, Choice.text_to_content.
  rewrite Hc. cbn [mbind result_bind]. rewrite Hc0, !(opt_some _ _ Hobj).
  destruct (prop c0 k_text) as [text|]; [|eauto].
  destruct (_ && _); [|eauto].
  pose proof (on_choice0_run data c0
                (fun c0 => d ← member (Some c0) k_delta;
                           d' ← assign d k_content text;
                           Ok (put_back c0 k_delta d')) H Hobj) as Hrun.
  cbv beta in Hrun.
  destruct (d ← member (Some c0) k_delta; d' ← assign d k_content text;
            Ok (put_back c0 k_delta d')) as [c1|e] eqn:E1.
  - destruct Hrun as (data1 & E & H1). rewrite E. cbn [mbind result_bind].
    assert (Hobj1 : is_object (Some c1) = true).
    { destruct c0 as [| | | |es named|ps]; try discriminate Hobj;
        js_step;
        match type of E1 with
        | context [assign ?d _ _] => destruct (assign d k_content text); [|discriminate E1]
        end; js_step; injection E1 as <-; reflexivity. }
    pose proof (on_choice0_run data1 c1 (fun c0 => Ok (delete_prop c0 k_text))
                  H1 Hobj1) as Hrun2.
    cbv beta in Hrun2. exact Hrun2.
  - rewrite Hrun. reflexivity.
Qed.

(** Normalisation of [data] is normalisation of [data.choices[0]]. *)
Lemma normalize_run (data c0 : value) :
  choice0 data = Some c0 ->
  is_object (Some c0) = true ->
  match Choice.normalize c0 with
  | Ok c' => exists data', Payload.normalize data = Ok data' /\ choice0 data' = Some c'
  | Throw e => Payload.normalize data = Throw e
  end.
Proof.
  intros H Hobj. destruct (ensure_delta_run data c0 H Hobj) as (data1 & c1 & E & E0 & H1 & Hobj1).
  unfold Payload.normalize, Choice.normalize. rewrite E, E0. cbn [mbind result_bind].
  exact (text_to_content_run data1 c1 H1 Hobj1).
Qed.


(** *** What normalisation does to [data.choices[0]] *)

(** The test of the second statement. *)
Lemma text_to_content_skips (c0 : value) :
  is_undefined (opt (prop c0 k_delta) k_content) && truthy (prop c0 k_text) = false ->
  Choice.text_to_content c0 = Ok c0.
Proof.
  intros H. unfold Choice.text_to_content.
  destruct (prop c0 k_text) as [text|]; [|reflexivity]. rewrite H. reflexivity.
Qed.

Lemma choice_normalize_spec (c0 c' : value) :
  is_object (Some c0) = true ->
  Choice.normalize c0 = Ok c' ->
  is_undefined (prop c' k_delta) = false
  /\ is_undefined (opt (prop c' k_delta) k_content) && truthy (prop c' k_text) = false
  /\ (forall k, k ≠ k_delta -> k ≠ k_text -> prop c' k = prop c0 k)
  /\ is_object (Some c') = true.
Proof.
  intros Hobj. unfold Choice.normalize, Choice.ensure_delta.
  assert (H1 : exists c1,
             (if is_undefined (prop c0 k_delta)
              then assign (Some c0) k_delta (VObj []) else Ok c0) = Ok c1
             /\ is_undefined (prop c1 k_delta) = false
             /\ (forall k, k ≠ k_delta -> prop c1 k = prop c0 k)
             /\ is_object (Some c1) = true).
  { destruct (prop c0 k_delta) as [d|] eqn:Ed; cbn [is_undefined].
    - exists c0. rewrite Ed. auto.
    - destruct (assign_object (Some c0) k_delta (VObj []) Hobj) as [c1 E].
      destruct (assign_spec c0 k_delta _ _ eq_refl E) as (A1 & A2 & A3).
      exists c1. rewrite A1. auto. }
  destruct H1 as (c1 & -> & Hd1 & Hk1 & Hobj1). cbn [mbind result_bind].
  unfold Choice.text_to_content.
  destruct (prop c1 k_text) as [text|] eqn:Et.
  - destruct (is_undefined (opt (prop c1 k_delta) k_content) && truthy (Some text))
      eqn:Etest.
    + destruct (prop c1 k_delta) as [d|] eqn:Ed; [|discriminate Hd1].
      rewrite (member_some _ _ Hobj1), Ed. cbn [mbind result_bind].
      destruct (assign (Some d) k_content text) as [d'|e] eqn:Ea;
        [|cbn [mbind result_bind]; intros Hf; discriminate Hf].
      cbn [mbind result_bind]. intros [= <-].
      destruct (assign_spec d k_content _ _ eq_refl Ea) as (A1 & _ & A3).
      destruct (put_back_spec c1 k_delta d' d eq_refl Ed) as (P1 & P2 & P3).
      destruct (delete_spec (put_back c1 k_delta d') k_text eq_refl) as (D1 & D2 & D3).
      assert (Hdelta : prop (delete_prop (put_back c1 k_delta d') k_text) k_delta
                       = Some d').
      { rewrite D2 by discriminate. exact P1. }
      rewrite Hdelta, D1. split; [reflexivity|]. split.
      * rewrite (opt_some _ _ A3), A1. reflexivity.
      * split; [|rewrite D3, P3; exact Hobj1].
        intros k Hkd Hkt. rewrite D2, P2, Hk1 by assumption. reflexivity.
    + intros [= <-]. rewrite Et. auto.
  - intros [= <-]. rewrite Et, andb_false_r. auto.
Qed.

(** When [data.choices[0]] is an object or an array, normalisation throws
    exactly when a text has to be moved into a [delta] that is there but
    is neither an object nor an array. *)
Lemma choice_normalize_outcome (c0 : value) :
  is_object (Some c0) = true ->
  match Choice.normalize c0 with
  | Ok _ =>
      negb (truthy (prop c0 k_text)
            && is_undefined (opt (prop c0 k_delta) k_content))
      || is_undefined (prop c0 k_delta) || is_object (prop c0 k_delta) = true
  | Throw e =>
      e = TypeError
      /\ negb (truthy (prop c0 k_text)
               && is_undefined (opt (prop c0 k_delta) k_content))
         || is_undefined (prop c0 k_delta) || is_object (prop c0 k_delta) = false
  end.
Proof.
  intros Hobj. unfold Choice.normalize, Choice.ensure_delta.
  destruct (prop c0 k_delta) as [d|] eqn:Ed; cbn [is_undefined].
  - cbn [mbind result_bind]. unfold Choice.text_to_content. rewrite Ed.
    destruct (prop c0 k_text) as [text|] eqn:Et; [|reflexivity].
    rewrite (andb_comm (truthy _)).
    destruct (is_undefined (opt (Some d) k_content) && truthy (Some text));
      [|reflexivity].
    rewrite (member_some _ _ Hobj), Ed. cbn [mbind result_bind negb orb].
    destruct (is_object (Some d)) eqn:Eo.
    + destruct (assign_object (Some d) k_content text Eo) as [d' ->]. reflexivity.
    + rewrite (assign_throws _ _ _ Eo). split; reflexivity.
  - rewrite !orb_true_r.
    destruct (assign_object (Some c0) k_delta (VObj []) Hobj) as [c1 E].
    rewrite E. cbn [mbind result_bind].
    destruct (assign_spec c0 k_delta _ _ eq_refl E) as (A1 & A2 & A3).
    unfold Choice.text_to_content. rewrite A1.
    destruct (prop c1 k_text) as [text|]; [|reflexivity].
    destruct (_ && _); [|reflexivity].
    rewrite (member_some _ _ A3), A1. reflexivity.
Qed.

(** *** Normalisation of a payload *)

Lemma normalize_needs_object (data data' : value) :
  Payload.normalize data = Ok data' ->
  exists c0, choice0 data = Some c0 /\ is_object (Some c0) = true.
Proof.
  intros H. destruct (is_object (choice0 data)) eqn:E.
  - destruct (choice0 data) as [c0|]; [eauto|discriminate E].
  - rewrite (normalize_throws data E) in H. discriminate H.
Qed.

Lemma choice_members (data c0 : value) :
  choice0 data = Some c0 ->
  is_object (Some c0) = true ->
  text_of data = prop c0 k_text
  /\ delta_of data = prop c0 k_delta
  /\ content_of data = opt (prop c0 k_delta) k_content
  /\ finish_reason data = prop c0 k_finish_reason.
Proof.
  intros H Hobj. unfold text_of, content_of, delta_of, finish_reason.
  rewrite H, !(opt_some _ _ Hobj). auto.
Qed.

Lemma normalize_cases (data : value) :
  match Payload.normalize data with
  | Ok _ => Choice.normalizable data = true
  | Throw e => e = TypeError /\ Choice.normalizable data = false
  end.
Proof.
  unfold Choice.normalizable, Choice.needs_move.
  destruct (is_object (choice0 data)) eqn:E.
  - destruct (choice0 data) as [c0|] eqn:H; [|discriminate E].
    destruct (choice_members data c0 H E) as (-> & -> & -> & _).
    pose proof (normalize_run data c0 H E) as Hrun.
    pose proof (choice_normalize_outcome c0 E) as Hout.
    destruct (Choice.normalize c0) as [c'|e].
    + destruct Hrun as (data' & -> & _). exact Hout.
    + rewrite Hrun. exact Hout.
  - rewrite (normalize_throws data E). auto.
Qed.

(** X23.  Normalisation throws exactly on the payloads that are not
    [normalizable]: those without an object or an array at
    [data.choices[0]], and those where a text has to be moved into a
    [delta] that is there but is neither an object nor an array; what it
    throws is a [TypeError]. *)
Theorem normalize_outcome (data : value) :
  (Choice.normalizable data = true <-> exists data', Payload.normalize data = Ok data')
  /\ (Choice.normalizable data = false <-> Payload.normalize data = Throw TypeError).
Proof.
  pose proof (normalize_cases data) as H.
  destruct (Payload.normalize data) as [data'|e].
  - rewrite H. split; split; eauto; intros Hf; discriminate Hf.
  - destruct H as [-> ->]. split; split; auto.
    + intros Hf. discriminate Hf.
    + intros [data' Hf]. discriminate Hf.
Qed.

(** A payload on which neither statement has anything to do. *)
Lemma normalize_fixed (data c0 : value) :
  choice0 data = Some c0 ->
  is_object (Some c0) = true ->
  is_undefined (prop c0 k_delta) = false ->
  is_undefined (opt (prop c0 k_delta) k_content) && truthy (prop c0 k_text) = false ->
  Payload.normalize data = Ok data.
Proof.
  intros H Hobj Hd Ht. destruct (choice0_member _ _ H) as (c & Hc & Hc0).
  unfold Payload.normalize, Payload.ensure_delta.
  rewrite Hc. cbn [mbind result_bind]. rewrite Hc0, (opt_some _ _ Hobj), Hd.
  cbn [mbind result_bind]. unfold Payload.text_to_content.
  rewrite Hc. cbn [mbind result_bind]. rewrite Hc0, !(opt_some _ _ Hobj).
  destruct (prop c0 k_text) as [text|]; [|reflexivity]. rewrite Ht. reflexivity.
Qed.

Lemma normalize_choice (data data' : value) :
  Payload.normalize data = Ok data' ->
  exists c0 c',
    choice0 data = Some c0 /\ is_object (Some c0) = true
    /\ Choice.normalize c0 = Ok c' /\ choice0 data' = Some c'.
Proof.
  intros Hn. destruct (normalize_needs_object _ _ Hn) as (c0 & H & Hobj).
  pose proof (normalize_run data c0 H Hobj) as Hrun.
  destruct (Choice.normalize c0) as [c'|e] eqn:Ec.
  - destruct Hrun as (data'' & E & H'). rewrite E in Hn. injection Hn as ->.
    exists c0, c'. auto.
  - rewrite Hrun in Hn. discriminate Hn.
Qed.

(** X24.  Normalising what has been normalised changes nothing. *)
Theorem normalize_is_idempotent (data data' : value) :
  Payload.normalize data = Ok data' -> Payload.normalize data' = Ok data'.
Proof.
  intros Hn. destruct (normalize_choice _ _ Hn) as (c0 & c' & H & Hobj & Hc & H').
  destruct (choice_normalize_spec c0 c' Hobj Hc) as (S1 & S2 & _ & S4).
  exact (normalize_fixed data' c' H' S4 S1 S2).
Qed.

Lemma normalize_is_idempotent_witness :
  Payload.normalize closing_normal = Ok closing_normal.
Proof.
  apply (normalize_is_idempotent closing_data closing_normal). by_computation.
Defined.

(** X25.  Normalisation leaves every member of [data.choices[0]] other
    than [delta] and [text] as it was; in particular [finish_reason]. *)
Theorem normalize_keeps_other_members (data data' : value) (k : jstring) :
  Payload.normalize data = Ok data' ->
  k ≠ k_delta -> k ≠ k_text ->
  opt (choice0 data') k = opt (choice0 data) k.
Proof.
  intros Hn Hkd Hkt.
  destruct (normalize_choice _ _ Hn) as (c0 & c' & H & Hobj & Hc & H').
  destruct (choice_normalize_spec c0 c' Hobj Hc) as (_ & _ & S3 & S4).
  rewrite H, H', (opt_some _ _ Hobj), (opt_some _ _ S4). apply S3; assumption.
Qed.

Lemma normalize_keeps_other_members_witness :
  opt (choice0 closing_normal) k_finish_reason
  = opt (choice0 closing_data) k_finish_reason.
Proof.
  apply (normalize_keeps_other_members closing_data closing_normal k_finish_reason).
  - by_computation.
  - discriminate.
  - discriminate.
Defined.

Lemma finish_reason_kept (data data' : value) :
  Payload.normalize data = Ok data' -> finish_reason data' = finish_reason data.
Proof.
  intros Hn. unfold finish_reason.
  destruct (normalize_choice _ _ Hn) as (c0 & c' & H & Hobj & Hc & H').
  destruct (choice_normalize_spec c0 c' Hobj Hc) as (_ & _ & S3 & S4).
  rewrite H, H', (opt_some _ _ Hobj), (opt_some _ _ S4).
  apply S3; discriminate.
Qed.

(** X26.  What becomes of a [data: ] line whose payload is JSON is
    decided by the payload as the upstream sent it: the handler stops on
    the quoted sentinel and on a normalizable payload with a truthy
    [finish_reason]; the handling throws on a payload that is neither the
    sentinel nor normalizable. *)
Theorem line_stops_or_throws (line : jstring) (data : value) :
  startsWith data_prefix line = true ->
  JSON_parse (slice 6 line) = Some data ->
  Lines.stops line
  = is_sentinel data || Choice.normalizable data && truthy (finish_reason data)
  /\ Lines.throws line
     = negb (is_sentinel data) && negb (Choice.normalizable data).
Proof.
  intros Hp Hj. unfold Lines.stops, Lines.throws, handle_payload.
  rewrite (data_line_not_blank _ Hp), Hp, Hj. cbn [negb andb].
  destruct (is_sentinel data); [split; reflexivity|]. cbn [negb orb andb].
  pose proof (normalize_cases data) as Hout.
  destruct (Payload.normalize data) as [data'|e] eqn:Hn.
  - rewrite Hout. cbn [mbind result_bind negb andb].
    rewrite (finish_reason_kept _ _ Hn).
    destruct (truthy (finish_reason data)); split; reflexivity.
  - destruct Hout as [_ ->]. split; reflexivity.
Qed.

Lemma line_stops_or_throws_witness :
  Lines.stops finish_line
  = is_sentinel closing_upstream
    || Choice.normalizable closing_upstream && truthy (finish_reason closing_upstream)
  /\ Lines.throws finish_line
     = negb (is_sentinel closing_upstream) && negb (Choice.normalizable closing_upstream).
Proof.
  apply (line_stops_or_throws finish_line closing_upstream); by_computation.
Defined.

End Normalisation.
